(** * The YouTube ingestion pipeline: API client, pagination, storage, job queue

    A shallow embedding of the ingestion core of the youtube-analytics
    repository:

    - [services/youtubeApiClient.js]: the quota-limited, caching client
      ([makeRequest]), its two pure decoders ([parseDuration], [isShort]),
      and the methods that turn a reply into records ([getChannelInfo],
      [getChannelVideos], [getVideoDetails]);
    - [services/youtubeChannelService.js]: [fetchAndStoreChannel] and the
      pagination walker ([fetchChannelVideosPaginated]);
    - [services/youtubeVideoService.js]: [fetchAndStoreChannelVideos];
    - [database/storage.js] and [utils/analytics.js]: the Shorts percentage,
      the helpers [isShort] and [categorizeVideoByLength], the channel rows;
    - [services/jobQueue.js]: the two job processors and the job rows.

    JavaScript values are kept as the code has them: strings are [string],
    numbers are doubles (a [Z] when they are integers, a [Q] otherwise),
    [undefined] is [None], a thrown value is an [Exn], and
    code that reads the clock, the limiters, the cache or the database threads
    an explicit state. *)

From Stdlib Require Import ZArith List Bool Ascii String Lia QArith Qround Qabs
  Qpower Lqa DecimalString.
From stdpp Require Import gmap strings list fin_maps.
Import ListNotations.

Local Open Scope string_scope.
Local Open Scope Z_scope.
#[local] Set Warnings "-register-all".

(** ** Numbers

    The numbers of JavaScript are IEEE doubles.  A double is held as the
    rational it stands for, or as the integer when it is one, and an
    operation gives the double nearest to the exact result, the one with
    the even mantissa when two are as near.  The range of the exponent is
    not bounded here: a result of [2^1024] or more, which is [Infinity] in
    the code, is outside the model (it takes a run of more than 300
    digits to get there). *)

Module Double.

Definition pow2 (e : Z) : Q := Qpower 2 e.

(** The integer nearest to [x], the even one when two are as near. *)
Definition nearest_even (x : Q) : Z :=
  let f := Qfloor x in
  match Qcompare (x - inject_Z f) (1 # 2) with
  | Lt => f
  | Gt => f + 1
  | Eq => if Z.even f then f else f + 1
  end.

(** For [x > 0], the [e] with [2^e <= x < 2^(e+1)]. *)
Definition exponent (x : Q) : Z :=
  let e0 := Z.log2 (Qnum x) - Z.log2 (Zpos (Qden x)) in
  if Qle_bool (pow2 e0) x then e0 else e0 - 1.

(** The double nearest to [x > 0]: [x] with a mantissa of 53 bits. *)
Definition round_pos (x : Q) : Q :=
  let e := exponent x - 52 in
  (inject_Z (nearest_even (x / pow2 e)) * pow2 e)%Q.

(** The double nearest to [x]. *)
Definition round (x : Q) : Q :=
  match Qcompare x 0 with
  | Gt => round_pos x
  | Lt => (- round_pos (- x))%Q
  | Eq => 0%Q
  end.

(** [2^-53]: a rounding changes a number by no more than this part of
    it. *)
Definition ulp53 : Q := 1 # 9007199254740992.

(** [Number(text)] of an integer written in digits, as the database
    driver hands over a count. *)
Definition of_Z (n : Z) : Q := round (inject_Z n).



(** The double nearest to the integer [n], which is an integer: [n]
    itself below [2^53], and a multiple of a power of two from there
    on. *)
Definition int (n : Z) : Z := Qfloor (round (inject_Z n)).

(** [a * b] and [a + b] on doubles that are integers. *)
Definition times (a b : Z) : Z := int (a * b).

Definition plus (a b : Z) : Z := int (a + b).

End Double.

(** ** JavaScript strings *)

Module JsString.

Definition code (c : ascii) : Z := Z.of_N (N_of_ascii c).

(** [\d] of a regular expression without the [u] flag: [0-9]. *)
Definition is_digit (c : ascii) : bool := (48 <=? code c) && (code c <=? 57).

Definition digit_val (c : ascii) : Z := code c - 48.

Definition is_upper (c : ascii) : bool := (65 <=? code c) && (code c <=? 90).

(** [String.prototype.toLowerCase], on the bytes of the string.  A string
    is held as its UTF-8 bytes; only [A-Z] are changed.  The code points
    outside ASCII that JavaScript would change never lower to an ASCII
    letter of the word [short], which is all the callers look for. *)
Definition lower_char (c : ascii) : ascii :=
  if is_upper c then ascii_of_N (N_of_ascii c + 32) else c.

Fixpoint toLowerCase (s : string) : string :=
  match s with
  | EmptyString => EmptyString
  | String c r => String (lower_char c) (toLowerCase r)
  end.

(** [s.startsWith(p)], and what follows the prefix. *)
Fixpoint strip_prefix (p s : string) : option string :=
  match p, s with
  | EmptyString, _ => Some s
  | String a p', String b s' =>
      if Ascii.eqb a b then strip_prefix p' s' else None
  | String _ _, EmptyString => None
  end.

Definition startsWith (s p : string) : bool :=
  match strip_prefix p s with Some _ => true | None => false end.

(** [s.includes(sub)]. *)
Fixpoint includes (s sub : string) : bool :=
  if startsWith s sub then true
  else match s with
       | EmptyString => false
       | String _ r => includes r sub
       end.

(** The longest run of digits at the head of [s], and the rest. *)
Fixpoint span_digits (s : string) : string * string :=
  match s with
  | EmptyString => (EmptyString, EmptyString)
  | String c r =>
      if is_digit c
      then let (d, rest) := span_digits r in (String c d, rest)
      else (EmptyString, s)
  end.

(** The value of a run of decimal digits, most significant first. *)
Fixpoint decimal_acc (acc : Z) (s : string) : Z :=
  match s with
  | EmptyString => acc
  | String c r => decimal_acc (10 * acc + digit_val c) r
  end.

Definition decimal (s : string) : Z := decimal_acc 0 s.

Definition is_space (c : ascii) : bool :=
  let n := code c in
  (n =? 32) || ((9 <=? n) && (n <=? 13)).

Fixpoint skip_spaces (s : string) : string :=
  match s with
  | String c r => if is_space c then skip_spaces r else s
  | EmptyString => EmptyString
  end.

(** The sign in front of a number, and what follows it. *)
Definition read_sign (s : string) : Z * string :=
  match s with
  | String c r =>
      if Ascii.eqb c "-" then (-1, r)
      else if Ascii.eqb c "+" then (1, r)
      else (1, s)
  | EmptyString => (1, s)
  end.

(** [parseInt(s)] with no radix, for the inputs this code gives it: blanks
    are skipped, a sign is read, then the longest run of decimal digits;
    [None] is [NaN].  (The [0x] prefix is not modelled: no caller passes
    one.)  The value is the double nearest to the integer the digits
    write. *)
Definition parseInt (s : string) : option Z :=
  let (sign, digits) := read_sign (skip_spaces s) in
  match span_digits digits with
  | (EmptyString, _) => None
  | (d, _) => Some (Double.int (sign * decimal d))
  end.

End JsString.

(** [parseInt(v)] of a value that may be [undefined] or [null]: both print
    as a word with no digit, so the result is [NaN]. *)
Definition parseInt_opt (v : option string) : option Z :=
  match v with
  | Some s => JsString.parseInt s
  | None => None
  end.

(** [n || 0] on a number: [NaN] and [0] are falsy. *)
Definition or_zero (n : option Z) : Z :=
  match n with
  | Some z => z
  | None => 0
  end.

(** ** The pure decoders of the API client (youtubeApiClient.js) *)

Module Decoders.
Import JsString.

(** One optional group [(?:(\d+)U)?] tried at the head of [s]: the capture
    ([None] when the group does not take part) and what is left.  [\d+] is
    greedy, and giving digits back cannot help: the group needs the letter
    [u] right after digits, and a digit is never that letter.  Skipping the
    group never blocks the rest of the pattern, which is optional too, so a
    group that can match does. *)
Definition opt_group (u : ascii) (s : string) : option string * string :=
  match span_digits s with
  | (EmptyString, _) => (None, s)
  | (d, String c r) => if Ascii.eqb c u then (Some d, r) else (None, s)
  | (_, EmptyString) => (None, s)
  end.

(** The three captures of [/PT(?:(\d+)H)?(?:(\d+)M)?(?:(\d+)S)?/] right
    after a [PT]. *)
Definition groups (r : string)
  : option string * option string * option string :=
  let (h, r1) := opt_group "H" r in
  let (m, r2) := opt_group "M" r1 in
  let (s, _) := opt_group "S" r2 in
  (h, m, s).

(** [duration.match(regex)]: the pattern is not anchored, so the match is
    at the leftmost [PT]; [None] is [null]. *)
Fixpoint regex_match (s : string)
  : option (option string * option string * option string) :=
  match strip_prefix "PT" s with
  | Some r => Some (groups r)
  | None =>
      match s with
      | EmptyString => None
      | String _ r => regex_match r
      end
  end.

(** youtubeApiClient.js, [parseDuration]: [hours * 3600 + minutes * 60 +
    seconds], each product and each sum a double. *)
Definition parseDuration (duration : string) : Z :=
  match regex_match duration with
  | None => 0
  | Some (h, m, s) =>
      let hours := or_zero (parseInt_opt h) in
      let minutes := or_zero (parseInt_opt m) in
      let seconds := or_zero (parseInt_opt s) in
      Double.plus (Double.plus (Double.times hours 3600)
                               (Double.times minutes 60))
                  seconds
  end.

(** [categoryId === '23'] on a value that may be [undefined]. *)
Definition strict_eq (v : option string) (s : string) : bool :=
  match v with
  | Some x => String.eqb x s
  | None => false
  end.

(** youtubeApiClient.js, [isShort].  [tags] is [undefined] when the video
    has none. *)
Definition isShort (categoryId : option string) (duration : Z)
    (tags : option (list string)) : bool :=
  if duration <=? 60 then true
  else if match tags with
          | Some ts =>
              existsb (fun tag =>
                         includes (toLowerCase tag) "short"
                         || includes (toLowerCase tag) "shorts") ts
          | None => false
          end
  then true
  else if strict_eq categoryId "23" then true
  else duration <=? 61.

(** Some tag contains [short], whatever the case. *)
Definition has_short_tag (tags : option (list string)) : bool :=
  match tags with
  | Some ts => existsb (fun tag => includes (toLowerCase tag) "short") ts
  | None => false
  end.

(** The classifier as the specification words it: a Short is a video of
    at most 60 seconds, or with a tag that contains [short] whatever the
    case, or of the reserved category. *)
Definition isShort_spec (categoryId : option string) (duration : Z)
    (tags : option (list string)) : bool :=
  (duration <=? 60) || has_short_tag tags || strict_eq categoryId "23".

End Decoders.

(** ** JavaScript values, thrown values, and effectful code *)

(** A parsed JSON document, as [response.data] and an error body are.
    Numbers are the integers: no number this code reads has a fraction. *)
Inductive JSON : Type :=
| JNull
| JBool (b : bool)
| JNum (n : Z)
| JStr (s : string)
| JArr (items : list JSON)
| JObj (fields : list (string * JSON)).

(** A value that may be [undefined]. *)
Definition JsVal : Type := option JSON.

Module Js.

(** What [if (v)] and [v || d] test. *)
Definition truthy (v : JsVal) : bool :=
  match v with
  | None | Some JNull => false
  | Some (JBool b) => b
  | Some (JNum n) => negb (n =? 0)
  | Some (JStr s) => negb (String.eqb s "")
  | Some (JArr _) | Some (JObj _) => true
  end.

(** The value of key [k]; when a document repeats a key, [JSON.parse]
    keeps the last. *)
Fixpoint assoc_last (k : string) (fs : list (string * JSON)) : JsVal :=
  match fs with
  | [] => None
  | (k', v) :: r =>
      match assoc_last k r with
      | Some x => Some x
      | None => if String.eqb k k' then Some v else None
      end
  end.

(** [v?.p]: [undefined] when [v] is [undefined], [null], or has no [p]. *)
Definition opt_prop (v : JsVal) (p : string) : JsVal :=
  match v with
  | Some (JObj fs) => assoc_last p fs
  | _ => None
  end.

(** [v?.[i]] on an array. *)
Definition opt_index (v : JsVal) (i : nat) : JsVal :=
  match v with
  | Some (JArr l) => nth_error l i
  | _ => None
  end.

Definition of_Z (n : Z) : string := NilZero.string_of_int (Z.to_int n).

(** What a template literal prints for a value. *)
Fixpoint toString (j : JSON) : string :=
  match j with
  | JNull => "null"
  | JBool true => "true"
  | JBool false => "false"
  | JNum n => of_Z n
  | JStr s => s
  | JArr l =>
      String.concat ","
        (List.map (fun x => match x with JNull => "" | _ => toString x end) l)
  | JObj _ => "[object Object]"
  end.

Definition toString_val (v : JsVal) : string :=
  match v with
  | Some j => toString j
  | None => "undefined"
  end.

End Js.

(** What a [throw], a rejected promise or the runtime raises. *)
Inductive Exn : Type :=
| JsError (message : string)
    (** [new Error(message)] *)
| JsTypeError (message : string)
    (** raised by the runtime, here on a call of something that is not a
        function *)
| AxiosError (response : option (Z * JSON)) (request : bool) (message : string)
    (** what axios rejects with: [error.response] is the status and body of
        a reply outside 2xx, [error.request] is set once the request left *)
| RateLimiterRes (consumedPoints : Z)
    (** what a limiter's [consume] rejects with; it is no [Error] *).

(** [error.message]. *)
Definition message_of (e : Exn) : JsVal :=
  match e with
  | JsError m | JsTypeError m | AxiosError _ _ m => Some (JStr m)
  | RateLimiterRes _ => None
  end.

(** The outcome of a call: a value, or a thrown value. *)
Inductive Res (A : Type) : Type :=
| Ok (a : A)
| Throw (e : Exn).
Arguments Ok {A} a.
Arguments Throw {A} e.

(** Code over a state [S] that may throw.  An [await] is a call: one job
    runs its steps in order. *)
Definition M (S A : Type) : Type := S -> Res A * S.

Definition ret {S A} (a : A) : M S A := fun s => (Ok a, s).

Definition throw {S A} (e : Exn) : M S A := fun s => (Throw e, s).

Definition bind {S A B} (m : M S A) (k : A -> M S B) : M S B :=
  fun s =>
    match m s with
    | (Ok a, s') => k a s'
    | (Throw e, s') => (Throw e, s')
    end.

(** [try { m } catch (error) { h error }]. *)
Definition try_catch {S A} (m : M S A) (h : Exn -> M S A) : M S A :=
  fun s =>
    match m s with
    | (Ok a, s') => (Ok a, s')
    | (Throw e, s') => h e s'
    end.

Definition gets {S A} (f : S -> A) : M S A := fun s => (Ok (f s), s).

Definition modify {S} (f : S -> S) : M S unit := fun s => (Ok tt, f s).

Declare Scope js_scope.
Delimit Scope js_scope with js.
Notation "x <- m ;; k" := (bind m (fun x => k))
  (at level 100, m at next level, right associativity) : js_scope.
Notation "m ;; k" := (bind m (fun _ => k))
  (at level 100, right associativity) : js_scope.
Local Open Scope js_scope.

(** ** The quota tracker: the two limiters of youtubeApiClient.js *)

(** What a limiter keeps under one key: the points consumed in the window
    that is open, and the time that window ends, in ms. *)
Record LimiterRecord : Type := {
  consumed : Z;
  expiresAt : Z
}.

(** One [RateLimiterMemory] of the rate-limiter-flexible package: [points]
    per window of [duration] seconds, counted apart under each key. *)
Record Limiter : Type := {
  points : Z;
  duration : Z;
  storage : gmap Z LimiterRecord
}.

Module RateLimiter.

Definition create (pts dur : Z) : Limiter :=
  {| points := pts; duration := dur; storage := ∅ |}.

(** The record of [key], when its window is open at [now].  (The package
    also drops a record by a timer once its window has ended; a record past
    its time is not read, so the timer changes nothing a call can see.) *)
Definition live (now key : Z) (l : Limiter) : option LimiterRecord :=
  match storage l !! key with
  | Some r => if now <? expiresAt r then Some r else None
  | None => None
  end.

(** The points counted under [key] in the window open at [now]. *)
Definition used (now key : Z) (l : Limiter) : Z :=
  match live now key l with
  | Some r => consumed r
  | None => 0
  end.

(** [MemoryStorage.incrby]: [n] points are added to the record of the open
    window, or a window is opened at [now] with [n] points. *)
Definition incrby (now key n : Z) (l : Limiter) : LimiterRecord :=
  match live now key l with
  | Some r => {| consumed := consumed r + n; expiresAt := expiresAt r |}
  | None => {| consumed := n; expiresAt := now + duration l * 1000 |}
  end.

(** [consume(key, pointsToConsume)], as the package has it: the points are
    counted first, and the call is rejected when the count has gone over
    [points].  The points of a rejected call stay counted, and what it
    rejects with carries the count. *)
Definition consume (now key n : Z) (l : Limiter) : Res unit * Limiter :=
  let r := incrby now key n l in
  let l' := {| points := points l; duration := duration l;
               storage := <[key := r]> (storage l) |} in
  if points l <? consumed r
  then (Throw (RateLimiterRes (consumed r)), l')
  else (Ok tt, l').

End RateLimiter.

(** ** The response cache *)

(** An entry of the cache: the value and the time [t] it lives to, in ms
    ([0]: for ever). *)
Record CacheEntry : Type := {
  v : JSON;
  t : Z
}.

Module NodeCache.

(** Modelled from the spec: [NodeCache] belongs to the node-cache package.
    It follows the Response Cache's contract (section 4.2): [get] gives the
    value of an entry that has not expired and treats an expired one as a
    miss (dropping it on the way); [set] stores a value for [ttl] seconds. *)
Definition get (now : Z) (key : string) (c : gmap string CacheEntry)
  : JsVal * gmap string CacheEntry :=
  match c !! key with
  | Some e =>
      if negb (t e =? 0) && (t e <? now)
      then (None, delete key c)
      else (Some (v e), c)
  | None => (None, c)
  end.

Definition set (now : Z) (key : string) (value : JSON) (ttl : Z)
    (c : gmap string CacheEntry) : gmap string CacheEntry :=
  <[key := {| v := value; t := if ttl =? 0 then 0 else now + ttl * 1000 |}]> c.

End NodeCache.

(** ** The API client: [makeRequest] (youtubeApiClient.js) *)

(** A value of the [params] object. *)
Inductive ParamVal : Type :=
| PStr (s : string)
| PNum (n : Z)
| PUndefined.

Definition Params : Type := list (string * ParamVal).

Module Stringify.

Definition quote : string := String "034" EmptyString.
Definition backslash : string := String "092" EmptyString.

Definition hex_digit (n : Z) : string :=
  String.substring (Z.to_nat n) 1 "0123456789abcdef".

(** How [JSON.stringify] writes one character of a string. *)
Definition escape_char (c : ascii) : string :=
  let n := JsString.code c in
  if n =? 34 then backslash ++ quote
  else if n =? 92 then backslash ++ backslash
  else if n =? 8 then backslash ++ "b"
  else if n =? 9 then backslash ++ "t"
  else if n =? 10 then backslash ++ "n"
  else if n =? 12 then backslash ++ "f"
  else if n =? 13 then backslash ++ "r"
  else if n <? 32 then backslash ++ "u00" ++ hex_digit (n / 16) ++ hex_digit (n mod 16)
  else String c EmptyString.

Fixpoint escape (s : string) : string :=
  match s with
  | EmptyString => EmptyString
  | String c r => escape_char c ++ escape r
  end.

Definition quoted (s : string) : string := quote ++ escape s ++ quote.

(** The members [JSON.stringify] writes: one whose value is [undefined]
    is left out. *)
Fixpoint members (ps : Params) : list string :=
  match ps with
  | [] => []
  | (k, PStr s) :: r => (quoted k ++ ":" ++ quoted s) :: members r
  | (k, PNum n) :: r => (quoted k ++ ":" ++ Js.of_Z n) :: members r
  | (_, PUndefined) :: r => members r
  end.

(** [JSON.stringify(params)]. *)
Definition stringify (ps : Params) : string :=
  "{" ++ String.concat "," (members ps) ++ "}".

End Stringify.

(** [params[k] = v]: an own key keeps its place, a new one goes last. *)
Fixpoint set_param (k : string) (x : ParamVal) (ps : Params) : Params :=
  match ps with
  | [] => [(k, x)]
  | (k', x') :: r =>
      if String.eqb k k' then (k, x) :: r else (k', x') :: set_param k x r
  end.

(** [this.usage]. *)
Record Usage : Type := {
  totalRequests : Z;
  requestsToday : Z;
  lastReset : Z
}.

(** What the upstream service, or the way to it, answers to one [GET]. *)
Inductive AxiosOutcome : Type :=
| Http (status : Z) (data : JSON)
    (** a reply came back *)
| NoResponse (message : string)
    (** the request left and no reply came (a timeout, a transport
        failure) *)
| SetupFailure (message : string)
    (** the request could not be set up *).

(** The upstream service: its answer to the [n]-th request sent, by
    endpoint and parameters. *)
Definition Upstream : Type := nat -> string -> Params -> AxiosOutcome.

(** The state the client code reads and writes: the clock, the offset of
    the local time of the process from UTC at each instant (both in ms),
    the two limiters and the cache (all three shared by every client of
    the process), the usage counters of the client, and the requests that
    left for the upstream service, oldest first. *)
Record World : Type := {
  now : Z;
  localTZA : Z -> Z;
  rateLimiter : Limiter;
  minuteRateLimiter : Limiter;
  apiCache : gmap string CacheEntry;
  usage : Usage;
  requests : list (string * Params)
}.

Definition set_now (x : Z) (w : World) : World :=
  {| now := x; localTZA := localTZA w; rateLimiter := rateLimiter w;
     minuteRateLimiter := minuteRateLimiter w; apiCache := apiCache w;
     usage := usage w; requests := requests w |}.

Definition set_rateLimiter (x : Limiter) (w : World) : World :=
  {| now := now w; localTZA := localTZA w; rateLimiter := x;
     minuteRateLimiter := minuteRateLimiter w; apiCache := apiCache w;
     usage := usage w; requests := requests w |}.

Definition set_minuteRateLimiter (x : Limiter) (w : World) : World :=
  {| now := now w; localTZA := localTZA w; rateLimiter := rateLimiter w;
     minuteRateLimiter := x; apiCache := apiCache w;
     usage := usage w; requests := requests w |}.

Definition set_apiCache (x : gmap string CacheEntry) (w : World) : World :=
  {| now := now w; localTZA := localTZA w; rateLimiter := rateLimiter w;
     minuteRateLimiter := minuteRateLimiter w; apiCache := x;
     usage := usage w; requests := requests w |}.

Definition set_usage (x : Usage) (w : World) : World :=
  {| now := now w; localTZA := localTZA w; rateLimiter := rateLimiter w;
     minuteRateLimiter := minuteRateLimiter w; apiCache := apiCache w;
     usage := x; requests := requests w |}.

Definition set_requests (x : list (string * Params)) (w : World) : World :=
  {| now := now w; localTZA := localTZA w; rateLimiter := rateLimiter w;
     minuteRateLimiter := minuteRateLimiter w; apiCache := apiCache w;
     usage := usage w; requests := x |}.

Module Calendar.

(** The day of the month of the day [days] days after 1 January 1970. *)
Definition day_of_month (days : Z) : Z :=
  let z := days + 719468 in
  let era := z / 146097 in
  let doe := z - era * 146097 in
  let yoe := (doe - doe / 1460 + doe / 36524 - doe / 146096) / 365 in
  let doy := doe - (365 * yoe + yoe / 4 - yoe / 100) in
  let mp := (5 * doy + 2) / 153 in
  doy - (153 * mp + 2) / 5 + 1.

(** [new Date(ms).getDate()]: the day of the month in the local time of
    the process, which is [tza ms] ms ahead of UTC at the instant [ms]. *)
Definition getDate (tza : Z -> Z) (ms : Z) : Z :=
  day_of_month ((ms + tza ms) / 86400000).

End Calendar.

Module YouTubeAPIClient.

(** The module-level limiters and cache, and a client's counters, as the
    file and the constructor create them, in a process whose local time is
    UTC. *)
Definition fresh (start : Z) : World :=
  {| now := start;
     localTZA := fun _ => 0;
     rateLimiter := RateLimiter.create 10000 (24 * 60 * 60);
     minuteRateLimiter := RateLimiter.create 100 60;
     apiCache := ∅;
     usage := {| totalRequests := 0; requestsToday := 0; lastReset := start |};
     requests := [] |}.

(** [rateLimiter.consume(cost)], lines 49 and 57.  The first parameter of
    [consume] is the key and the second, the points, is left to its
    default: [cost] names the record, and one point is counted. *)
Definition rateLimiter_consume (cost : Z) : M World unit :=
  fun w =>
    let (r, l) := RateLimiter.consume (now w) cost 1 (rateLimiter w) in
    (r, set_rateLimiter l w).

(** [minuteRateLimiter.consume(1)], lines 51 and 58: one point under the
    key [1]. *)
Definition minuteRateLimiter_consume (key : Z) : M World unit :=
  fun w =>
    let (r, l) := RateLimiter.consume (now w) key 1 (minuteRateLimiter w) in
    (r, set_minuteRateLimiter l w).

(** One attempt on the quota, lines 49 and 51 (and again 57 and 58): the
    daily limiter first, then the per-minute one.  This is the
    specification's [tryConsume]. *)
Definition tryConsume (cost : Z) : M World unit :=
  rateLimiter_consume cost ;; minuteRateLimiter_consume 1.

(** [delay(ms)]: the timer fires [ms] later. *)
Definition delay (ms : Z) : M World unit :=
  modify (fun w => set_now (now w + ms) w).

(** What the quota code leaves alone. *)
Definition same_outside_quota (w w1 : World) : Prop :=
  requests w1 = requests w /\ apiCache w1 = apiCache w /\ usage w1 = usage w.

(** The "multiple rate limiting layers", lines 46 to 62: an attempt on
    the quota; when it is refused, a wait of five seconds and one more
    attempt; when that is refused too, an [Error]. *)
Definition rate_limiting_layers (cost : Z) : M World unit :=
  try_catch (tryConsume cost)
    (fun rateLimitError =>
       delay 5000 ;;
       try_catch (tryConsume cost)
         (fun retryError =>
            throw (JsError "Rate limit exceeded. Please try again later."))).

(** Lines 64 to 73. *)
Definition track_usage : M World unit :=
  modify (fun w =>
    let u := usage w in
    let total := totalRequests u + 1 in
    let today := requestsToday u + 1 in
    if Calendar.getDate (localTZA w) (now w)
       =? Calendar.getDate (localTZA w) (lastReset u)
    then set_usage {| totalRequests := total; requestsToday := today;
                      lastReset := lastReset u |} w
    else set_usage {| totalRequests := total; requestsToday := 0;
                      lastReset := now w |} w).

Definition cacheKey (endpoint : string) (params : Params) : string :=
  endpoint ++ "_" ++ Stringify.stringify params.

Definition apiCache_get (key : string) : M World JsVal :=
  fun w =>
    let (r, c) := NodeCache.get (now w) key (apiCache w) in
    (Ok r, set_apiCache c w).

Definition apiCache_set (key : string) (value : JSON) (ttl : Z)
  : M World unit :=
  modify (fun w =>
    set_apiCache (NodeCache.set (now w) key value ttl (apiCache w)) w).

Definition cacheTTL (endpoint : string) : Z :=
  if JsString.includes endpoint "/search" || JsString.includes endpoint "/videos"
  then 300
  else if JsString.includes endpoint "/channels" then 1800
  else 600.

(** [error.response.data?.error?.message || 'Unknown error'], as the
    template literal prints it. *)
Definition upstream_message (data : JSON) : string :=
  let m := Js.opt_prop (Js.opt_prop (Some data) "error") "message" in
  if Js.truthy m then Js.toString_val m else "Unknown error".

Section Requests.

Variable apiKey : string.
Variable net : Upstream.

(** [this.axiosInstance.get(endpoint, { params })]: axios resolves on a
    status in 2xx and rejects otherwise.  A request that left is
    recorded. *)
Definition axios_get (endpoint : string) (params : Params) : M World JSON :=
  fun w =>
    let sent := set_requests (requests w ++ [(endpoint, params)]) w in
    match net (List.length (requests w)) endpoint params with
    | Http status data =>
        if (200 <=? status) && (status <? 300)
        then (Ok data, sent)
        else (Throw (AxiosError (Some (status, data)) true
                       ("Request failed with status code " ++ Js.of_Z status)),
              sent)
    | NoResponse m => (Throw (AxiosError None true m), sent)
    | SetupFailure m => (Throw (AxiosError None false m), w)
    end.

(** The [catch] of [makeRequest], lines 98 to 127.  The tests on the
    status and on the reason code only choose what is written to the
    console; what is thrown does not depend on them. *)
Definition on_error (error : Exn) : M World JSON :=
  match error with
  | AxiosError (Some (status, data)) _ _ =>
      throw (JsError ("YouTube API Error: " ++ Js.of_Z status ++ " - "
                      ++ upstream_message data))
  | AxiosError None true m =>
      throw (JsError ("Network error: " ++ m))
  | _ =>
      throw (JsError ("Request error: " ++ Js.toString_val (message_of error)))
  end.

(** Lines 83 to 97: the request is sent, and the reply is cached for
    the time its endpoint is given. *)
Definition fetch (key endpoint : string) (params : Params) : M World JSON :=
  data <- axios_get endpoint params ;;
  apiCache_set key data (cacheTTL endpoint) ;;
  ret data.

(** [makeRequest(endpoint, params, cost)], lines 41 to 128. *)
Definition makeRequest (endpoint : string) (params : Params) (cost : Z)
  : M World JSON :=
  try_catch
    (let params := set_param "key" (PStr apiKey) params in
     rate_limiting_layers cost ;;
     track_usage ;;
     let key := cacheKey endpoint params in
     cachedResponse <- apiCache_get key ;;
     match cachedResponse with
     | Some cached =>
         if Js.truthy cachedResponse then ret cached
         else fetch key endpoint params
     | None => fetch key endpoint params
     end)
    on_error.

End Requests.

End YouTubeAPIClient.

(** ** The records the client hands to its callers *)

(** A video, as [getVideoDetails] builds it. *)
Record Video : Type := {
  videoId : string;
  channelId : string;
  title : string;
  description : string;
  publishedAt : string;
  durationSeconds : Z;
  viewCount : Z;
  likeCount : Z;
  commentCount : Z;
  thumbnailUrl : option string;
  isShort : bool;
  categoryId : option string;
  tags : list string
}.

(** A channel, as [getChannelInfo] builds it. *)
Record ChannelData : Type := {
  c_channelId : string;
  c_title : string;
  c_description : string;
  c_customUrl : option string;
  c_thumbnailUrl : option string;
  c_bannerUrl : option string;
  subscriberCount : Z;
  videoCount : Z;
  c_viewCount : Z
}.

(** What [getChannelVideos] returns: one page, and the continuation token
    ([None] is [null]). *)
Record Page : Type := {
  videos : list Video;
  nextPageToken : option string
}.

(** [if (pageToken)]: [null] and the empty string are falsy. *)
Definition token_truthy (tok : option string) : bool :=
  match tok with
  | Some s => negb (String.eqb s "")
  | None => false
  end.

(** The methods of a [YouTubeAPIClient] that read upstream records.  How a
    reply's fields are mapped into [ChannelData] and [Video] is left to the
    instance; the quota, the cache and the network are in [makeRequest]. *)
Record ClientOps : Type := {
  getChannelInfo : string -> string -> M World ChannelData;
  getChannelVideos : string -> Z -> option string -> M World Page
}.

(** The names a [YouTubeAPIClient] answers to: the methods of the class
    body, lines 21 to 283. *)
Definition YouTubeAPIClient_methods : list string :=
  [ "constructor"; "makeRequest"; "delay"; "getChannelInfo";
    "getChannelVideos"; "getVideoDetails"; "parseDuration"; "isShort" ].

(** Whether [this.client[name]] is a function. *)
Definition client_has_method (name : string) : bool :=
  existsb (String.eqb name) YouTubeAPIClient_methods.

(** ** The pagination walker (youtubeChannelService.js, lines 70 to 95) *)

Module Walker.

Section Walk.

(** The walker only calls the client: it is the same over any state. *)
Context {W : Type}.
Variable getChannelVideos : string -> Z -> option string -> M W Page.
Variable channelId : string.
Variable maxPages : Z.

(** The [do ... while] loop, entered with the values of its three
    variables.  [fuel] bounds the turns to come; the loop stops by
    itself before it runs out (see [do_while_fuel]). *)
Fixpoint do_while (fuel : nat) (allVideos : list Video)
    (pageToken : option string) (pagesFetched : Z) : M W (list Video) :=
  result <- getChannelVideos channelId 50 pageToken ;;
  let allVideos := (allVideos ++ videos result)%list in
  let pageToken := nextPageToken result in
  let pagesFetched := pagesFetched + 1 in
  if token_truthy pageToken && (pagesFetched <? maxPages)
  then match fuel with
       | S fuel' => do_while fuel' allVideos pageToken pagesFetched
       | O => ret allVideos
       end
  else ret allVideos.

(** [fetchChannelVideosPaginated(channelId, maxPages)]. *)
Definition fetchChannelVideosPaginated : M W (list Video) :=
  try_catch (do_while (Z.to_nat maxPages) [] None 0)
    (fun error => throw error).

End Walk.





End Walker.

(** ** Storage (database/storage.js) and the analytics helper

    The tables are maps keyed by the column the statements name in
    [ON CONFLICT] or [WHERE].  But for the statement of
    [updateChannelAnalytics], the database is taken to run every statement
    it is given: a refusal of its own (a lost connection, a value a column
    does not take) is outside the model. *)

(** A row of [videos]; a column that may be [NULL] is an [option]. *)
Record VideoRow : Type := {
  video_id : string;
  v_channel_id : string;
  v_title : string;
  v_description : option string;
  published_at : string;
  duration_seconds : option Z;
  view_count : option Z;
  like_count : option Z;
  comment_count : option Z;
  v_thumbnail_url : option string;
  is_short : option bool;
  category_id : option string;
  v_tags : option (list string);
  v_created_at : Z;
  v_updated_at : Z
}.

(** A row of [channels]. *)
Record ChannelRow : Type := {
  channel_id : string;
  ch_data : ChannelData;
  ch_created_at : Z;
  ch_updated_at : Z
}.

(** A row of [channel_analytics].  [total_shorts] is [None] when the value
    handed to the database is [NaN]. *)
Record AnalyticsRow : Type := {
  total_videos : Z;
  total_shorts : option Z;
  shorts_percentage : Q;
  total_views : Z;
  average_view_count : Q;
  calculated_at : Z
}.

(** The tables the storage code writes. *)
Record Store : Type := {
  channels : gmap string ChannelRow;
  videos_table : gmap string VideoRow;
  channel_analytics : gmap string AnalyticsRow
}.

Module Storage.

Definition empty : Store :=
  {| channels := ∅; videos_table := ∅; channel_analytics := ∅ |}.









(** [Number(v)] of a count that may be [null]: [null] counts as [0]. *)
Definition number (v : option Z) : Z :=
  match v with Some n => n | None => 0 end.


Section Analytics.

(** What the database answers to the statement of
    [updateChannelAnalytics], by the channel, the values and the tables:
    the error it refuses the statement with, or nothing when it runs it.
    It is left open, for this statement names [ON CONFLICT (channel_id)],
    which needs a unique constraint that the schema of the repository
    (database/schema.sql) does not give [channel_analytics], and it hands
    the column [total_shorts] the value [NaN] for a channel without
    videos. *)
Variable refuses : string -> AnalyticsRow -> Store -> option Exn.




End Analytics.

(** [storeChannel], lines 238 to 276: insert, or update on conflict. *)
Definition storeChannel (now : Z) (channelData : ChannelData)
  : M Store ChannelRow :=
  fun s =>
    let key := c_channelId channelData in
    let row :=
      {| channel_id := key; ch_data := channelData;
         ch_created_at := match channels s !! key with
                          | Some old => ch_created_at old
                          | None => now
                          end;
         ch_updated_at := now |} in
    (Ok row,
     {| channels := <[key := row]> (channels s);
        videos_table := videos_table s;
        channel_analytics := channel_analytics s |}).

(** [storeVideo], lines 289 to 335 (and youtubeVideoService.js, lines 32
    to 78). *)
Definition storeVideo (now : Z) (video : Video) : M Store VideoRow :=
  fun s =>
    let row :=
      {| video_id := videoId video; v_channel_id := channelId video;
         v_title := title video;
         v_description := Some (description video);
         published_at := publishedAt video;
         duration_seconds := Some (durationSeconds video);
         view_count := Some (viewCount video);
         like_count := Some (likeCount video);
         comment_count := Some (commentCount video);
         v_thumbnail_url := thumbnailUrl video;
         is_short := Some (isShort video);
         category_id := categoryId video;
         v_tags := Some (tags video);
         v_created_at := match videos_table s !! videoId video with
                         | Some old => v_created_at old
                         | None => now
                         end;
         v_updated_at := now |} in
    (Ok row,
     {| channels := channels s;
        videos_table := <[videoId video := row]> (videos_table s);
        channel_analytics := channel_analytics s |}).

End Storage.

Module Analytics.

(** A video as [calculateShortsPercentage] reads it: a database row has
    [is_short], a client record has [isShort]. *)
Record video : Type := {
  a_is_short : option bool;
  a_isShort : option bool
}.


End Analytics.




(** ** The two services *)

(** What a service reads and writes: the client's state and the tables. *)
Record Env : Type := {
  world : World;
  store : Store
}.

Definition on_world {A} (m : M World A) : M Env A :=
  fun e =>
    let (r, w) := m (world e) in
    (r, {| world := w; store := store e |}).

(** A statement on the tables, run at the time of the clock. *)
Definition on_store {A} (m : Z -> M Store A) : M Env A :=
  fun e =>
    let (r, s) := m (now (world e)) (store e) in
    (r, {| world := world e; store := s |}).

(** [new YouTubeAPIClient(apiKey)], lines 22 to 39: the counters of the
    new client start at zero. *)
Definition new_YouTubeAPIClient : M World unit :=
  modify (fun w =>
    set_usage {| totalRequests := 0; requestsToday := 0; lastReset := now w |} w).

Fixpoint for_each {S A B} (f : A -> M S B) (l : list A) : M S unit :=
  match l with
  | [] => ret tt
  | x :: r => f x ;; for_each f r
  end.

Module YouTubeChannelService.

Section Service.

Variable client : ClientOps.

(** [fetchAndStoreChannel(channelId)], lines 11 to 26. *)
Definition fetchAndStoreChannel (channelId : string) : M Env ChannelRow :=
  try_catch
    (channelData <- on_world (getChannelInfo client channelId "id") ;;
     storedChannel <- on_store (fun now => Storage.storeChannel now channelData) ;;
     ret storedChannel)
    (fun error => throw error).

(** [fetchChannelVideosPaginated(channelId, maxPages)], lines 70 to
    95, over [this.client]. *)
Definition fetchChannelVideosPaginated (channelId : string) (maxPages : Z)
  : M Env (list Video) :=
  Walker.fetchChannelVideosPaginated
    (fun c n tok => on_world (getChannelVideos client c n tok))
    channelId maxPages.

End Service.

End YouTubeChannelService.

Module YouTubeVideoService.

Section Service.

(** What [this.client.fetchChannelVideosPaginated] would run if the
    client had such a method. *)
Variable method : string -> Z -> M Env (list Video).

(** [this.client.fetchChannelVideosPaginated(channelId, maxPages)]: the
    call of a property that is not a function raises a [TypeError]. *)
Definition client_fetchChannelVideosPaginated (channelId : string)
    (maxPages : Z) : M Env (list Video) :=
  if client_has_method "fetchChannelVideosPaginated"
  then method channelId maxPages
  else throw (JsTypeError
                "this.client.fetchChannelVideosPaginated is not a function").

(** [fetchAndStoreChannelVideos(channelId, maxPages)], lines 10 to
    29. *)
Definition fetchAndStoreChannelVideos (channelId : string) (maxPages : Z)
  : M Env (list Video) :=
  try_catch
    (allVideos <- client_fetchChannelVideosPaginated channelId maxPages ;;
     for_each (fun video => on_store (fun now => Storage.storeVideo now video))
       allVideos ;;
     ret allVideos)
    (fun error => throw error).

End Service.

End YouTubeVideoService.

(** ** The job queue (jobQueue.js) *)

Inductive JobStatus : Type := pending | started | completed | failed.

(** A row of [job_queue]. *)
Record JobRow : Type := {
  job_type : string;
  j_channel_id : string;
  status : JobStatus;
  priority : Z;
  created_at : Z;
  started_at : option Z;
  completed_at : option Z;
  error_message : option string;
  progress : Z
}.

(** An [UPDATE] that changed a row. *)
Inductive JobWrite : Type :=
| SetStatus (s : JobStatus)
| SetProgress (p : Z).

(** What a job handed to a Bull queue carries. *)
Record JobData : Type := {
  d_channelId : string;
  d_maxPages : option Z;
  d_apiKey : string
}.

Record JobOpts : Type := {
  o_priority : Z;
  attempts : Z;
  backoff_delay : Z
    (** of the [exponential] kind *)
}.

Record Job : Type := {
  id : Z;
  name : string;
  data : JobData;
  opts : JobOpts;
  attemptsMade : Z
}.

(** What a processor returns. *)
Record JobReturn : Type := {
  success : bool;
  r_channelData : option ChannelRow;
  r_videoCount : Z
}.

(** The whole system: what the services see, the [job_queue] table with
    the next value of its serial key, the updates that changed a row of it
    (oldest first), and the last id each Bull queue gave out. *)
Record Sys : Type := {
  env : Env;
  job_queue : gmap Z JobRow;
  job_serial : Z;
  written : list (Z * JobWrite);
  channelFetchQueue : Z;
  videoFetchQueue : Z
}.

Definition on_env {A} (m : M Env A) : M Sys A :=
  fun s =>
    let (r, e) := m (env s) in
    (r, {| env := e; job_queue := job_queue s; job_serial := job_serial s;
           written := written s; channelFetchQueue := channelFetchQueue s;
           videoFetchQueue := videoFetchQueue s |}).

Module JobQueue.

Definition clock (s : Sys) : Z := now (world (env s)).

(** An [UPDATE job_queue SET ... WHERE id = jobId]: it changes the row
    with that key, if there is one. *)
Definition update_row (jobId : Z) (f : JobRow -> JobRow) (wr : JobWrite)
    (s : Sys) : Sys :=
  match job_queue s !! jobId with
  | Some row =>
      {| env := env s;
         job_queue := <[jobId := f row]> (job_queue s);
         job_serial := job_serial s;
         written := (written s ++ [(jobId, wr)])%list;
         channelFetchQueue := channelFetchQueue s;
         videoFetchQueue := videoFetchQueue s |}
  | None => s
  end.

(** [updateJobStatus(jobId, status, errorMessage)], lines 185 to 207.
    No statement is built for a status other than the three tested; the
    driver refuses the empty query and the [catch] only logs. *)
Definition updateJobStatus (jobId : Z) (st : JobStatus)
    (errorMessage : option string) : M Sys unit :=
  modify (fun s =>
    let at_ := clock s in
    match st with
    | started =>
        update_row jobId
          (fun r => {| job_type := job_type r; j_channel_id := j_channel_id r;
                       status := started; priority := priority r;
                       created_at := created_at r; started_at := Some at_;
                       completed_at := completed_at r;
                       error_message := error_message r;
                       progress := progress r |})
          (SetStatus started) s
    | completed =>
        update_row jobId
          (fun r => {| job_type := job_type r; j_channel_id := j_channel_id r;
                       status := completed; priority := priority r;
                       created_at := created_at r; started_at := started_at r;
                       completed_at := Some at_;
                       error_message := error_message r;
                       progress := progress r |})
          (SetStatus completed) s
    | failed =>
        update_row jobId
          (fun r => {| job_type := job_type r; j_channel_id := j_channel_id r;
                       status := failed; priority := priority r;
                       created_at := created_at r; started_at := started_at r;
                       completed_at := Some at_;
                       error_message := errorMessage;
                       progress := progress r |})
          (SetStatus failed) s
    | pending => s
    end).

(** [updateJobProgress(jobId, progress)], lines 210 to 220. *)
Definition updateJobProgress (jobId : Z) (p : Z) : M Sys unit :=
  modify (update_row jobId
    (fun r => {| job_type := job_type r; j_channel_id := j_channel_id r;
                 status := status r; priority := priority r;
                 created_at := created_at r; started_at := started_at r;
                 completed_at := completed_at r;
                 error_message := error_message r;
                 progress := p |})
    (SetProgress p)).

(** [storeJobInDatabase(jobType, channelId, jobId)], lines 169 to 182:
    the row is keyed by the table's serial, not by [jobId]. *)
Definition storeJobInDatabase (jobType channelId : string) (jobId : Z)
  : M Sys unit :=
  modify (fun s =>
    {| env := env s;
       job_queue :=
         <[job_serial s :=
             {| job_type := jobType; j_channel_id := channelId;
                status := pending; priority := 1; created_at := clock s;
                started_at := None; completed_at := None;
                error_message := None; progress := 0 |}]> (job_queue s);
       job_serial := job_serial s + 1;
       written := written s;
       channelFetchQueue := channelFetchQueue s;
       videoFetchQueue := videoFetchQueue s |}).

(** [error.message], as the text handed to the database. *)
Definition error_text (e : Exn) : option string :=
  match message_of e with
  | Some (JStr m) => Some m
  | _ => None
  end.

(** The options both [add] calls pass, lines 128 to 135 and 150 to
    157. *)
Definition job_opts (priority : Z) : JobOpts :=
  {| o_priority := priority; attempts := 3; backoff_delay := 2000 |}.

(** [addChannelFetchJob(channelId, priority, apiKey)], lines 125 to
    144. *)
Definition addChannelFetchJob (channelId : string) (priority : Z)
    (apiKey : string) : M Sys Job :=
  fun s =>
    let job :=
      {| id := channelFetchQueue s + 1; name := "fetchChannel";
         data := {| d_channelId := channelId; d_maxPages := None;
                    d_apiKey := apiKey |};
         opts := job_opts priority; attemptsMade := 0 |} in
    let s1 :=
      {| env := env s; job_queue := job_queue s; job_serial := job_serial s;
         written := written s; channelFetchQueue := channelFetchQueue s + 1;
         videoFetchQueue := videoFetchQueue s |} in
    (storeJobInDatabase "channel_fetch" channelId (id job) ;; ret job) s1.

(** [addVideoFetchJob(channelId, maxPages, priority, apiKey)], lines 147
    to 166; [maxPages] is [5] when it is not given. *)
Definition addVideoFetchJob (channelId : string) (maxPages : option Z)
    (priority : Z) (apiKey : string) : M Sys Job :=
  fun s =>
    let job :=
      {| id := videoFetchQueue s + 1; name := "fetchVideos";
         data := {| d_channelId := channelId;
                    d_maxPages := Some (match maxPages with
                                        | Some n => n
                                        | None => 5
                                        end);
                    d_apiKey := apiKey |};
         opts := job_opts priority; attemptsMade := 0 |} in
    let s1 :=
      {| env := env s; job_queue := job_queue s; job_serial := job_serial s;
         written := written s; channelFetchQueue := channelFetchQueue s;
         videoFetchQueue := videoFetchQueue s + 1 |} in
    (storeJobInDatabase "video_fetch" channelId (id job) ;; ret job) s1.

Section Processors.

(** [new YouTubeAPIClient(apiKey)], as far as its methods go. *)
Variable new_client : string -> ClientOps.

(** What a [fetchChannelVideosPaginated] of the client would run, if it
    had one. *)
Variable method : string -> Z -> M Env (list Video).

(** The processor of [fetchChannel] jobs, lines 51 to 87. *)
Definition process_fetchChannel (job : Job) : M Sys JobReturn :=
  let channelId := d_channelId (data job) in
  let apiKey := d_apiKey (data job) in
  updateJobStatus (id job) started None ;;
  try_catch
    (on_env (on_world new_YouTubeAPIClient) ;;
     let service := new_client apiKey in
     channelData <- on_env (YouTubeChannelService.fetchAndStoreChannel
                              service channelId) ;;
     updateJobProgress (id job) 50 ;;
     videos <- on_env (YouTubeChannelService.fetchChannelVideosPaginated
                         service channelId 5) ;;
     updateJobProgress (id job) 100 ;;
     updateJobStatus (id job) completed None ;;
     ret {| success := true; r_channelData := Some channelData;
            r_videoCount := Z.of_nat (List.length videos) |})
    (fun error =>
       updateJobStatus (id job) failed (error_text error) ;;
       throw error).

(** [maxPages || 5]. *)
Definition maxPages_or_5 (maxPages : option Z) : Z :=
  match maxPages with
  | Some n => if n =? 0 then 5 else n
  | None => 5
  end.

(** The processor of [fetchVideos] jobs, lines 90 to 122. *)
Definition process_fetchVideos (job : Job) : M Sys JobReturn :=
  let channelId := d_channelId (data job) in
  let maxPages := d_maxPages (data job) in
  updateJobStatus (id job) started None ;;
  try_catch
    (on_env (on_world new_YouTubeAPIClient) ;;
     videos <- on_env (YouTubeVideoService.fetchAndStoreChannelVideos
                         method channelId (maxPages_or_5 maxPages)) ;;
     updateJobProgress (id job) 100 ;;
     updateJobStatus (id job) completed None ;;
     ret {| success := true; r_channelData := None;
            r_videoCount := Z.of_nat (List.length videos) |})
    (fun error =>
       updateJobStatus (id job) failed (error_text error) ;;
       throw error).

End Processors.

End JobQueue.

(** ** The scheduler *)

Module Bull.

(** The scheduler belongs to the bull package, which the repository only
    configures.  It is modelled from the options the source passes it:
    [attempts] is the number of times a job is run before it is failed for
    good, and a run that throws is followed, after the backoff delay, by
    the next one.  The options carry no test on the error, and the
    processors rethrow what they caught unchanged. *)

(** The built-in [exponential] strategy: the delay, in ms, before the run
    that follows [attemptsMade] failed ones. *)
Definition backoff (o : JobOpts) (attemptsMade : Z) : Z :=
  (2 ^ attemptsMade - 1) * backoff_delay o.

Definition sleep (ms : Z) : M Sys unit :=
  on_env (on_world (YouTubeAPIClient.delay ms)).

Definition with_attemptsMade (n : Z) (job : Job) : Job :=
  {| id := id job; name := name job; data := data job; opts := opts job;
     attemptsMade := n |}.

(** The runs of one job.  [Ok] is the state [completed] with the value
    returned, [Throw] the state [failed] with the reason.  [fuel] bounds
    the runs to come; [attempts] stops them first (see [run_fuel]). *)
Fixpoint run (fuel : nat) (process : Job -> M Sys JobReturn) (job : Job)
  : M Sys JobReturn :=
  try_catch (process job)
    (fun err =>
       let made := attemptsMade job + 1 in
       if made <? attempts (opts job)
       then match fuel with
            | S fuel' =>
                sleep (backoff (opts job) made) ;;
                run fuel' process (with_attemptsMade made job)
            | O => throw err
            end
       else throw err).

(** A job from the moment a worker takes it. *)
Definition work (process : Job -> M Sys JobReturn) (job : Job)
  : M Sys JobReturn :=
  run (Z.to_nat (attempts (opts job))) process job.

End Bull.

(** The writes of one job, in order. *)
Definition writes_of (jobId : Z) (log : list (Z * JobWrite)) : list JobWrite :=
  List.map snd (List.filter (fun x => fst x =? jobId) log).

Fixpoint statuses (l : list JobWrite) : list JobStatus :=
  match l with
  | [] => []
  | SetStatus s :: r => s :: statuses r
  | SetProgress _ :: r => statuses r
  end.

Fixpoint progresses (l : list JobWrite) : list Z :=
  match l with
  | [] => []
  | SetProgress p :: r => p :: progresses r
  | SetStatus _ :: r => progresses r
  end.

(** ** The error taxonomy of the specification *)

Module Taxonomy.

Inductive t : Type :=
| QuotaExceeded
| RateLimited
| QuotaExceededUpstream
| NotFound
| Upstream4xx
| Upstream5xx
| NetworkError
| ValidationError.

(** The reason code of an upstream error body:
    [data.error.errors[0].reason]. *)
Definition reason (data : JSON) : JsVal :=
  Js.opt_prop
    (Js.opt_index (Js.opt_prop (Js.opt_prop (Some data) "error") "errors") 0)
    "reason".

Definition is_quotaExceeded (data : JSON) : bool :=
  match reason data with
  | Some (JStr r) => String.eqb r "quotaExceeded"
  | _ => false
  end.

(** The class the specification gives an upstream failure (section 4.3,
    step 4, and section 7); [None] for a reply in 2xx. *)
Definition classify (o : AxiosOutcome) : option t :=
  match o with
  | Http status data =>
      if (200 <=? status) && (status <? 300) then None
      else if status =? 403
           then Some (if is_quotaExceeded data then QuotaExceededUpstream
                      else RateLimited)
      else if status =? 404 then Some NotFound
      else if 500 <=? status then Some Upstream5xx
      else Some Upstream4xx
  | NoResponse _ => Some NetworkError
  | SetupFailure _ => Some NetworkError
  end.

End Taxonomy.

(** ** Data for the examples *)

Module Scenario.

Definition mk_video (vid : string) (short : bool) : Video :=
  {| videoId := vid; channelId := "UC1"; title := vid; description := "";
     publishedAt := "2024-01-01T00:00:00Z";
     durationSeconds := if short then 30 else 600;
     viewCount := 100; likeCount := 0; commentCount := 0;
     thumbnailUrl := None; isShort := short; categoryId := Some "10";
     tags := [] |}.





Definition apiKey : string := "KEY".

Definition channel_params : Params :=
  [("id", PStr "UC1"); ("part", PStr "snippet,statistics")].

(** An upstream service that always gives the same answer. *)
Definition always (o : AxiosOutcome) : Upstream := fun _ _ _ => o.

Definition items_reply : JSON :=
  JObj [("items", JArr [JObj [("id", JStr "UC1")]])].

(** An error body of the upstream service. *)
Definition error_body (code : Z) (message reason : string) : JSON :=
  JObj [("error",
         JObj [("code", JNum code); ("message", JStr message);
               ("errors", JArr [JObj [("reason", JStr reason)]])])].

(** The start of a process at time 1000, and the same with the points of
    the minute, and with those of the day, used up. *)
Definition start : World := YouTubeAPIClient.fresh 1000.


Definition daily_exhausted : World :=
  set_rateLimiter
    {| points := 10000; duration := 24 * 60 * 60;
       storage := {[ 1 := {| consumed := 10000; expiresAt := 50000000 |} ]} |}
    start.

(** A client half an hour before midnight, UTC, on 1 January 1970, with
    five calls counted since ten in the evening, in a process whose local
    time is [tza] ms ahead of UTC. *)
Definition late_evening (tza : Z) : World :=
  {| now := 84600000;
     localTZA := fun _ => tza;
     rateLimiter := RateLimiter.create 10000 (24 * 60 * 60);
     minuteRateLimiter := RateLimiter.create 100 60;
     apiCache := ∅;
     usage := {| totalRequests := 5; requestsToday := 5; lastReset := 79200000 |};
     requests := [] |}.

(** The system at its start: no row, no job. *)
Definition system : Sys :=
  {| env := {| world := start; store := Storage.empty |};
     job_queue := ∅; job_serial := 1; written := [];
     channelFetchQueue := 0; videoFetchQueue := 0 |}.

(** The first channel job, and the system once it is queued. *)
Definition job1 : Job :=
  {| id := 1; name := "fetchChannel";
     data := {| d_channelId := "UC1"; d_maxPages := None; d_apiKey := apiKey |};
     opts := JobQueue.job_opts 1; attemptsMade := 0 |}.

Definition queued : Sys :=
  snd (JobQueue.addChannelFetchJob "UC1" 1 apiKey system).

Definition not_found : AxiosOutcome :=
  Http 404 (error_body 404 "Not Found" "notFound").

Definition page_index (tok : option string) : nat :=
  match tok with
  | Some t => Z.to_nat (JsString.decimal t)
  | None => 0
  end.

(** A client over a channel whose listing has the given pages: the token
    of a page is its number, and the last page has none. *)
Definition paged (pages : list (list Video))
  : string -> Z -> option string -> M World Page :=
  fun _ _ tok w =>
    let i := page_index tok in
    match nth_error pages i with
    | Some vs =>
        (Ok {| videos := vs;
               nextPageToken :=
                 if (S i <? List.length pages)%nat
                 then Some (Js.of_Z (Z.of_nat (S i)))
                 else None |}, w)
    | None => (Throw (JsError "invalid page token"), w)
    end.

(** Five pages of two videos each. *)
Definition five_pages : list (list Video) :=
  [ [mk_video "a" true; mk_video "b" false];
    [mk_video "c" false; mk_video "d" true];
    [mk_video "e" false; mk_video "f" false];
    [mk_video "g" true; mk_video "h" false];
    [mk_video "i" false; mk_video "j" false] ].

End Scenario.

(** What one run of a processor writes to the row of its job: a run that
    returns, and a run that throws. *)
Definition completed_run (l : list JobWrite) : Prop :=
  l = [SetStatus started; SetProgress 50; SetProgress 100; SetStatus completed]
  \/ l = [SetStatus started; SetProgress 100; SetStatus completed].

Definition failed_run (l : list JobWrite) : Prop :=
  l = [SetStatus started; SetStatus failed]
  \/ l = [SetStatus started; SetProgress 50; SetStatus failed].

(** The runs of one job: all have failed but the last, which may have. *)
Fixpoint runs_of_job (returned : bool) (runs : list (list JobWrite)) : Prop :=
  match runs with
  | [] => False
  | [l] => if returned then completed_run l else failed_run l
  | l :: rest => failed_run l /\ runs_of_job returned rest
  end.

Definition returned {A} (r : Res A) : bool :=
  match r with
  | Ok _ => true
  | Throw _ => false
  end.


(** A list of progress values that never goes down. *)
Fixpoint nondecreasing (l : list Z) : Prop :=
  match l with
  | x :: (y :: _) as r => x <= y /\ nondecreasing r
  | _ => True
  end.

(** ** Duration tokens, as the specification describes them *)

Module Token.
Import JsString.

Fixpoint all_digits (s : string) : bool :=
  match s with
  | EmptyString => true
  | String c r => is_digit c && all_digits r
  end.

(** A component that is present is a number written in digits. *)
Definition number (o : option string) : Prop :=
  match o with
  | Some d => d <> EmptyString /\ all_digits d = true
  | None => True
  end.

Definition component (o : option string) (unit : string) : string :=
  match o with
  | Some d => d ++ unit
  | None => EmptyString
  end.

(** The compact token: [PT], then hours, minutes and seconds, each of
    which may be missing. *)
Definition token (h m s : option string) : string :=
  "PT" ++ component h "H" ++ component m "M" ++ component s "S".

Definition value (o : option string) : Z :=
  match o with
  | Some d => decimal d
  | None => 0
  end.

(** What may follow a token inside a longer text without being read as
    part of it: nothing, or a character that is not a digit. *)
Definition no_digit_ahead (post : string) : Prop :=
  match post with
  | EmptyString => True
  | String c _ => is_digit c = false
  end.

(** A well-formed input is a token and nothing else. *)
Definition well_formed (str : string) : Prop :=
  exists h m s, number h /\ number m /\ number s /\ str = token h m s.

End Token.

(** ** Expressions that may throw *)

(** The value of an expression, or what its evaluation threw;
    [let! x := r in k] goes on with the value. *)
Definition and_then {A B} (r : Res A) (k : A -> Res B) : Res B :=
  match r with
  | Ok a => k a
  | Throw e => Throw e
  end.

Notation "'let!' x ':=' r 'in' k" := (and_then r (fun x => k))
  (at level 10, x name, r at level 100, k at level 200) : js_scope.

(** An expression inside effectful code: it leaves the state alone. *)
Definition of_res {S A} (r : Res A) : M S A := fun s => (r, s).

(** [l.map(f)] and [l.filter(f)] with a callback that may throw: the
    elements are visited in order, and what the callback throws ends the
    call. *)
Fixpoint map_res {A B} (f : A -> Res B) (l : list A) : Res (list B) :=
  match l with
  | [] => Ok []
  | x :: r =>
      let! y := f x in
      let! ys := map_res f r in
      Ok (y :: ys)
  end.

Fixpoint filter_res {A} (f : A -> Res bool) (l : list A) : Res (list A) :=
  match l with
  | [] => Ok []
  | x :: r =>
      let! keep := f x in
      let! xs := filter_res f r in
      Ok (if keep then x :: xs else xs)
  end.

(** [l.some(f)]: it stops at the first element the callback accepts. *)
Fixpoint some_res {A} (f : A -> Res bool) (l : list A) : Res bool :=
  match l with
  | [] => Ok false
  | x :: r =>
      let! found := f x in
      if found then Ok true else some_res f r
  end.

(** [l.find(f)]: the first element the callback accepts; [None] is
    [undefined]. *)
Fixpoint find_res {A} (f : A -> Res bool) (l : list A) : Res (option A) :=
  match l with
  | [] => Ok None
  | x :: r =>
      let! found := f x in
      if found then Ok (Some x) else find_res f r
  end.

(** ** Reading a parsed reply *)

Module Dyn.

(** The [TypeError]s of the runtime (V8), with its messages. *)
Definition reading (what p : string) : Exn :=
  JsTypeError ("Cannot read properties of " ++ what ++ " (reading '" ++ p ++ "')").

Definition not_a_function (callee : string) : Exn :=
  JsTypeError (callee ++ " is not a function").

(** [v.p], for the names this code reads from a reply, none of which a
    prototype defines: a [TypeError] on [undefined] and on [null], the
    member on an object, [undefined] on a string, a number, a boolean or an
    array. *)
Definition prop (v : JsVal) (p : string) : Res JsVal :=
  match v with
  | None => Throw (reading "undefined" p)
  | Some JNull => Throw (reading "null" p)
  | Some (JObj fs) => Ok (Js.assoc_last p fs)
  | Some _ => Ok None
  end.

(** [a || b]. *)
Definition or_else (a b : JsVal) : JsVal := if Js.truthy a then a else b.

(** [v === 'text']. *)
Definition is_string (v : JsVal) (text : string) : bool :=
  match v with
  | Some (JStr s) => String.eqb s text
  | _ => false
  end.

(** [a === b] on two values read from two replies: primitives are
    compared by type and value; an object or an array is only ever equal to
    itself, and two replies share none. *)
Definition strict_equal (a b : JsVal) : bool :=
  match a, b with
  | None, None => true
  | Some JNull, Some JNull => true
  | Some (JBool x), Some (JBool y) => Bool.eqb x y
  | Some (JNum x), Some (JNum y) => x =? y
  | Some (JStr x), Some (JStr y) => String.eqb x y
  | _, _ => false
  end.

(** [v.length === 0], for a truthy [v]. *)
Definition length_is_0 (v : JsVal) : bool :=
  match v with
  | Some (JArr l) => match l with [] => true | _ :: _ => false end
  | Some (JStr s) => String.eqb s ""
  | Some (JObj fs) =>
      match Js.assoc_last "length" fs with
      | Some (JNum n) => n =? 0
      | _ => false
      end
  | _ => false
  end.

(** [v[0]], for a truthy [v]: the first element of an array, the member
    [0] of an object, the first character of a string (here its first
    byte; nothing reads it, as a string has none of the members the code
    goes on to read). *)
Definition first (v : JsVal) : JsVal :=
  match v with
  | Some (JArr l) => List.head l
  | Some (JObj fs) => Js.assoc_last "0" fs
  | Some (JStr (String c _)) => Some (JStr (String c EmptyString))
  | _ => None
  end.

(** [l.join(',')]: [undefined] and [null] are written as nothing. *)
Definition join (l : list JsVal) : string :=
  String.concat ","
    (List.map (fun v => match v with
                        | None | Some JNull => EmptyString
                        | Some j => Js.toString j
                        end) l).

(** White space, as [parseInt] skips it, in the bytes of a string: the
    ASCII blanks and line ends, and the UTF-8 forms of U+00A0, U+1680,
    U+2000 to U+200A, U+2028, U+2029, U+202F, U+205F, U+3000 and U+FEFF. *)
Fixpoint skip_white (s : string) : string :=
  match s with
  | EmptyString => EmptyString
  | String c1 r1 =>
      if JsString.is_space c1 then skip_white r1
      else
        match r1 with
        | EmptyString => s
        | String c2 r2 =>
            let a := JsString.code c1 in
            let b := JsString.code c2 in
            if (a =? 194) && (b =? 160) then skip_white r2
            else
              match r2 with
              | EmptyString => s
              | String c3 r3 =>
                  let c := JsString.code c3 in
                  if ((a =? 225) && (b =? 154) && (c =? 128))
                     || ((a =? 226) && (b =? 128)
                         && (((128 <=? c) && (c <=? 138))
                             || (c =? 168) || (c =? 169) || (c =? 175)))
                     || ((a =? 226) && (b =? 129) && (c =? 159))
                     || ((a =? 227) && (b =? 128) && (c =? 128))
                     || ((a =? 239) && (b =? 187) && (c =? 191))
                  then skip_white r3
                  else s
              end
        end
  end.

Definition hex_val (c : ascii) : option Z :=
  let n := JsString.code c in
  if (48 <=? n) && (n <=? 57) then Some (n - 48)
  else if (97 <=? n) && (n <=? 102) then Some (n - 87)
  else if (65 <=? n) && (n <=? 70) then Some (n - 55)
  else None.

(** The value of the longest run of hexadecimal digits at the head of
    [s]; [None] when there is none. *)
Fixpoint hex_acc (acc : option Z) (s : string) : option Z :=
  match s with
  | EmptyString => acc
  | String c r =>
      match hex_val c with
      | Some d => hex_acc (Some (16 * match acc with Some n => n | None => 0 end + d)) r
      | None => acc
      end
  end.

(** [parseInt(s)] with no radix: white space is skipped, a sign is read,
    then a number in base 16 after [0x] or [0X] and in base 10 otherwise,
    as far as its digits go; [None] is [NaN].  The value is the double
    nearest to the integer written. *)
Definition parseInt_string (s : string) : option Z :=
  let (sign, body) := JsString.read_sign (skip_white s) in
  match body with
  | String "0" (String x digits) =>
      if Ascii.eqb x "x" || Ascii.eqb x "X"
      then option_map (fun n => Double.int (sign * n)) (hex_acc None digits)
      else match JsString.span_digits body with
           | (EmptyString, _) => None
           | (d, _) => Some (Double.int (sign * JsString.decimal d))
           end
  | _ =>
      match JsString.span_digits body with
      | (EmptyString, _) => None
      | (d, _) => Some (Double.int (sign * JsString.decimal d))
      end
  end.

(** [parseInt(v)]: the value is turned into a string first. *)
Definition parseInt (v : JsVal) : option Z :=
  parseInt_string (Js.toString_val v).

End Dyn.

(** ** The client's methods over upstream records (youtubeApiClient.js,
    lines 136 to 242)

    A record keeps a field the code copies from the reply as the value it
    found there, whatever its type; a field the code computes has the type
    of what is computed. *)

Module ChannelInfo.

(** What [getChannelInfo] returns. *)
Record t : Type := {
  channelId : JsVal;
  title : JsVal;
  description : JsVal;
  customUrl : JsVal;
  thumbnailUrl : JsVal;
  bannerUrl : JsVal;
  subscriberCount : Z;
  videoCount : Z;
  viewCount : Z
}.

End ChannelInfo.

Module VideoDetails.

(** An element of what [getVideoDetails] returns.  [tags] is never
    [undefined]: a missing list is replaced by the empty one. *)
Record t : Type := {
  videoId : JsVal;
  channelId : JsVal;
  title : JsVal;
  description : JsVal;
  publishedAt : JsVal;
  durationSeconds : Z;
  viewCount : Z;
  likeCount : Z;
  commentCount : Z;
  thumbnailUrl : JsVal;
  isShort : bool;
  categoryId : JsVal;
  tags : JsVal
}.

(** [{ ...detailedVideo, publishedAt: x }]. *)
Definition with_publishedAt (x : JsVal) (d : t) : t :=
  {| videoId := videoId d; channelId := channelId d; title := title d;
     description := description d; publishedAt := x;
     durationSeconds := durationSeconds d; viewCount := viewCount d;
     likeCount := likeCount d; commentCount := commentCount d;
     thumbnailUrl := thumbnailUrl d; isShort := isShort d;
     categoryId := categoryId d; tags := tags d |}.

End VideoDetails.

Module Client.

(** What [getChannelVideos] returns; [nextPageToken] is a truthy value of
    the reply or [null]. *)
Record VideoPage : Type := {
  videos : list VideoDetails.t;
  nextPageToken : JsVal
}.

(** [x.thumbnails?.high?.url || x.thumbnails?.default?.url], from the
    value of [x.thumbnails]. *)
Definition thumbnail (thumbnails : JsVal) : JsVal :=
  Dyn.or_else (Js.opt_prop (Js.opt_prop thumbnails "high") "url")
              (Js.opt_prop (Js.opt_prop thumbnails "default") "url").

(** Lines 144 to 159 of [getChannelInfo]: the record made from the
    reply. *)
Definition channelInfo (id : string) (response : JSON) : Res ChannelInfo.t :=
  let! items := Dyn.prop (Some response) "items" in
  if negb (Js.truthy items) || Dyn.length_is_0 items
  then Throw (JsError ("Channel not found: " ++ id))
  else
    let channel := Dyn.first items in
    let! channelId := Dyn.prop channel "id" in
    let! snippet := Dyn.prop channel "snippet" in
    let! title := Dyn.prop snippet "title" in
    let! description := Dyn.prop snippet "description" in
    let! customUrl := Dyn.prop snippet "customUrl" in
    let! thumbnails := Dyn.prop snippet "thumbnails" in
    let! brandingSettings := Dyn.prop snippet "brandingSettings" in
    let! statistics := Dyn.prop channel "statistics" in
    let! subscriberCount := Dyn.prop statistics "subscriberCount" in
    let! videoCount := Dyn.prop statistics "videoCount" in
    let! viewCount := Dyn.prop statistics "viewCount" in
    Ok {| ChannelInfo.channelId := channelId;
          ChannelInfo.title := title;
          ChannelInfo.description := description;
          ChannelInfo.customUrl := customUrl;
          ChannelInfo.thumbnailUrl := thumbnail thumbnails;
          ChannelInfo.bannerUrl :=
            Js.opt_prop (Js.opt_prop brandingSettings "image") "bannerImageUrl";
          ChannelInfo.subscriberCount := or_zero (Dyn.parseInt subscriberCount);
          ChannelInfo.videoCount := or_zero (Dyn.parseInt videoCount);
          ChannelInfo.viewCount := or_zero (Dyn.parseInt viewCount) |}.

(** [this.parseDuration(d)] on a value of the reply: [d.match] is there
    for a string only. *)
Definition parseDuration (duration : JsVal) : Res Z :=
  match duration with
  | Some (JStr s) => Ok (Decoders.parseDuration s)
  | None => Throw (Dyn.reading "undefined" "match")
  | Some JNull => Throw (Dyn.reading "null" "match")
  | Some _ => Throw (Dyn.not_a_function "duration.match")
  end.

(** The callback of [tags.some], lines 267 to 270. *)
Definition tag_test (tag : JSON) : Res bool :=
  match tag with
  | JStr s =>
      Ok (JsString.includes (JsString.toLowerCase s) "short"
          || JsString.includes (JsString.toLowerCase s) "shorts")
  | JNull => Throw (Dyn.reading "null" "toLowerCase")
  | _ => Throw (Dyn.not_a_function "tag.toLowerCase")
  end.

(** [this.isShort(categoryId, duration, tags)], lines 260 to 282, on
    values of the reply. *)
Definition isShort (categoryId : JsVal) (duration : Z) (tags : JsVal)
  : Res bool :=
  if duration <=? 60 then Ok true
  else
    let! tagged :=
      (if Js.truthy tags
       then match tags with
            | Some (JArr l) => some_res tag_test l
            | _ => Throw (Dyn.not_a_function "tags.some")
            end
       else Ok false) in
    if tagged then Ok true
    else if Dyn.is_string categoryId "23" then Ok true
    else Ok (duration <=? 61).

(** The callback of [response.items.map], lines 219 to 241. *)
Definition videoDetails (video : JSON) : Res VideoDetails.t :=
  let! contentDetails := Dyn.prop (Some video) "contentDetails" in
  let! iso := Dyn.prop contentDetails "duration" in
  let! duration := parseDuration iso in
  let! snippet := Dyn.prop (Some video) "snippet" in
  let! categoryId := Dyn.prop snippet "categoryId" in
  let! tags := Dyn.prop snippet "tags" in
  let! short := isShort categoryId duration tags in
  let! videoId := Dyn.prop (Some video) "id" in
  let! channelId := Dyn.prop snippet "channelId" in
  let! title := Dyn.prop snippet "title" in
  let! description := Dyn.prop snippet "description" in
  let! publishedAt := Dyn.prop snippet "publishedAt" in
  let! statistics := Dyn.prop (Some video) "statistics" in
  let! viewCount := Dyn.prop statistics "viewCount" in
  let! likeCount := Dyn.prop statistics "likeCount" in
  let! commentCount := Dyn.prop statistics "commentCount" in
  let! thumbnails := Dyn.prop snippet "thumbnails" in
  Ok {| VideoDetails.videoId := videoId;
        VideoDetails.channelId := channelId;
        VideoDetails.title := title;
        VideoDetails.description := description;
        VideoDetails.publishedAt := publishedAt;
        VideoDetails.durationSeconds := duration;
        VideoDetails.viewCount := or_zero (Dyn.parseInt viewCount);
        VideoDetails.likeCount := or_zero (Dyn.parseInt likeCount);
        VideoDetails.commentCount := or_zero (Dyn.parseInt commentCount);
        VideoDetails.thumbnailUrl := thumbnail thumbnails;
        VideoDetails.isShort := short;
        VideoDetails.categoryId := categoryId;
        VideoDetails.tags := Dyn.or_else tags (Some (JArr [])) |}.

(** Lines 215 to 241 of [getVideoDetails]: the records made from the
    reply. *)
Definition videoDetailsList (response : JSON) : Res (list VideoDetails.t) :=
  let! items := Dyn.prop (Some response) "items" in
  if negb (Js.truthy items) then Ok []
  else match items with
       | Some (JArr l) => map_res videoDetails l
       | _ => Throw (Dyn.not_a_function "response.items.map")
       end.

(** The callback of [response.items.filter], lines 179 and 193. *)
Definition is_video (item : JSON) : Res bool :=
  let! id := Dyn.prop (Some item) "id" in
  let! kind := Dyn.prop id "kind" in
  Ok (Dyn.is_string kind "youtube#video").

(** [item.id.videoId]. *)
Definition videoId_of (item : JSON) : Res JsVal :=
  let! id := Dyn.prop (Some item) "id" in
  Dyn.prop id "videoId".

(** [response.items.filter(item => item.id.kind === 'youtube#video')],
    for truthy [items]. *)
Definition video_items (items : JsVal) : Res (list JSON) :=
  match items with
  | Some (JArr l) => filter_res is_video l
  | _ => Throw (Dyn.not_a_function "response.items.filter")
  end.

(** Lines 178 to 181: the ids of the videos of a search reply, joined by
    commas. *)
Definition videoIds (items : JsVal) : Res string :=
  let! selected := video_items items in
  let! ids := map_res videoId_of selected in
  Ok (Dyn.join ids).

(** The callback of the second [map], lines 194 to 197: the details of
    the video of a search entry, with the entry's date; [None] is
    [null]. *)
Definition detailed (videoDetails : list VideoDetails.t) (item : JSON)
  : Res (option VideoDetails.t) :=
  let! detailedVideo :=
    find_res (fun v => let! videoId := videoId_of item in
                       Ok (Dyn.strict_equal (VideoDetails.videoId v) videoId))
      videoDetails in
  match detailedVideo with
  | Some d =>
      let! snippet := Dyn.prop (Some item) "snippet" in
      let! publishedAt := Dyn.prop snippet "publishedAt" in
      Ok (Some (VideoDetails.with_publishedAt publishedAt d))
  | None => Ok None
  end.

(** [l.filter(Boolean)] on records and [null]s. *)
Definition compact {A} (l : list (option A)) : list A :=
  List.flat_map (fun x => match x with Some a => [a] | None => [] end) l.

(** Lines 192 to 198: the search entries that are videos, each with its
    details. *)
Definition combine (items : JsVal) (videoDetails : list VideoDetails.t)
  : Res (list VideoDetails.t) :=
  let! selected := video_items items in
  let! found := map_res (detailed videoDetails) selected in
  Ok (compact found).

(** The id of the video of a search entry, [item.id?.videoId], and its
    date, [item.snippet?.publishedAt]. *)
Definition entry_videoId (item : JSON) : JsVal :=
  Js.opt_prop (Js.opt_prop (Some item) "id") "videoId".

Definition entry_publishedAt (item : JSON) : JsVal :=
  Js.opt_prop (Js.opt_prop (Some item) "snippet") "publishedAt".

(** A search entry is a video: [item.id?.kind] is [youtube#video]. *)
Definition entry_is_video (item : JSON) : bool :=
  Dyn.is_string (Js.opt_prop (Js.opt_prop (Some item) "id") "kind")
    "youtube#video".

(** Search entries and the records made of them, entry by entry: an entry
    none of the details has the id of gives no record; any other gives the
    first of the details with its id, with the date of the entry in place
    of the record's own. *)
Inductive joined (details : list VideoDetails.t)
  : list JSON -> list VideoDetails.t -> Prop :=
| joined_nil : joined details [] []
| joined_found item rest found d :
    List.find (fun v => Dyn.strict_equal (VideoDetails.videoId v)
                          (entry_videoId item)) details = Some d ->
    joined details rest found ->
    joined details (item :: rest)
      (VideoDetails.with_publishedAt (entry_publishedAt item) d :: found)
| joined_missing item rest found :
    List.find (fun v => Dyn.strict_equal (VideoDetails.videoId v)
                          (entry_videoId item)) details = None ->
    joined details rest found ->
    joined details (item :: rest) found.

(** Some tag of the record is a string that contains [short], whatever
    the case. *)
Definition names_short (tags : JsVal) : Prop :=
  exists l s,
    tags = Some (JArr l) /\ List.In (JStr s) l
    /\ JsString.includes (JsString.toLowerCase s) "short" = true.

(** [response.nextPageToken || null]. *)
Definition next_token (response : JSON) : Res JsVal :=
  let! token := Dyn.prop (Some response) "nextPageToken" in
  Ok (Dyn.or_else token (Some JNull)).

Section Methods.

Variable apiKey : string.
Variable net : Upstream.

(** [getChannelInfo(id, type)], lines 136 to 160.  The key [type] is
    computed: when it is [part], the second member replaces the first. *)
Definition getChannelInfo (id type : string) : M World ChannelInfo.t :=
  let params := set_param "part" (PStr "snippet,statistics") [(type, PStr id)] in
  response <- YouTubeAPIClient.makeRequest apiKey net "/channels" params 1 ;;
  of_res (channelInfo id response).

(** [getVideoDetails(videoIds)], lines 207 to 242. *)
Definition getVideoDetails (videoIds : string)
  : M World (list VideoDetails.t) :=
  let params := [("id", PStr videoIds);
                 ("part", PStr "snippet,contentDetails,statistics")] in
  response <- YouTubeAPIClient.makeRequest apiKey net "/videos" params 1 ;;
  of_res (videoDetailsList response).

(** [pageToken || undefined], for a token that is a string or [null]. *)
Definition token_param (pageToken : option string) : ParamVal :=
  match pageToken with
  | Some tok => if String.eqb tok "" then PUndefined else PStr tok
  | None => PUndefined
  end.

(** [getChannelVideos(channelId, maxResults, pageToken)], lines 163 to
    204. *)
Definition getChannelVideos (channelId : string) (maxResults : Z)
    (pageToken : option string) : M World VideoPage :=
  let params := [("channelId", PStr channelId);
                 ("part", PStr "snippet,contentDetails,statistics");
                 ("order", PStr "date");
                 ("maxResults", PNum maxResults);
                 ("pageToken", token_param pageToken)] in
  response <- YouTubeAPIClient.makeRequest apiKey net "/search" params 1 ;;
  items <- of_res (Dyn.prop (Some response) "items") ;;
  if negb (Js.truthy items)
  then ret {| videos := []; nextPageToken := Some JNull |}
  else
    ids <- of_res (videoIds items) ;;
    if String.eqb ids ""
    then
      token <- of_res (next_token response) ;;
      ret {| videos := []; nextPageToken := token |}
    else
      details <- getVideoDetails ids ;;
      found <- of_res (combine items details) ;;
      token <- of_res (next_token response) ;;
      ret {| videos := found; nextPageToken := token |}.

End Methods.

End Client.

(** ** The client behind the interface of the services *)

Module Typed.

(** The services are written against [ClientOps], whose records have
    their fields at the types the YouTube Data API gives them: a text, a
    text that may be missing, a list of texts.  A field that has its type
    in the record of the client is carried over as it is; a field of
    another type is carried over as the empty text, as a missing text, or
    is left out of the list. *)
Definition text (v : JsVal) : string :=
  match v with
  | Some (JStr s) => s
  | _ => EmptyString
  end.

Definition opt_text (v : JsVal) : option string :=
  match v with
  | Some (JStr s) => Some s
  | _ => None
  end.

Definition texts (v : JsVal) : list string :=
  match v with
  | Some (JArr l) =>
      List.flat_map (fun j => match j with JStr s => [s] | _ => [] end) l
  | _ => []
  end.

Definition channel (c : ChannelInfo.t) : ChannelData :=
  {| c_channelId := text (ChannelInfo.channelId c);
     c_title := text (ChannelInfo.title c);
     c_description := text (ChannelInfo.description c);
     c_customUrl := opt_text (ChannelInfo.customUrl c);
     c_thumbnailUrl := opt_text (ChannelInfo.thumbnailUrl c);
     c_bannerUrl := opt_text (ChannelInfo.bannerUrl c);
     subscriberCount := ChannelInfo.subscriberCount c;
     videoCount := ChannelInfo.videoCount c;
     c_viewCount := ChannelInfo.viewCount c |}.

Definition video (v : VideoDetails.t) : Video :=
  {| videoId := text (VideoDetails.videoId v);
     channelId := text (VideoDetails.channelId v);
     title := text (VideoDetails.title v);
     description := text (VideoDetails.description v);
     publishedAt := text (VideoDetails.publishedAt v);
     durationSeconds := VideoDetails.durationSeconds v;
     viewCount := VideoDetails.viewCount v;
     likeCount := VideoDetails.likeCount v;
     commentCount := VideoDetails.commentCount v;
     thumbnailUrl := opt_text (VideoDetails.thumbnailUrl v);
     isShort := VideoDetails.isShort v;
     categoryId := opt_text (VideoDetails.categoryId v);
     tags := texts (VideoDetails.tags v) |}.

Definition page (p : Client.VideoPage) : Page :=
  {| videos := List.map video (Client.videos p);
     nextPageToken := opt_text (Client.nextPageToken p) |}.

(** [new YouTubeAPIClient(apiKey)] over the upstream service [net]: the
    methods are those of the class, [Client.getChannelInfo] and
    [Client.getChannelVideos], with their requests, their quota, their
    cache and their errors. *)
Definition ops (net : Upstream) (apiKey : string) : ClientOps :=
  {| getChannelInfo := fun id type =>
       (info <- Client.getChannelInfo apiKey net id type ;;
        ret (channel info))%js;
     getChannelVideos := fun channelId maxResults pageToken =>
       (found <- Client.getChannelVideos apiKey net channelId maxResults
                   pageToken ;;
        ret (page found))%js |}.

End Typed.

(** ** The helpers of utils/analytics.js *)

Module AnalyticsHelpers.

(** A video as the helpers read it: a row of [videos], where a column may
    be [NULL], or a record of the client, which has [tags] and
    [categoryId] and none of the columns.  [None] is [undefined] or
    [null]; a list of tags is a list of strings. *)
Record video : Type := {
  is_short : option bool;
  duration_seconds : option Z;
  tags : option (list string);
  category_id : option string;
  categoryId : option string
}.

(** [isShort(video)], lines 16 to 47. *)
Definition isShort (v : video) : bool :=
  match is_short v with
  | Some flag => flag
  | None =>
      if match duration_seconds v with
         | Some d => negb (d =? 0) && (d <=? 60)
         | None => false
         end
      then true
      else if match tags v with
              | Some ts =>
                  existsb (fun tag =>
                             JsString.includes (JsString.toLowerCase tag) "short"
                             || JsString.includes (JsString.toLowerCase tag) "shorts")
                    ts
              | None => false
              end
      then true
      else if Decoders.strict_eq (category_id v) "23"
              || Decoders.strict_eq (categoryId v) "23"
      then true
      else false
  end.

(** [categorizeVideoByLength(video)], lines 59 to 66. *)
Definition categorizeVideoByLength (v : video) : string :=
  match duration_seconds v with
  | None => "unknown"
  | Some d =>
      if d =? 0 then "unknown"
      else if d <=? 60 then "short"
      else if d <=? 300 then "medium"
      else if d <=? 600 then "long"
      else "extended"
  end.

End AnalyticsHelpers.

(** ** Reading the tables (database/storage.js) *)

Module StorageReads.

(** [getChannelById(channelId)], lines 373 to 383; [None] is [null]. *)
Definition getChannelById (channelId : string) : M Store (option ChannelRow) :=
  try_catch (gets (fun s => channels s !! channelId))
    (fun error => throw error).

End StorageReads.

(** ** Reading back what [JSON.stringify] wrote *)

Module Unescape.

(** The character whose written form is at the head of [s], and what
    follows it: an escape that [JSON.stringify] writes stands for its
    character, any other character but the quotation mark for itself.
    [None] at the quotation mark, which ends the string, and where no
    character can be read. *)
Definition char (s : string) : option (ascii * string) :=
  match s with
  | EmptyString => None
  | String c r =>
      if JsString.code c =? 92
      then match r with
           | EmptyString => None
           | String d r1 =>
               let n := JsString.code d in
               if (n =? 34) || (n =? 92) then Some (d, r1)
               else if n =? 98 then Some ("008"%char, r1)
               else if n =? 116 then Some ("009"%char, r1)
               else if n =? 110 then Some ("010"%char, r1)
               else if n =? 102 then Some ("012"%char, r1)
               else if n =? 114 then Some ("013"%char, r1)
               else if n =? 117
               then match r1 with
                    | String "0" (String "0" (String h1 (String h2 r2))) =>
                        match Dyn.hex_val h1, Dyn.hex_val h2 with
                        | Some a, Some b =>
                            Some (ascii_of_N (Z.to_N (16 * a + b)), r2)
                        | _, _ => None
                        end
                    | _ => None
                    end
               else None
           end
      else if JsString.code c =? 34 then None
      else Some (c, r)
  end.

End Unescape.

(** ** Replies for the examples *)

Module Replies.

(** A search reply with two videos and a channel between them, and a
    token for the next page. *)
Definition search_reply : JSON :=
  JObj [("nextPageToken", JStr "T2");
        ("items",
         JArr [JObj [("id", JObj [("kind", JStr "youtube#video");
                                  ("videoId", JStr "v1")]);
                     ("snippet", JObj [("publishedAt", JStr "2024-05-01")])];
               JObj [("id", JObj [("kind", JStr "youtube#channel");
                                  ("channelId", JStr "UC1")])];
               JObj [("id", JObj [("kind", JStr "youtube#video");
                                  ("videoId", JStr "v2")]);
                     ("snippet", JObj [("publishedAt", JStr "2024-04-01")])]])].

Definition video_entry (vid iso : string) : JSON :=
  JObj [("id", JStr vid);
        ("snippet", JObj [("channelId", JStr "UC1"); ("title", JStr vid);
                          ("categoryId", JStr "10")]);
        ("contentDetails", JObj [("duration", JStr iso)]);
        ("statistics", JObj [("viewCount", JStr "1200")])].

(** The details of the two videos, the second first. *)
Definition videos_reply : JSON :=
  JObj [("items", JArr [video_entry "v2" "PT10M"; video_entry "v1" "PT45S"])].

Definition channel_reply : JSON :=
  JObj [("items",
         JArr [JObj [("id", JStr "UC1");
                     ("snippet", JObj [("title", JStr "A channel")]);
                     ("statistics", JObj [("subscriberCount", JStr "1500")])]])].

(** The records of these details. *)
Definition details : list VideoDetails.t :=
  match Client.videoDetailsList videos_reply with
  | Ok l => l
  | Throw _ => []
  end.

(** An upstream service that answers each endpoint with its reply. *)
Definition net : Upstream :=
  fun _ endpoint _ =>
    if String.eqb endpoint "/search" then Http 200 search_reply
    else if String.eqb endpoint "/videos" then Http 200 videos_reply
    else Http 200 channel_reply.

(** An upstream service that knows no channel. *)
Definition no_channel : Upstream :=
  fun _ _ _ => Http 200 (JObj [("items", JArr [])]).

End Replies.

(** ** A channel job over the upstream service *)

Module Runs.

(** The reply for a channel, with the fields the code reads. *)
Definition channel_reply : JSON :=
  JObj [("items",
         JArr [JObj [("id", JStr "UC1");
                     ("snippet",
                      JObj [("title", JStr "A channel");
                            ("description", JStr "About the channel");
                            ("customUrl", JStr "@achannel");
                            ("thumbnails",
                             JObj [("high",
                                    JObj [("url", JStr "https://i/c.jpg")])])]);
                     ("statistics",
                      JObj [("subscriberCount", JStr "1500");
                            ("videoCount", JStr "2");
                            ("viewCount", JStr "2400")])]])].

Definition video_entry (vid iso : string) : JSON :=
  JObj [("id", JStr vid);
        ("snippet",
         JObj [("channelId", JStr "UC1"); ("title", JStr vid);
               ("description", JStr "About the video");
               ("publishedAt", JStr "2024-05-01T00:00:00Z");
               ("thumbnails",
                JObj [("high", JObj [("url", JStr "https://i/v.jpg")])]);
               ("categoryId", JStr "10");
               ("tags", JArr [JStr "music"])]);
        ("contentDetails", JObj [("duration", JStr iso)]);
        ("statistics",
         JObj [("viewCount", JStr "1200"); ("likeCount", JStr "30");
               ("commentCount", JStr "4")])].

Definition videos_reply : JSON :=
  JObj [("items", JArr [video_entry "v2" "PT10M"; video_entry "v1" "PT45S"])].

(** An upstream service that answers each endpoint with its reply. *)
Definition answers : Upstream :=
  fun _ endpoint _ =>
    if String.eqb endpoint "/search" then Http 200 Replies.search_reply
    else if String.eqb endpoint "/videos" then Http 200 videos_reply
    else Http 200 channel_reply.

(** An upstream service that fails once with a 500 and answers from
    then on. *)
Definition flaky : Upstream :=
  fun n endpoint params =>
    match n with
    | O => Http 500 JNull
    | S _ => answers n endpoint params
    end.

(** A channel job from the call that queues it to its last run, with
    the client of the code. *)
Definition channel_job (net : Upstream) : M Sys JobReturn :=
  (job <- JobQueue.addChannelFetchJob "UC1" 1 Scenario.apiKey ;;
   Bull.work (JobQueue.process_fetchChannel (Typed.ops net)) job)%js.

End Runs.

(** ** What a job may change in the table of jobs *)

(** From [s] to [s'] no row of [job_queue] was inserted, and no row
    changed but the one with the key [jobId]; when there is no such row,
    nothing was written at all. *)
Definition touches_only (jobId : Z) (s s' : Sys) : Prop :=
  job_serial s' = job_serial s
  /\ (forall i, i <> jobId -> job_queue s' !! i = job_queue s !! i)
  /\ (job_queue s !! jobId = None ->
      job_queue s' = job_queue s /\ written s' = written s).

(** Code that touches no row but that of the job [i], from any state. *)
Definition row_frame {A} (i : Z) (m : M Sys A) : Prop :=
  forall s, touches_only i s (snd (m s)).

(** * Properties *)

(** ** Doubles *)

Section DoubleFacts.
Import Double.
Local Open Scope Q_scope.

Lemma pow2_pos e : 0 < pow2 e.
Proof. apply Qpower_0_lt. reflexivity. Qed.

Lemma pow2_add a b : pow2 (a + b) == pow2 a * pow2 b.
Proof. apply Qpower_plus. discriminate. Qed.

Lemma pow2_succ e : pow2 (e + 1) == 2 * pow2 e.
Proof. rewrite pow2_add. change (pow2 1) with 2. ring. Qed.

Lemma pow2_Z e : (0 <= e)%Z -> pow2 e == inject_Z (2 ^ e).
Proof. intros H. unfold pow2. now rewrite Zpower_Qpower. Qed.

Lemma pow2_le a b : (a <= b)%Z -> pow2 a <= pow2 b.
Proof. intros H. apply Qpower_le_compat_l; [exact H | discriminate]. Qed.

Lemma pow2_lt a b : (a < b)%Z -> pow2 a < pow2 b.
Proof. intros H. apply Qpower_lt_compat_l; [exact H | reflexivity]. Qed.

Lemma pow2_lt_inv a b : pow2 a < pow2 b -> (a < b)%Z.
Proof.
  intros H. destruct (Z.lt_ge_cases a b) as [L|L]; [exact L|].
  apply pow2_le in L. lra.
Qed.

Lemma nearest_even_spec x : Qabs (inject_Z (nearest_even x) - x) <= 1 # 2.
Proof.
  unfold nearest_even.
  pose proof (Qfloor_le x) as Hle. pose proof (Qlt_floor x) as Hlt.
  rewrite inject_Z_plus in Hlt. change (inject_Z 1) with 1 in Hlt.
  apply Qabs_Qle_condition.
  destruct (Qcompare (x - inject_Z (Qfloor x)) (1 # 2)) eqn:C.
  - apply Qeq_alt in C. destruct (Z.even (Qfloor x));
      rewrite ?inject_Z_plus; change (inject_Z 1) with 1; split; lra.
  - apply Qlt_alt in C. split; lra.
  - apply Qgt_alt in C. rewrite inject_Z_plus. change (inject_Z 1) with 1.
    split; lra.
Qed.

Lemma nearest_even_Z z : nearest_even (inject_Z z) = z.
Proof.
  unfold nearest_even. rewrite Qfloor_Z.
  assert (E : inject_Z z - inject_Z z == 0) by ring.
  rewrite (Qcompare_comp _ _ E _ _ (Qeq_refl _)). reflexivity.
Qed.

Lemma nearest_even_comp x y : x == y -> nearest_even x = nearest_even y.
Proof.
  intros E. unfold nearest_even. rewrite (Qfloor_comp _ _ E).
  assert (E' : x - inject_Z (Qfloor y) == y - inject_Z (Qfloor y))
    by (rewrite E; reflexivity).
  now rewrite (Qcompare_comp _ _ E' _ _ (Qeq_refl _)).
Qed.

Lemma exponent_spec x :
  0 < x -> pow2 (exponent x) <= x /\ x < pow2 (exponent x + 1).
Proof.
  destruct x as [n d]. intros Hx.
  assert (Hn : (0 < n)%Z) by (unfold Qlt in Hx; simpl in Hx; lia).
  unfold exponent. cbn [Qnum Qden].
  set (a := Z.log2 n). set (b := Z.log2 (Zpos d)).
  destruct (Z.log2_spec n Hn) as [Ha1 Ha2]. fold a in Ha1, Ha2.
  destruct (Z.log2_spec (Zpos d) eq_refl) as [Hb1 Hb2]. fold b in Hb1, Hb2.
  pose proof (Z.log2_nonneg n) as Ha0. fold a in Ha0.
  pose proof (Z.log2_nonneg (Zpos d)) as Hb0. fold b in Hb0.
  set (x := n # d) in *.
  set (N := inject_Z n). set (D := inject_Z (Zpos d)).
  set (PA := pow2 a). set (PB := pow2 b). set (P := pow2 (a - b)).
  assert (EN : x * D == N).
  { unfold x, D, N. rewrite (Qmake_Qdiv n d). field. discriminate. }
  assert (HPA : PA <= N /\ N < 2 * PA).
  { unfold PA, N. rewrite (pow2_Z a Ha0). split.
    - rewrite <- Zle_Qle. exact Ha1.
    - replace (Z.succ a) with (a + 1)%Z in Ha2 by lia.
      rewrite Z.pow_add_r in Ha2 by lia.
      change 2 with (inject_Z 2). rewrite <- inject_Z_mult, <- Zlt_Qlt. lia. }
  assert (HPB : PB <= D /\ D < 2 * PB).
  { unfold PB, D. rewrite (pow2_Z b Hb0). split.
    - rewrite <- Zle_Qle. exact Hb1.
    - replace (Z.succ b) with (b + 1)%Z in Hb2 by lia.
      rewrite Z.pow_add_r in Hb2 by lia.
      change 2 with (inject_Z 2). rewrite <- inject_Z_mult, <- Zlt_Qlt. lia. }
  assert (EP : P * PB == PA).
  { unfold P, PB, PA. rewrite <- pow2_add. now replace (a - b + b)%Z with a by lia. }
  pose proof (pow2_pos (a - b)) as HP. fold P in HP.
  pose proof (pow2_pos b) as HPB0. fold PB in HPB0.
  assert (Hup : x < 2 * P).
  { destruct (Qlt_le_dec x (2 * P)) as [L|L]; [exact L|]. exfalso. nra. }
  assert (Hlo : P <= 2 * x).
  { destruct (Qlt_le_dec (2 * x) P) as [L|L]; [|exact L]. exfalso. nra. }
  destruct (Qle_bool P x) eqn:T.
  - apply Qle_bool_iff in T. split; [exact T|].
    fold P. rewrite pow2_succ. fold P. exact Hup.
  - assert (T' : x < P).
    { destruct (Qlt_le_dec x P) as [L|L]; [exact L|].
      apply Qle_bool_iff in L. congruence. }
    replace (a - b - 1 + 1)%Z with (a - b)%Z by lia. fold P.
    split; [|exact T'].
    assert (E2 : 2 * pow2 (a - b - 1) == P).
    { unfold P. rewrite <- pow2_succ. now replace (a - b - 1 + 1)%Z with (a - b)%Z by lia. }
    lra.
Qed.

Lemma exponent_unique x e :
  pow2 e <= x -> x < pow2 (e + 1) -> exponent x = e.
Proof.
  intros Hlo Hhi.
  assert (Hx : 0 < x) by (pose proof (pow2_pos e); lra).
  destruct (exponent_spec x Hx) as [Slo Shi].
  assert (L1 : (exponent x < e + 1)%Z) by (apply pow2_lt_inv; lra).
  assert (L2 : (e < exponent x + 1)%Z) by (apply pow2_lt_inv; lra).
  lia.
Qed.

Lemma pow2_m53 : pow2 (-53) == ulp53.
Proof. reflexivity. Qed.

(** The error of one rounding. *)
Lemma round_pos_err x :
  0 < x -> Qabs (round_pos x - x) <= x * ulp53.
Proof.
  intros Hx. unfold round_pos.
  destruct (exponent_spec x Hx) as [Hlo _].
  set (E := exponent x) in *. set (e := (E - 52)%Z).
  pose proof (pow2_pos e) as He.
  pose proof (nearest_even_spec (x / pow2 e)) as Hn.
  set (M := inject_Z (nearest_even (x / pow2 e))) in *.
  apply Qabs_Qle_condition in Hn.
  assert (Ex : x == (x / pow2 e) * pow2 e) by (field; lra).
  set (m := x / pow2 e) in *.
  assert (Epe : pow2 e == pow2 E * (2 * ulp53)).
  { unfold e. replace (E - 52)%Z with (E + -52)%Z by lia.
    rewrite pow2_add. apply Qmult_comp; reflexivity. }
  set (pe := pow2 e) in *. set (PE := pow2 E) in *.
  pose proof (pow2_pos E) as HPE. fold PE in HPE.
  unfold ulp53 in *.
  apply Qabs_Qle_condition. split; nra.
Qed.

Lemma round_pos_nonneg x : 0 < x -> 0 <= round_pos x.
Proof.
  intros Hx. pose proof (round_pos_err x Hx) as H.
  apply Qabs_Qle_condition in H. unfold ulp53 in H. lra.
Qed.

Lemma round_gt x : 0 < x -> round x = round_pos x.
Proof. intros H. unfold round. apply Qgt_alt in H. now rewrite H. Qed.



(** A double holds every integer below [2^53]. *)
Lemma round_Z z : (0 <= z < 2 ^ 53)%Z -> round (inject_Z z) == inject_Z z.
Proof.
  intros [H0 H1]. destruct (Z.eq_dec z 0%Z) as [->|Hne]; [reflexivity|].
  assert (Hz : 0 < inject_Z z).
  { change 0 with (inject_Z 0). rewrite <- Zlt_Qlt. lia. }
  rewrite (round_gt _ Hz). unfold round_pos.
  destruct (exponent_spec _ Hz) as [Hlo Hhi].
  set (E := exponent (inject_Z z)) in *.
  assert (HE : (E < 53)%Z).
  { apply pow2_lt_inv. rewrite (pow2_Z 53) by lia.
    assert (inject_Z z < inject_Z (2 ^ 53)) by (rewrite <- Zlt_Qlt; exact H1).
    lra. }
  set (k := (52 - E)%Z). assert (Hk : (0 <= k)%Z) by lia.
  assert (Einv : / pow2 (E - 52) == pow2 k).
  { unfold pow2, k. replace (52 - E)%Z with (- (E - 52))%Z by lia.
    symmetry. apply Qpower_opp. }
  pose proof (pow2_pos (E - 52)) as Hp.
  assert (Em : inject_Z z / pow2 (E - 52) == inject_Z (z * 2 ^ k)).
  { rewrite inject_Z_mult, <- (pow2_Z k Hk). unfold Qdiv. now rewrite Einv. }
  rewrite (nearest_even_comp _ _ Em), nearest_even_Z.
  rewrite inject_Z_mult, <- (pow2_Z k Hk), <- Einv. field. lra.
Qed.




End DoubleFacts.

Section IntegerFacts.
Import Double.

(** A double holds every integer below [2^53] as it is. *)
Lemma int_exact n : 0 <= n < 2 ^ 53 -> int n = n.
Proof.
  intros H. unfold int. rewrite (Qfloor_comp _ _ (round_Z n H)).
  apply Qfloor_Z.
Qed.

Lemma int_nonneg n : 0 <= n -> 0 <= int n.
Proof.
  intros H. unfold int. destruct (Z.eq_dec n 0) as [->|Hne]; [reflexivity|].
  assert (Hn : (0 < inject_Z n)%Q).
  { change 0%Q with (inject_Z 0). rewrite <- Zlt_Qlt. lia. }
  rewrite (round_gt _ Hn).
  change 0 with (Qfloor 0). apply Qfloor_resp_le.
  now apply round_pos_nonneg.
Qed.

End IntegerFacts.

(** ** The decoders *)

Section DecoderFacts.
Import JsString Decoders Token.

Lemma is_digit_code c : is_digit c = true <-> 48 <= code c <= 57.
Proof. unfold is_digit. rewrite andb_true_iff, !Z.leb_le. tauto. Qed.

Lemma span_digits_all d :
  all_digits d = true -> span_digits d = (d, EmptyString).
Proof.
  induction d as [|c d IH]; simpl; [reflexivity|].
  rewrite andb_true_iff. intros [Hc Hd]. rewrite Hc, (IH Hd). reflexivity.
Qed.

Lemma span_digits_app d c r :
  all_digits d = true -> is_digit c = false ->
  span_digits (d ++ String c r) = (d, String c r).
Proof.
  intros Hd Hc. induction d as [|a d IH]; simpl.
  - rewrite Hc. reflexivity.
  - simpl in Hd. apply andb_true_iff in Hd as [Ha Hd].
    rewrite Ha, (IH Hd). reflexivity.
Qed.

(** A group takes its component when it is there. *)
Lemma opt_group_present u d r :
  is_digit u = false -> d <> EmptyString -> all_digits d = true ->
  opt_group u (d ++ String u r) = (Some d, r).
Proof.
  intros Hu Hne Hd. unfold opt_group. rewrite (span_digits_app _ _ _ Hd Hu).
  destruct d; [congruence|]. rewrite Ascii.eqb_refl. reflexivity.
Qed.

(** A group steps over a component of another unit. *)
Lemma opt_group_other u d c r :
  is_digit c = false -> all_digits d = true -> c <> u ->
  opt_group u (d ++ String c r) = (None, d ++ String c r).
Proof.
  intros Hc Hd Hne. unfold opt_group. rewrite (span_digits_app _ _ _ Hd Hc).
  destruct d; [reflexivity|].
  destruct (Ascii.eqb_spec c u); [contradiction|reflexivity].
Qed.

Lemma opt_group_end u : opt_group u EmptyString = (None, EmptyString).
Proof. reflexivity. Qed.

Lemma parseInt_digits d :
  d <> EmptyString -> all_digits d = true ->
  parseInt d = Some (Double.int (decimal d)).
Proof.
  intros Hne Hd. destruct d as [|c d]; [congruence|].
  simpl in Hd. apply andb_true_iff in Hd as [Hc Hd].
  assert (Hcode := proj1 (is_digit_code c) Hc).
  unfold parseInt.
  assert (Hsp : skip_spaces (String c d) = String c d).
  { simpl. unfold is_space.
    destruct (code c =? 32) eqn:E1; [apply Z.eqb_eq in E1; lia|].
    destruct (9 <=? code c) eqn:E2; simpl; [|reflexivity].
    destruct (code c <=? 13) eqn:E3; [apply Z.leb_le in E3; lia|reflexivity]. }
  rewrite Hsp.
  assert (Hsign : read_sign (String c d) = (1, String c d)).
  { unfold read_sign.
    destruct (Ascii.eqb_spec c "-") as [->|_]; [unfold code in Hcode; simpl in Hcode; lia|].
    destruct (Ascii.eqb_spec c "+") as [->|_]; [unfold code in Hcode; simpl in Hcode; lia|].
    reflexivity. }
  rewrite Hsign.
  rewrite (span_digits_all (String c d)) by (simpl; rewrite Hc, Hd; reflexivity).
  do 2 f_equal. lia.
Qed.

End DecoderFacts.

Section DurationFacts.
Import JsString Decoders Token.

Lemma append_assoc (a b c : string) : (a ++ b) ++ c = a ++ (b ++ c).
Proof.
  induction a as [|x a IH]; [reflexivity|].
  change (String x ((a ++ b) ++ c) = String x (a ++ (b ++ c))).
  now f_equal.
Qed.

Lemma append_nil_r (a : string) : a ++ EmptyString = a.
Proof.
  induction a as [|x a IH]; [reflexivity|].
  change (String x (a ++ EmptyString) = String x a). now f_equal.
Qed.

Lemma append_unit (d : string) (u : ascii) (r : string) :
  (d ++ String u EmptyString) ++ r = d ++ String u r.
Proof. now rewrite append_assoc. Qed.

(** The pattern matches exactly where the input has a [PT]. *)
Lemma regex_match_None s :
  regex_match s = None <-> includes s "PT" = false.
Proof.
  induction s as [|c s IH].
  - simpl. split; reflexivity.
  - cbn [regex_match includes]. unfold startsWith.
    destruct (strip_prefix "PT" (String c s)); [split; discriminate|].
    exact IH.
Qed.

Lemma opt_group_nodigit u post :
  no_digit_ahead post -> opt_group u post = (None, post).
Proof.
  destruct post as [|c r]; [reflexivity|]. simpl. intros Hc.
  unfold opt_group. simpl. now rewrite Hc.
Qed.

(** On a token, the captures are its components, whatever follows it. *)
Lemma groups_token h m s post :
  number h -> number m -> number s -> no_digit_ahead post ->
  groups (component h "H" ++ component m "M" ++ component s "S" ++ post)
  = (h, m, s).
Proof.
  intros Hh Hm Hs Hpost. unfold groups.
  destruct h as [dh|], m as [dm|], s as [ds|]; simpl in Hh, Hm, Hs;
    repeat match goal with H : _ /\ _ |- _ => destruct H end;
    cbn [component];
    repeat first
      [ progress change (String.append EmptyString ?x) with x
      | rewrite append_unit
      | rewrite opt_group_present by (assumption || reflexivity)
      | rewrite opt_group_other by (assumption || reflexivity || discriminate)
      | rewrite opt_group_nodigit by assumption ];
    reflexivity.
Qed.

Lemma strip_prefix_cons a p b s :
  strip_prefix (String a p) (String b s)
  = if Ascii.eqb a b then strip_prefix p s else None.
Proof. reflexivity. Qed.

(** The match is at the first [PT] of the input. *)
Lemma regex_match_first pre rest :
  includes pre "PT" = false ->
  regex_match (pre ++ "PT" ++ rest) = Some (groups rest).
Proof.
  induction pre as [|c pre IH]; intros Hpre.
  - change (EmptyString ++ "PT" ++ rest) with (String "P" (String "T" rest)).
    cbn [regex_match strip_prefix]. now rewrite !Ascii.eqb_refl.
  - cbn [includes] in Hpre. unfold startsWith in Hpre.
    destruct (strip_prefix "PT" (String c pre)) eqn:Es; [discriminate|].
    change (String c pre ++ "PT" ++ rest) with (String c (pre ++ "PT" ++ rest)).
    cbn [regex_match].
    assert (Hn : strip_prefix "PT" (String c (pre ++ "PT" ++ rest)) = None).
    { rewrite strip_prefix_cons in Es |- *.
      destruct (Ascii.eqb "P" c); [|reflexivity].
      destruct pre as [|b pre']; [reflexivity|].
      change (String b pre' ++ "PT" ++ rest)
        with (String b (pre' ++ "PT" ++ rest)).
      rewrite strip_prefix_cons in Es |- *.
      destruct (Ascii.eqb "T" b); [discriminate|reflexivity]. }
    rewrite Hn. apply IH. exact Hpre.
Qed.

Lemma regex_match_token pre h m s post :
  includes pre "PT" = false ->
  number h -> number m -> number s -> no_digit_ahead post ->
  regex_match (pre ++ token h m s ++ post) = Some (h, m, s).
Proof.
  intros Hpre Hh Hm Hs Hpost. unfold token.
  rewrite !append_assoc.
  rewrite (regex_match_first pre _ Hpre).
  now rewrite groups_token.
Qed.

Lemma or_zero_parseInt o :
  number o -> or_zero (parseInt_opt o) = Double.int (value o).
Proof.
  destruct o as [d|]; simpl; [|reflexivity].
  intros [Hne Hd]. now rewrite parseInt_digits.
Qed.

Lemma decimal_acc_nonneg d acc :
  0 <= acc -> all_digits d = true -> 0 <= decimal_acc acc d.
Proof.
  revert acc. induction d as [|c d IH]; intros acc Hacc; simpl; [auto|].
  rewrite andb_true_iff. intros [Hc Hd]. apply IH; [|exact Hd].
  apply is_digit_code in Hc. unfold digit_val. lia.
Qed.

Lemma value_nonneg o : number o -> 0 <= value o.
Proof.
  destruct o as [d|]; simpl; [|lia]. intros [_ Hd].
  apply decimal_acc_nonneg; [lia | exact Hd].
Qed.

(** Below [2^53] the doubles of [parseDuration] are the integers. *)
Lemma parseDuration_token pre h m s post :
  includes pre "PT" = false ->
  number h -> number m -> number s -> no_digit_ahead post ->
  3600 * value h + 60 * value m + value s < 2 ^ 53 ->
  parseDuration (pre ++ token h m s ++ post)
  = 3600 * value h + 60 * value m + value s.
Proof.
  intros Hpre Hh Hm Hs Hpost Hlt. unfold parseDuration.
  rewrite regex_match_token by assumption.
  rewrite !or_zero_parseInt by assumption.
  pose proof (value_nonneg h Hh). pose proof (value_nonneg m Hm).
  pose proof (value_nonneg s Hs).
  rewrite (int_exact (value h)), (int_exact (value m)), (int_exact (value s))
    by lia.
  unfold Double.times, Double.plus.
  rewrite (int_exact (value h * 3600)), (int_exact (value m * 60)) by lia.
  rewrite (int_exact (value h * 3600 + value m * 60)) by lia.
  rewrite int_exact by lia. lia.
Qed.

Lemma parseDuration_no_PT str :
  includes str "PT" = false -> parseDuration str = 0.
Proof.
  intros H. unfold parseDuration.
  now rewrite (proj2 (regex_match_None str) H).
Qed.

End DurationFacts.

(** C8, the claim as it stands, fails twice: the token [PT1H2M10S] is one
    hour, two minutes and ten seconds, which the decoder adds up to 3730
    and not to 3722; and an input that is not a token but has one inside is
    decoded to that token's value, not to zero. *)
Lemma C8_counterexample :
  Decoders.parseDuration "PT1H2M10S" = 3730
  /\ Decoders.parseDuration "PT1H2M10S" <> 3722
  /\ Decoders.parseDuration "PT45Sgarbage" = 45
  /\ ~ Token.well_formed "PT45Sgarbage".
Proof.
  split; [reflexivity|]. split; [vm_compute; discriminate|].
  split; [reflexivity|].
  intros (h & m & s & Hh & Hm & Hs & E).
  pose proof (regex_match_token "" h m s "" eq_refl Hh Hm Hs I) as R.
  change (EmptyString ++ Token.token h m s ++ EmptyString)
    with (Token.token h m s ++ EmptyString) in R.
  rewrite append_nil_r, <- E in R.
  vm_compute in R. injection R as <- <- <-.
  vm_compute in E. discriminate.
Qed.

(** C8, amended: [parseDuration] is a total function of its string.  On
    a token [PT], hours [H], minutes [M], seconds [S] whose total
    [3600 h + 60 m + s] is below [2^53] it gives that total, a missing
    component counting as zero, and so it does when the token comes after a
    text without [PT] and before a text that does not go on with a digit:
    what surrounds the token is ignored.  (From [2^53] on the numbers of
    the code, which are doubles, no longer hold every integer, and the
    total comes out rounded: the token of [2^53 + 1] seconds gives
    [2^53].)  On an input in which [PT] does not occur it gives zero.  It
    decodes [PT1H2M10S] to 3730, [PT45S] to 45, [PT] and [garbage] to 0. *)
Theorem C8_parseDuration :
  (forall pre h m s post,
      JsString.includes pre "PT" = false ->
      Token.number h -> Token.number m -> Token.number s ->
      Token.no_digit_ahead post ->
      3600 * Token.value h + 60 * Token.value m + Token.value s < 2 ^ 53 ->
      Decoders.parseDuration (pre ++ Token.token h m s ++ post)
      = 3600 * Token.value h + 60 * Token.value m + Token.value s)
  /\ (forall str,
         JsString.includes str "PT" = false -> Decoders.parseDuration str = 0)
  /\ Decoders.parseDuration "PT1H2M10S" = 3730
  /\ Decoders.parseDuration "PT45S" = 45
  /\ Decoders.parseDuration "PT" = 0
  /\ Decoders.parseDuration "garbage" = 0
  /\ Decoders.parseDuration "PT9007199254740993S" = 9007199254740992.
Proof.
  split; [intros pre h m s post Hpre Hh Hm Hs Hpost Hlt;
          now apply parseDuration_token|].
  split; [exact parseDuration_no_PT|].
  repeat split; vm_compute; reflexivity.
Qed.

(** C8, at work: the token of two hours and five seconds inside a longer
    text, and an input with no [PT]. *)
Lemma C8_parseDuration_witness :
  Decoders.parseDuration "lasts PT2H5S." = 7205
  /\ Decoders.parseDuration "1H2M10S" = 0.
Proof.
  destruct C8_parseDuration as (Htok & Hno & _).
  split.
  - apply (Htok "lasts " (Some "2") None (Some "5") ".");
      simpl; repeat split; try discriminate; lia.
  - apply (Hno "1H2M10S"). reflexivity.
Defined.

Section ShortFacts.
Import JsString Decoders.

Lemma strip_prefix_shorts s :
  strip_prefix "shorts" s <> None -> strip_prefix "short" s <> None.
Proof.
  do 5 (destruct s as [|? s]; [simpl; congruence|];
        cbn [strip_prefix];
        match goal with |- context [Ascii.eqb ?a ?b] => destruct (Ascii.eqb a b) end;
        [|congruence]).
  simpl. congruence.
Qed.

(** The second test on a tag never adds anything to the first. *)
Lemma includes_shorts s :
  includes s "shorts" = true -> includes s "short" = true.
Proof.
  induction s as [|c s IH]; cbn [includes]; unfold startsWith.
  - simpl. discriminate.
  - pose proof (strip_prefix_shorts (String c s)) as P.
    destruct (strip_prefix "shorts" (String c s)).
    + destruct (strip_prefix "short" (String c s)); [reflexivity|].
      exfalso. apply P; congruence.
    + destruct (strip_prefix "short" (String c s)); [reflexivity|]. exact IH.
Qed.

Lemma tag_test_eq ts :
  existsb (fun tag => includes (toLowerCase tag) "short"
                      || includes (toLowerCase tag) "shorts") ts
  = existsb (fun tag => includes (toLowerCase tag) "short") ts.
Proof.
  induction ts as [|x ts IH]; simpl; [reflexivity|]. rewrite IH. f_equal.
  destruct (includes (toLowerCase x) "short") eqn:E; [reflexivity|].
  destruct (includes (toLowerCase x) "shorts") eqn:E'; [|reflexivity].
  apply includes_shorts in E'. congruence.
Qed.

(** What [isShort] computes: the three tests of the specification, with
    the bound on the duration at 61 instead of 60. *)
Lemma isShort_true_iff categoryId duration tags :
  isShort categoryId duration tags = true
  <-> duration <= 61 \/ has_short_tag tags = true \/ categoryId = Some "23".
Proof.
  unfold isShort, has_short_tag, strict_eq.
  destruct (Z.leb_spec duration 60); [split; [left; lia | reflexivity]|].
  destruct tags as [ts|].
  - rewrite tag_test_eq.
    destruct (existsb _ ts); [split; [right; left; reflexivity | reflexivity]|].
    destruct categoryId as [c|].
    + destruct (String.eqb_spec c "23") as [->|Hne].
      * split; [right; right; reflexivity | reflexivity].
      * rewrite Z.leb_le. split; [left; assumption|].
        intros [|[|]]; [assumption | discriminate | congruence].
    + rewrite Z.leb_le. split; [left; assumption|].
      intros [|[|]]; [assumption | discriminate | discriminate].
  - destruct categoryId as [c|].
    + destruct (String.eqb_spec c "23") as [->|Hne].
      * split; [right; right; reflexivity | reflexivity].
      * rewrite Z.leb_le. split; [left; assumption|].
        intros [|[|]]; [assumption | discriminate | congruence].
    + rewrite Z.leb_le. split; [left; assumption|].
      intros [|[|]]; [assumption | discriminate | discriminate].
Qed.

(** Above 61 seconds the classifier is the specification's. *)
Lemma isShort_spec_agree categoryId duration tags :
  duration <> 61 ->
  isShort categoryId duration tags = isShort_spec categoryId duration tags.
Proof.
  intros Hd. unfold isShort, isShort_spec, has_short_tag, strict_eq.
  destruct (Z.leb_spec duration 60); [reflexivity|].
  assert ((duration <=? 61) = false) as -> by (apply Z.leb_gt; lia).
  destruct tags as [ts|]; [rewrite tag_test_eq|];
    simpl; repeat match goal with |- context [if ?b then _ else _] => destruct b end;
    reflexivity.
Qed.

End ShortFacts.

(** C3, where the code leaves the claim: a video of 61 seconds with no
    tag, in category 10, is classified as a Short, by the last line of
    [isShort] ([return duration <= 61]); the three conditions of the claim
    are all false for it.  Such a duration is what [parseDuration] gives
    for [PT1M1S]. *)
Theorem C3_isShort_61 :
  Decoders.isShort (Some "10") 61 (Some []) = true
  /\ Decoders.isShort_spec (Some "10") 61 (Some []) = false
  /\ Decoders.parseDuration "PT1M1S" = 61
  /\ Decoders.isShort (Some "10") 120 (Some []) = false
  /\ Decoders.isShort (Some "10") 45 (Some []) = true
  /\ Decoders.isShort (Some "10") 120 (Some ["cool short clip"]) = true
  /\ Decoders.isShort (Some "23") 120 (Some []) = true.
Proof. repeat split; reflexivity. Qed.

(** ** The Shorts percentage *)

Section PercentageFacts.
Import Storage.





End PercentageFacts.




(** ** The pagination walker *)

Section WalkerFacts.
Import Walker.



Lemma do_while_step {S : Type} (g : string -> Z -> option string -> M S Page)
    channelId maxPages fuel acc tok k (s : S) :
  do_while g channelId maxPages fuel acc tok k s
  = match g channelId 50 tok s with
    | (Ok result, s1) =>
        if token_truthy (nextPageToken result) && (k + 1 <? maxPages)
        then match fuel with
             | S fuel' =>
                 do_while g channelId maxPages fuel'
                   (acc ++ videos result)%list (nextPageToken result) (k + 1) s1
             | O => (Ok (acc ++ videos result)%list, s1)
             end
        else (Ok (acc ++ videos result)%list, s1)
    | (Throw e, s1) => (Throw e, s1)
    end.
Proof.
  destruct fuel; cbn [do_while]; unfold bind;
    destruct (g channelId 50 tok s) as [[result|e] s1]; try reflexivity;
    destruct (token_truthy (nextPageToken result) && (k + 1 <? maxPages));
    reflexivity.
Qed.


Context {W : Type}.
Variable g : string -> Z -> option string -> M W Page.
Variable channelId : string.
Variable maxPages : Z.


(** The loop never runs out of fuel: more fuel changes nothing. *)
Lemma do_while_fuel fuel :
  forall acc tok k w,
    maxPages - k - 1 <= Z.of_nat fuel ->
    do_while g channelId maxPages (S fuel) acc tok k w
    = do_while g channelId maxPages fuel acc tok k w.
Proof.
  induction fuel as [|fuel IH]; intros acc tok k w Hfuel;
    rewrite (do_while_step g _ _ (S _)); symmetry; rewrite do_while_step;
    destruct (g channelId 50 tok w) as [[p|e] w1]; try reflexivity;
    destruct (token_truthy (nextPageToken p) && (k + 1 <? maxPages)) eqn:Et;
    try reflexivity; apply andb_true_iff in Et as [_ Hlt];
    apply Z.ltb_lt in Hlt.
  - lia.
  - symmetry. apply IH. lia.
Qed.

Lemma fetch_is_loop {S : Type} (h : string -> Z -> option string -> M S Page)
    (s : S) :
  fetchChannelVideosPaginated h channelId maxPages s
  = do_while h channelId maxPages (Z.to_nat maxPages) [] None 0 s.
Proof.
  unfold fetchChannelVideosPaginated, try_catch, throw.
  destruct (do_while h channelId maxPages (Z.to_nat maxPages) [] None 0 s)
    as [[vs|e] s']; reflexivity.
Qed.


End WalkerFacts.



(** ** The video service *)

Lemma video_service_call_raises method channelId maxPages (e : Env) :
  YouTubeVideoService.client_fetchChannelVideosPaginated method channelId maxPages e
  = (Throw (JsTypeError "this.client.fetchChannelVideosPaginated is not a function"), e).
Proof. reflexivity. Qed.

Lemma video_service_fetch method channelId maxPages (e : Env) :
  YouTubeVideoService.fetchAndStoreChannelVideos method channelId maxPages e
  = (Throw (JsTypeError "this.client.fetchChannelVideosPaginated is not a function"), e).
Proof. reflexivity. Qed.

(** C10: the client has no method [fetchChannelVideosPaginated] (it has
    [getChannelVideos], which the channel service's walker calls), so
    [fetchAndStoreChannelVideos] raises a [TypeError] for every channel and
    every [maxPages], whatever such a method would have done, and leaves
    the tables and the client's state as they were: no video is stored.
    The processor of [fetchVideos] jobs therefore fails on every run, with
    that error.  The walker of the channel service does return pages
    (here the five pages of the example channel). *)
Theorem C10_fetchAndStoreChannelVideos_raises :
  client_has_method "fetchChannelVideosPaginated" = false
  /\ client_has_method "getChannelVideos" = true
  /\ (forall method channelId maxPages (e : Env),
        YouTubeVideoService.fetchAndStoreChannelVideos method channelId maxPages e
        = (Throw (JsTypeError
                    "this.client.fetchChannelVideosPaginated is not a function"),
           e))
  /\ (forall method job (s : Sys),
        exists s',
          JobQueue.process_fetchVideos method job s
          = (Throw (JsTypeError
                      "this.client.fetchChannelVideosPaginated is not a function"),
             s')
          /\ store (env s') = store (env s))
  /\ (let client :=
        {| getChannelInfo := fun _ _ => throw (JsError "not used");
           getChannelVideos := Scenario.paged Scenario.five_pages |} in
      fst (YouTubeChannelService.fetchChannelVideosPaginated client "UC1" 5
             {| world := YouTubeAPIClient.fresh 0; store := Storage.empty |})
      = Ok (List.concat Scenario.five_pages)).
Proof.
  split; [reflexivity|]. split; [reflexivity|]. split; [reflexivity|]. split.
  - intros method job s.
    unfold JobQueue.process_fetchVideos, bind, try_catch.
    destruct (JobQueue.updateJobStatus (id job) started None s) as [[[]|e0] s1] eqn:E1;
      [|unfold JobQueue.updateJobStatus, modify in E1; discriminate].
    unfold JobQueue.updateJobStatus, modify in E1. injection E1 as E1.
    unfold on_env at 1, on_world, new_YouTubeAPIClient, modify. cbn [fst snd].
    unfold on_env at 1. rewrite video_service_fetch.
    cbn [fst snd]. unfold throw.
    eexists. split; [reflexivity|].
    subst s1. unfold JobQueue.update_row.
    repeat match goal with
           | |- context [match ?x with Some _ => _ | None => _ end] => destruct x
           end; reflexivity.
  - vm_compute. reflexivity.
Qed.

(** ** The quota tracker *)

Section QuotaFacts.
Import YouTubeAPIClient.

Lemma incrby_consumed now key n l :
  consumed (RateLimiter.incrby now key n l) = RateLimiter.used now key l + n.
Proof.
  unfold RateLimiter.incrby, RateLimiter.used.
  destruct (RateLimiter.live now key l); cbn; lia.
Qed.

(** A call of [consume]: the points are added to the count of the key,
    whether the call is granted or not. *)
Lemma consume_spec now key n l :
  let out := RateLimiter.consume now key n l in
  fst out = (if points l <? RateLimiter.used now key l + n
             then Throw (RateLimiterRes (RateLimiter.used now key l + n))
             else Ok tt)
  /\ points (snd out) = points l
  /\ duration (snd out) = duration l
  /\ (consumed <$> storage (snd out) !! key)
     = Some (RateLimiter.used now key l + n)
  /\ (forall k, k <> key -> storage (snd out) !! k = storage l !! k).
Proof.
  unfold RateLimiter.consume. rewrite incrby_consumed.
  destruct (points l <? RateLimiter.used now key l + n); cbn [fst snd storage
    points duration]; (split; [reflexivity|]); (split; [reflexivity|]);
    (split; [reflexivity|]);
    (split; [rewrite lookup_insert_eq; cbn; now rewrite incrby_consumed
            | intros k Hk; now rewrite lookup_insert_ne by congruence]).
Qed.

(** The two ways an attempt goes on after the daily limiter. *)
Lemma tryConsume_steps cost w :
  tryConsume cost w
  = let d := RateLimiter.consume (now w) cost 1 (rateLimiter w) in
    match fst d with
    | Throw e => (Throw e, set_rateLimiter (snd d) w)
    | Ok _ =>
        let m := RateLimiter.consume (now w) 1 1 (minuteRateLimiter w) in
        (fst m, set_minuteRateLimiter (snd m) (set_rateLimiter (snd d) w))
    end.
Proof.
  unfold tryConsume, bind, rateLimiter_consume, minuteRateLimiter_consume.
  destruct (RateLimiter.consume (now w) cost 1 (rateLimiter w)) as [[[]|e] l];
    cbn [fst snd now minuteRateLimiter set_rateLimiter]; [|reflexivity].
  destruct (RateLimiter.consume (now w) 1 1 (minuteRateLimiter w)) as [r l'].
  reflexivity.
Qed.

Lemma tryConsume_frame cost w r w1 :
  tryConsume cost w = (r, w1) ->
  same_outside_quota w w1 /\ now w1 = now w /\ localTZA w1 = localTZA w.
Proof.
  rewrite tryConsume_steps. cbv zeta.
  destruct (fst (RateLimiter.consume (now w) cost 1 (rateLimiter w)));
    intros E; injection E as _ <-; repeat split.
Qed.

(** An attempt both limiters grant. *)
Lemma tryConsume_granted cost w :
  RateLimiter.used (now w) cost (rateLimiter w) < points (rateLimiter w) ->
  RateLimiter.used (now w) 1 (minuteRateLimiter w) < points (minuteRateLimiter w) ->
  tryConsume cost w
  = (Ok tt,
     set_minuteRateLimiter
       (snd (RateLimiter.consume (now w) 1 1 (minuteRateLimiter w)))
       (set_rateLimiter
          (snd (RateLimiter.consume (now w) cost 1 (rateLimiter w))) w)).
Proof.
  intros Hd Hm. rewrite tryConsume_steps. cbv zeta.
  destruct (consume_spec (now w) cost 1 (rateLimiter w)) as (Ed & _).
  destruct (consume_spec (now w) 1 1 (minuteRateLimiter w)) as (Em & _).
  rewrite Ed, Em.
  destruct (Z.ltb_spec (points (rateLimiter w))
              (RateLimiter.used (now w) cost (rateLimiter w) + 1)); [lia|].
  destruct (Z.ltb_spec (points (minuteRateLimiter w))
              (RateLimiter.used (now w) 1 (minuteRateLimiter w) + 1)); [lia|].
  reflexivity.
Qed.

End QuotaFacts.




(** The cost of a call is not a number of points for the daily limiter:
    [rateLimiter.consume(cost)] hands it over as the key of the record to
    count in, and the call counts for one point there.  An attempt of any
    cost adds one to the record its cost names and leaves the records of
    the other costs as they were.  So the first attempt of a process is
    granted whatever its cost, a cost above the points of the day too; and
    a cost whose record has reached the limit stops the calls of that cost
    and no call of another cost. *)
Theorem cost_names_the_record (cost : Z) (w : World) :
  let out := YouTubeAPIClient.tryConsume cost w in
  (consumed <$> storage (rateLimiter (snd out)) !! cost)
  = Some (RateLimiter.used (now w) cost (rateLimiter w) + 1)
  /\ (forall k, k <> cost ->
        storage (rateLimiter (snd out)) !! k = storage (rateLimiter w) !! k)
  /\ (forall start,
        fst (YouTubeAPIClient.tryConsume cost (YouTubeAPIClient.fresh start))
        = Ok tt)
  /\ fst (YouTubeAPIClient.tryConsume 10001 (YouTubeAPIClient.fresh 0)) = Ok tt
  /\ (consumed <$> storage (rateLimiter
                              (snd (YouTubeAPIClient.tryConsume 10001
                                      (YouTubeAPIClient.fresh 0)))) !! 10001)
     = Some 1
  /\ fst (YouTubeAPIClient.tryConsume 1 Scenario.daily_exhausted)
     = Throw (RateLimiterRes 10001)
  /\ fst (YouTubeAPIClient.tryConsume 2 Scenario.daily_exhausted) = Ok tt.
Proof.
  intros out. subst out.
  split; [|split; [|split; [|repeat split; vm_compute; reflexivity]]].
  - rewrite tryConsume_steps. cbv zeta.
    destruct (consume_spec (now w) cost 1 (rateLimiter w)) as (_ & _ & _ & C & _).
    destruct (fst (RateLimiter.consume (now w) cost 1 (rateLimiter w)));
      cbn [snd rateLimiter set_rateLimiter set_minuteRateLimiter]; exact C.
  - intros k Hk. rewrite tryConsume_steps. cbv zeta.
    destruct (consume_spec (now w) cost 1 (rateLimiter w)) as (_ & _ & _ & _ & C).
    destruct (fst (RateLimiter.consume (now w) cost 1 (rateLimiter w)));
      cbn [snd rateLimiter set_rateLimiter set_minuteRateLimiter]; exact (C k Hk).
  - intros start. rewrite tryConsume_granted; [reflexivity| |].
    + unfold RateLimiter.used, RateLimiter.live. cbn. rewrite lookup_empty.
      reflexivity.
    + vm_compute. reflexivity.
Qed.

(** ** The request operation *)

Section RequestFacts.
Import YouTubeAPIClient.

(** The quota code ends in a grant or in its own [Error]. *)
Lemma rate_limiting_layers_cases cost w r w1 :
  rate_limiting_layers cost w = (r, w1) ->
  same_outside_quota w w1
  /\ (r = Ok tt
      \/ r = Throw (JsError "Rate limit exceeded. Please try again later.")).
Proof.
  unfold rate_limiting_layers, try_catch at 1. intros E.
  destruct (tryConsume cost w) as [[[]|e1] wa] eqn:E1;
    destruct (tryConsume_frame _ _ _ _ E1) as [(F1 & F2 & F3) _].
  - injection E as <- <-. split; [repeat split; assumption | left; reflexivity].
  - unfold bind, delay, modify, try_catch, throw in E.
    destruct (tryConsume cost (set_now (now wa + 5000) wa)) as [[[]|e2] wb] eqn:E2;
      destruct (tryConsume_frame _ _ _ _ E2) as [(G1 & G2 & G3) _];
      injection E as <- <-; simpl in G1, G2, G3;
      (split; [repeat split; congruence|]); [left | right]; reflexivity.
Qed.

Variable apiKey : string.
Variable net : Upstream.

(** What [makeRequest] throws, and when: its own [Error] for the quota,
    or an [Error] whose text is made from the answer of the upstream
    service to the request it sent. *)
Lemma makeRequest_throws endpoint params cost w e w' :
  makeRequest apiKey net endpoint params cost w = (Throw e, w') ->
  let sent := set_param "key" (PStr apiKey) params in
  let answer := net (List.length (requests w)) endpoint sent in
  e = JsError "Request error: Rate limit exceeded. Please try again later."
  \/ (exists status data,
         answer = Http status data
         /\ ((200 <=? status) && (status <? 300) = false)
         /\ e = JsError ("YouTube API Error: " ++ Js.of_Z status ++ " - "
                         ++ upstream_message data))
  \/ (exists m, answer = NoResponse m /\ e = JsError ("Network error: " ++ m))
  \/ (exists m, answer = SetupFailure m /\ e = JsError ("Request error: " ++ m)).
Proof.
  intros E sent answer. unfold makeRequest, try_catch at 1 in E.
  fold sent in E. unfold bind at 1 in E.
  destruct (rate_limiting_layers cost w) as [r w1] eqn:E1.
  destruct (rate_limiting_layers_cases _ _ _ _ E1) as [(F1 & F2 & F3) [-> | ->]].
  2: { cbn in E. injection E as <- _. left. reflexivity. }
  unfold bind at 1, track_usage, modify in E.
  set (w2 := if Calendar.getDate _ (now w1) =? Calendar.getDate _ (lastReset (usage w1))
             then _ else _) in E.
  assert (R2 : requests w2 = requests w).
  { subst w2. destruct (_ =? _); simpl; exact F1. }
  unfold bind at 1, apiCache_get in E.
  destruct (NodeCache.get (now w2) (cacheKey endpoint sent) (apiCache w2))
    as [cached c] eqn:Ec.
  set (w3 := set_apiCache c w2) in E.
  assert (R3 : requests w3 = requests w) by exact R2.
  assert (Efetch : forall res wf,
             fetch net (cacheKey endpoint sent) endpoint sent w3 = (res, wf) ->
             match res with
             | Ok _ => True
             | Throw e0 =>
                 match answer with
                 | Http status data =>
                     ((200 <=? status) && (status <? 300) = false)
                     /\ e0 = AxiosError (Some (status, data)) true
                               ("Request failed with status code " ++ Js.of_Z status)
                 | NoResponse m => e0 = AxiosError None true m
                 | SetupFailure m => e0 = AxiosError None false m
                 end
             end).
  { intros res wf. unfold fetch, bind, axios_get. rewrite R3. fold answer.
    destruct answer as [status data|m|m].
    - destruct ((200 <=? status) && (status <? 300)) eqn:Es.
      + cbn. intros Ef. injection Ef as <- _. exact I.
      + intros Ef. injection Ef as <- _. split; reflexivity.
    - intros Ef. injection Ef as <- _. reflexivity.
    - intros Ef. injection Ef as <- _. reflexivity. }
  assert (Hmiss : forall res wf,
             fetch net (cacheKey endpoint sent) endpoint sent w3 = (res, wf) ->
             (match res with
              | Ok a => (Ok a, wf)
              | Throw e0 => on_error e0 wf
              end) = (Throw e, w') ->
             (exists status data,
                 answer = Http status data
                 /\ ((200 <=? status) && (status <? 300) = false)
                 /\ e = JsError ("YouTube API Error: " ++ Js.of_Z status ++ " - "
                                 ++ upstream_message data))
             \/ (exists m, answer = NoResponse m /\ e = JsError ("Network error: " ++ m))
             \/ (exists m, answer = SetupFailure m /\ e = JsError ("Request error: " ++ m))).
  { intros res wf Ef Ex. specialize (Efetch res wf Ef).
    destruct res as [a|e0]; [discriminate|].
    destruct answer as [status data|m|m].
    - destruct Efetch as [Hs ->]. cbn in Ex. injection Ex as <- _.
      left. exists status, data. repeat split. exact Hs.
    - subst e0. cbn in Ex. injection Ex as <- _.
      right; left. exists m. split; reflexivity.
    - subst e0. cbn in Ex. injection Ex as <- _.
      right; right. exists m. split; reflexivity. }
  right.
  destruct cached as [hit|].
  - destruct (Js.truthy (Some hit)).
    + cbn in E. discriminate.
    + destruct (fetch net (cacheKey endpoint sent) endpoint sent w3)
        as [res wf] eqn:Ef.
      exact (Hmiss res wf eq_refl E).
  - destruct (fetch net (cacheKey endpoint sent) endpoint sent w3)
      as [res wf] eqn:Ef.
    exact (Hmiss res wf eq_refl E).
Qed.

End RequestFacts.

Lemma startsWith_app (p x : string) : JsString.startsWith (p ++ x) p = true.
Proof.
  unfold JsString.startsWith.
  assert (H : JsString.strip_prefix p (p ++ x) = Some x).
  { induction p as [|c p IH]; [reflexivity|].
    change (String c p ++ x) with (String c (p ++ x)).
    cbn [JsString.strip_prefix]. now rewrite Ascii.eqb_refl. }
  now rewrite H.
Qed.

(** C5, the claim as it stands, fails: two replies with status 403 and the
    same message, one with the reason code [quotaExceeded] and one with
    [keyInvalid], belong to two classes of the taxonomy, and [makeRequest]
    throws the very same value for both: the reason code does not reach the
    caller.  What is thrown is a plain [Error]; its text alone tells a 404
    from a 500. *)
Lemma C5_counterexample :
  let quota := Http 403 (Scenario.error_body 403 "Forbidden" "quotaExceeded") in
  let key := Http 403 (Scenario.error_body 403 "Forbidden" "keyInvalid") in
  let request o :=
    fst (YouTubeAPIClient.makeRequest Scenario.apiKey (Scenario.always o)
           "/channels" Scenario.channel_params 1 Scenario.start) in
  Taxonomy.classify quota = Some Taxonomy.QuotaExceededUpstream
  /\ Taxonomy.classify key = Some Taxonomy.RateLimited
  /\ request quota = request key
  /\ request quota = Throw (JsError "YouTube API Error: 403 - Forbidden")
  /\ request (Http 404 (Scenario.error_body 404 "Not Found" "notFound"))
     = Throw (JsError "YouTube API Error: 404 - Not Found")
  /\ request (Http 500 JNull) = Throw (JsError "YouTube API Error: 500 - Unknown error").
Proof. vm_compute. repeat split; reflexivity. Qed.

(** C5, amended: every failure of [makeRequest] crosses the client
    boundary as a plain [Error], never as the value axios or a limiter
    rejected with.  Its message is [Request error: Rate limit exceeded.
    Please try again later.] when the quota was refused twice; [YouTube API
    Error: <status> - <upstream message, or Unknown error>] when the
    upstream service replied with a status outside 2xx, whatever the status
    and the reason code; [Network error: <message>] when the request left
    and no reply came; [Request error: <message>] when the request could
    not be set up. *)
Theorem C5_makeRequest_errors
    (apiKey : string) (net : Upstream) (endpoint : string) (params : Params)
    (cost : Z) (w w' : World) (e : Exn) :
  YouTubeAPIClient.makeRequest apiKey net endpoint params cost w = (Throw e, w') ->
  (exists m, e = JsError m
             /\ (JsString.startsWith m "YouTube API Error: " = true
                 \/ JsString.startsWith m "Network error: " = true
                 \/ JsString.startsWith m "Request error: " = true))
  /\ let answer := net (List.length (requests w)) endpoint
                     (set_param "key" (PStr apiKey) params) in
     (e = JsError "Request error: Rate limit exceeded. Please try again later."
      \/ (exists status data,
             answer = Http status data
             /\ ((200 <=? status) && (status <? 300) = false)
             /\ e = JsError ("YouTube API Error: " ++ Js.of_Z status ++ " - "
                             ++ YouTubeAPIClient.upstream_message data))
      \/ (exists m, answer = NoResponse m /\ e = JsError ("Network error: " ++ m))
      \/ (exists m, answer = SetupFailure m /\ e = JsError ("Request error: " ++ m))).
Proof.
  intros E. pose proof (makeRequest_throws _ _ _ _ _ _ _ _ E) as H. cbv zeta in H.
  split; [|exact H].
  destruct H as [-> | [(st & d & _ & _ & ->) | [(m & _ & ->) | (m & _ & ->)]]];
    eexists; (split; [reflexivity|]).
  - right; right. reflexivity.
  - left. apply startsWith_app.
  - right; left. apply startsWith_app.
  - right; right. apply startsWith_app.
Qed.

(** C5, at work: an upstream 404. *)
Lemma C5_makeRequest_errors_witness :
  exists m,
    JsError "YouTube API Error: 404 - Not Found" = JsError m
    /\ (JsString.startsWith m "YouTube API Error: " = true
        \/ JsString.startsWith m "Network error: " = true
        \/ JsString.startsWith m "Request error: " = true).
Proof.
  refine (proj1 (C5_makeRequest_errors Scenario.apiKey
            (Scenario.always (Http 404 (Scenario.error_body 404 "Not Found" "notFound")))
            "/channels" Scenario.channel_params 1 Scenario.start
            (snd (YouTubeAPIClient.makeRequest Scenario.apiKey
                    (Scenario.always (Http 404 (Scenario.error_body 404 "Not Found" "notFound")))
                    "/channels" Scenario.channel_params 1 Scenario.start))
            (JsError "YouTube API Error: 404 - Not Found") _)).
  vm_compute. reflexivity.
Defined.

Section CacheFacts.
Import YouTubeAPIClient.

Variable apiKey : string.
Variable net : Upstream.

(** A hit in the cache, with the quota granted at once: the cached value
    is returned and no request leaves, but the quota code runs first, so
    both limiters have counted the call. *)
Lemma makeRequest_cache_hit endpoint params cost w entry :
  let key := cacheKey endpoint (set_param "key" (PStr apiKey) params) in
  apiCache w !! key = Some entry ->
  (t entry = 0 \/ now w <= t entry) ->
  Js.truthy (Some (v entry)) = true ->
  RateLimiter.used (now w) cost (rateLimiter w) < points (rateLimiter w) ->
  RateLimiter.used (now w) 1 (minuteRateLimiter w)
  < points (minuteRateLimiter w) ->
  exists w',
    makeRequest apiKey net endpoint params cost w = (Ok (v entry), w')
    /\ requests w' = requests w
    /\ apiCache w' = apiCache w
    /\ rateLimiter w'
       = snd (RateLimiter.consume (now w) cost 1 (rateLimiter w))
    /\ minuteRateLimiter w'
       = snd (RateLimiter.consume (now w) 1 1 (minuteRateLimiter w)).
Proof.
  intros key Hin Hlive Htruthy Hd Hm.
  unfold makeRequest, try_catch at 1, bind at 1, rate_limiting_layers,
    try_catch at 1.
  rewrite (tryConsume_granted _ _ Hd Hm).
  unfold bind at 1, track_usage, modify.
  set (w1 := set_minuteRateLimiter _ _).
  set (w2 := if Calendar.getDate _ (now w1) =? Calendar.getDate _ (lastReset (usage w1))
             then _ else _).
  assert (F : now w2 = now w /\ apiCache w2 = apiCache w
              /\ requests w2 = requests w
              /\ rateLimiter w2
                 = snd (RateLimiter.consume (now w) cost 1 (rateLimiter w))
              /\ minuteRateLimiter w2
                 = snd (RateLimiter.consume (now w) 1 1 (minuteRateLimiter w))).
  { subst w2 w1. destruct (_ =? _); repeat split. }
  destruct F as (Fn & Fc & Fr & Fd & Fm).
  unfold bind at 1, apiCache_get, NodeCache.get. fold key.
  rewrite Fc, Hin, Fn.
  assert (Hl : negb (t entry =? 0) && (t entry <? now w) = false).
  { destruct Hlive as [-> | Hle]; [reflexivity|].
    apply andb_false_iff. right. apply Z.ltb_ge. exact Hle. }
  rewrite Hl, Htruthy. cbn.
  eexists. split; [reflexivity|]. cbn. rewrite <- Fc. repeat split; assumption.
Qed.

End CacheFacts.

Section CacheWindow.
Import YouTubeAPIClient.

Variable apiKey : string.
Variable net : Upstream.

Lemma cacheTTL_pos endpoint : 0 < cacheTTL endpoint.
Proof. unfold cacheTTL. repeat destruct (_ || _); repeat destruct (JsString.includes _ _); lia. Qed.

(** A request that returns leaves its value in the cache: either it was
    there (a hit, nothing sent), or the request was sent and the reply
    stored for the time of its endpoint. *)
Lemma makeRequest_ok endpoint params cost w data w1 :
  makeRequest apiKey net endpoint params cost w = (Ok data, w1) ->
  let sent := set_param "key" (PStr apiKey) params in
  let key := cacheKey endpoint sent in
  (requests w1 = requests w
   /\ exists entry, apiCache w1 !! key = Some entry /\ v entry = data
                    /\ Js.truthy (Some data) = true
                    /\ (t entry = 0 \/ now w1 <= t entry))
  \/ (requests w1 = (requests w ++ [(endpoint, sent)])%list
      /\ apiCache w1 !! key
         = Some {| v := data; t := now w1 + cacheTTL endpoint * 1000 |}).
Proof.
  intros E sent key. unfold makeRequest, try_catch at 1 in E.
  fold sent in E. fold key in E. unfold bind at 1 in E.
  destruct (rate_limiting_layers cost w) as [r wa] eqn:E1.
  destruct (rate_limiting_layers_cases _ _ _ _ E1) as [(F1 & F2 & F3) [-> | ->]].
  2: { cbn in E. discriminate. }
  unfold bind at 1, track_usage, modify in E.
  set (w2 := if Calendar.getDate _ (now wa) =? Calendar.getDate _ (lastReset (usage wa))
             then _ else _) in E.
  assert (R2 : requests w2 = requests w /\ apiCache w2 = apiCache wa).
  { subst w2. destruct (_ =? _); simpl; split; auto. }
  destruct R2 as [R2 C2].
  unfold bind at 1, apiCache_get, NodeCache.get in E.
  assert (Hfetch : forall w3, requests w3 = requests w ->
            (match fetch net key endpoint sent w3 with
             | (Ok a, s') => (Ok a, s')
             | (Throw e, s') => on_error e s'
             end) = (Ok data, w1) ->
            requests w1 = (requests w ++ [(endpoint, sent)])%list
            /\ apiCache w1 !! key
               = Some {| v := data; t := now w1 + cacheTTL endpoint * 1000 |}).
  { intros w3 R3. unfold fetch, bind, axios_get, apiCache_set, modify, ret.
    destruct (net (List.length (requests w3)) endpoint sent) as [status d|m|m].
    - destruct ((200 <=? status) && (status <? 300)).
      + intros Ef. injection Ef as <- <-. cbn. rewrite R3. split; [reflexivity|].
        unfold NodeCache.set. rewrite lookup_insert_eq.
        pose proof (cacheTTL_pos endpoint).
        destruct (Z.eqb_spec (cacheTTL endpoint) 0); [lia|reflexivity].
      + cbn. discriminate.
    - cbn. discriminate.
    - cbn. discriminate. }
  destruct (apiCache w2 !! key) as [entry|] eqn:Hin.
  - destruct (negb (t entry =? 0) && (t entry <? now w2)) eqn:Hexp.
    + right. apply (Hfetch (set_apiCache (delete key (apiCache w2)) w2)); [exact R2|].
      exact E.
    + destruct (Js.truthy (Some (v entry))) eqn:Htr.
      * cbn in E. injection E as <- <-. left. cbn. split; [exact R2|].
        exists entry. repeat split; try assumption.
        apply andb_false_iff in Hexp as [H0|Hlt].
        -- left. apply negb_false_iff, Z.eqb_eq in H0. exact H0.
        -- right. apply Z.ltb_ge in Hlt. exact Hlt.
      * right. apply (Hfetch (set_apiCache (apiCache w2) w2)); [exact R2|]. exact E.
  - right. apply (Hfetch (set_apiCache (apiCache w2) w2)); [exact R2|]. exact E.
Qed.


(** With the quota granted at once and no live entry for the key, the
    upstream service is asked: the request is sent, unless it cannot be
    set up, and then the call fails with the reason. *)
Lemma makeRequest_cache_miss endpoint params cost w :
  let sent := set_param "key" (PStr apiKey) params in
  let key := cacheKey endpoint sent in
  (forall entry, apiCache w !! key = Some entry ->
                 t entry <> 0 /\ t entry < now w) ->
  RateLimiter.used (now w) cost (rateLimiter w) < points (rateLimiter w) ->
  RateLimiter.used (now w) 1 (minuteRateLimiter w)
  < points (minuteRateLimiter w) ->
  exists r w',
    makeRequest apiKey net endpoint params cost w = (r, w')
    /\ (requests w' = (requests w ++ [(endpoint, sent)])%list
        \/ exists m,
             net (List.length (requests w)) endpoint sent = SetupFailure m
             /\ r = Throw (JsError ("Request error: " ++ m))
             /\ requests w' = requests w).
Proof.
  intros sent key Hold Hd Hm.
  unfold makeRequest, try_catch at 1, bind at 1, rate_limiting_layers,
    try_catch at 1.
  rewrite (tryConsume_granted _ _ Hd Hm).
  unfold bind at 1, track_usage, modify.
  set (w1 := set_minuteRateLimiter _ _).
  set (w2 := if Calendar.getDate _ (now w1) =? Calendar.getDate _ (lastReset (usage w1))
             then _ else _).
  assert (F : now w2 = now w /\ apiCache w2 = apiCache w
              /\ requests w2 = requests w).
  { subst w2 w1. destruct (_ =? _); repeat split. }
  destruct F as (Fn & Fc & Fr).
  unfold bind at 1, apiCache_get, NodeCache.get. fold sent. fold key.
  rewrite Fc, Fn.
  assert (Hfetch : forall w3, requests w3 = requests w ->
            exists r w',
              (match fetch net key endpoint sent w3 with
               | (Ok a, s') => (Ok a, s')
               | (Throw e, s') => on_error e s'
               end) = (r, w')
              /\ (requests w' = (requests w ++ [(endpoint, sent)])%list
                  \/ exists m,
                       net (List.length (requests w)) endpoint sent = SetupFailure m
                       /\ r = Throw (JsError ("Request error: " ++ m))
                       /\ requests w' = requests w)).
  { intros w3 R3. unfold fetch, bind, axios_get, apiCache_set, modify, ret.
    rewrite R3.
    destruct (net (List.length (requests w)) endpoint sent) as [status d|m|m] eqn:En.
    - destruct ((200 <=? status) && (status <? 300));
        eexists; eexists; (split; [reflexivity|]); left; cbn; now rewrite ?R3.
    - eexists. eexists. split; [reflexivity|]. left. cbn. now rewrite ?R3.
    - eexists. eexists. split; [reflexivity|]. right. exists m. cbn.
      repeat split. exact R3. }
  destruct (apiCache w !! key) as [entry|] eqn:Hin.
  - destruct (Hold entry eq_refl) as [Hne Hlt].
    assert (Hexp : negb (t entry =? 0) && (t entry <? now w) = true).
    { apply andb_true_iff. split.
      - apply negb_true_iff, Z.eqb_neq. exact Hne.
      - apply Z.ltb_lt. exact Hlt. }
    rewrite Hexp. apply Hfetch. exact Fr.
  - apply Hfetch. exact Fr.
Qed.

(** The cache, over two identical requests with the quota granted: when
    the first was sent and answered, a second one made [dt] ms later
    returns the same value without a request as long as [dt] is within the
    time the endpoint is cached for (300 s when its name contains [/search]
    or [/videos], else 1800 s when it contains [/channels], else 600 s),
    and finds nothing in the cache once that time has passed: the request
    is then sent again, unless it cannot be set up, in which case the call
    fails and nothing is sent. *)
Theorem cache_window endpoint params cost w data w1 dt :
  let sent := set_param "key" (PStr apiKey) params in
  let seconds :=
    if JsString.includes endpoint "/search" || JsString.includes endpoint "/videos"
    then 300
    else if JsString.includes endpoint "/channels" then 1800
    else 600 in
  makeRequest apiKey net endpoint params cost w = (Ok data, w1) ->
  requests w1 = (requests w ++ [(endpoint, sent)])%list ->
  Js.truthy (Some data) = true ->
  0 <= now w1 ->
  0 <= dt ->
  let w2 := set_now (now w1 + dt) w1 in
  RateLimiter.used (now w2) cost (rateLimiter w2) < points (rateLimiter w2) ->
  RateLimiter.used (now w2) 1 (minuteRateLimiter w2)
  < points (minuteRateLimiter w2) ->
  (dt <= seconds * 1000 ->
   exists w3, makeRequest apiKey net endpoint params cost w2 = (Ok data, w3)
              /\ requests w3 = requests w1)
  /\ (seconds * 1000 < dt ->
      exists r w3,
        makeRequest apiKey net endpoint params cost w2 = (r, w3)
        /\ (requests w3 = (requests w1 ++ [(endpoint, sent)])%list
            \/ exists m,
                 net (List.length (requests w1)) endpoint sent = SetupFailure m
                 /\ r = Throw (JsError ("Request error: " ++ m))
                 /\ requests w3 = requests w1)).
Proof.
  intros sent seconds E Hsent Htr Hnow Hdt w2 Hd Hm.
  change seconds with (cacheTTL endpoint).
  destruct (makeRequest_ok _ _ _ _ _ _ E) as [[Hsame _] | [_ Hentry]].
  { exfalso. rewrite Hsame in Hsent.
    apply (f_equal (@List.length _)) in Hsent.
    rewrite List.length_app in Hsent. simpl in Hsent. lia. }
  fold sent in Hentry. pose proof (cacheTTL_pos endpoint) as Hpos. split.
  - intros Hin.
    assert (Hlive : t {| v := data; t := now w1 + cacheTTL endpoint * 1000 |} = 0
                    \/ now w2 <= t {| v := data; t := now w1 + cacheTTL endpoint * 1000 |}).
    { right. unfold w2. cbn. lia. }
    destruct (makeRequest_cache_hit apiKey net endpoint params cost w2
                {| v := data; t := now w1 + cacheTTL endpoint * 1000 |}
                Hentry Hlive Htr Hd Hm)
      as (w3 & E3 & R3 & _).
    exists w3. split; [exact E3 | exact R3].
  - intros Hout.
    apply (makeRequest_cache_miss endpoint params cost w2); try assumption.
    intros entry Hin. unfold w2 in Hin. cbn in Hin. fold sent in Hin.
    rewrite Hentry in Hin. injection Hin as <-. unfold w2. cbn.
    lia.
Qed.

End CacheWindow.

(** [cache_window], at work: a search made again exactly five minutes
    after its reply was cached is answered from the cache, and one ms
    later it is sent again. *)
Lemma cache_window_witness :
  let request :=
    YouTubeAPIClient.makeRequest Scenario.apiKey
      (Scenario.always (Http 200 Scenario.items_reply))
      "/search" Scenario.channel_params 1 in
  let w1 := snd (request Scenario.start) in
  (exists w3,
      request (set_now (now w1 + 300000) w1) = (Ok Scenario.items_reply, w3)
      /\ requests w3 = requests w1)
  /\ List.length (requests (snd (request (set_now (now w1 + 300001) w1)))) = 2%nat.
Proof.
  intros request w1. split.
  - refine (proj1 (cache_window Scenario.apiKey
                     (Scenario.always (Http 200 Scenario.items_reply))
                     "/search" Scenario.channel_params 1 Scenario.start
                     Scenario.items_reply _ 300000 _ _ _ _ _ _ _) _).
    + vm_compute. reflexivity.
    + vm_compute. reflexivity.
    + reflexivity.
    + vm_compute. discriminate.
    + lia.
    + vm_compute. reflexivity.
    + vm_compute. reflexivity.
    + vm_compute. discriminate.
  - vm_compute. reflexivity.
Defined.

(** C1, where the code leaves the claim.  A first request is sent and its
    reply cached; the same request is made again at once.  It returns the
    cached reply and sends nothing, but the daily limiter and the limiter
    of the minute both count it: [makeRequest] runs its quota code (lines
    46 to 62) before it looks into the cache (lines 75 to 81).  With the
    count of the minute at its limit, the same request is refused although
    its reply is in the cache. *)
Theorem C1_cache_hit_charges_quota :
  let request :=
    YouTubeAPIClient.makeRequest Scenario.apiKey
      (Scenario.always (Http 200 Scenario.items_reply))
      "/channels" Scenario.channel_params 1 in
  let first := request Scenario.start in
  let second := request (snd first) in
  let third :=
    request (set_minuteRateLimiter
               {| points := 100; duration := 60;
                  storage := {[ 1 := {| consumed := 100; expiresAt := 50000 |} ]} |}
               (snd first)) in
  fst first = Ok Scenario.items_reply
  /\ List.length (requests (snd first)) = 1%nat
  /\ fst second = Ok Scenario.items_reply
  /\ requests (snd second) = requests (snd first)
  /\ RateLimiter.used (now (snd first)) 1 (rateLimiter (snd first)) = 1
  /\ RateLimiter.used (now (snd second)) 1 (rateLimiter (snd second)) = 2
  /\ RateLimiter.used (now (snd first)) 1 (minuteRateLimiter (snd first)) = 1
  /\ RateLimiter.used (now (snd second)) 1 (minuteRateLimiter (snd second)) = 2
  /\ fst third
     = Throw (JsError "Request error: Rate limit exceeded. Please try again later.").
Proof. vm_compute. repeat split; reflexivity. Qed.

(** ** The job queue *)

Section MonadFacts.
Context {S A B : Type}.

Lemma bind_ok (m : M S A) (k : A -> M S B) s a s1 :
  m s = (Ok a, s1) -> bind m k s = k a s1.
Proof. intros E. unfold bind. now rewrite E. Qed.

Lemma bind_throw (m : M S A) (k : A -> M S B) s e s1 :
  m s = (Throw e, s1) -> bind m k s = (Throw e, s1).
Proof. intros E. unfold bind. now rewrite E. Qed.

Lemma try_ok (m : M S A) h s a s1 :
  m s = (Ok a, s1) -> try_catch m h s = (Ok a, s1).
Proof. intros E. unfold try_catch. now rewrite E. Qed.

Lemma try_throw (m : M S A) h s e s1 :
  m s = (Throw e, s1) -> try_catch m h s = h e s1.
Proof. intros E. unfold try_catch. now rewrite E. Qed.

End MonadFacts.

Section JobRowFacts.
Import JobQueue.

(** The services do not touch the table of jobs. *)
Lemma on_env_frame {A} (m : M Env A) s :
  exists r s', on_env m s = (r, s')
               /\ job_queue s' = job_queue s /\ written s' = written s.
Proof.
  unfold on_env. destruct (m (env s)) as [r e]. eexists. eexists.
  split; [reflexivity|]. split; reflexivity.
Qed.

Lemma update_row_present i f wr s :
  is_Some (job_queue s !! i) ->
  written (update_row i f wr s) = (written s ++ [(i, wr)])%list
  /\ is_Some (job_queue (update_row i f wr s) !! i).
Proof.
  intros [row Hrow]. unfold update_row. rewrite Hrow. cbn.
  split; [reflexivity|]. rewrite lookup_insert_eq. eauto.
Qed.

Lemma updateJobStatus_present i st msg s :
  st <> pending -> is_Some (job_queue s !! i) ->
  exists s', updateJobStatus i st msg s = (Ok tt, s')
             /\ written s' = (written s ++ [(i, SetStatus st)])%list
             /\ is_Some (job_queue s' !! i).
Proof.
  intros Hst Hrow. unfold updateJobStatus, modify. eexists.
  split; [reflexivity|].
  destruct st; [congruence| | |]; apply update_row_present; exact Hrow.
Qed.

Lemma updateJobProgress_present i p s :
  is_Some (job_queue s !! i) ->
  exists s', updateJobProgress i p s = (Ok tt, s')
             /\ written s' = (written s ++ [(i, SetProgress p)])%list
             /\ is_Some (job_queue s' !! i).
Proof.
  intros Hrow. unfold updateJobProgress, modify. eexists.
  split; [reflexivity|]. apply update_row_present; exact Hrow.
Qed.

End JobRowFacts.

Section ProcessorFacts.
Import JobQueue.

(** The [catch] of a processor: the row is marked failed and the error
    goes on to the scheduler as it came. *)
Lemma processor_catch i (e : Exn) s :
  is_Some (job_queue s !! i) ->
  exists s',
    bind (updateJobStatus i failed (error_text e))
      (fun _ => throw (A := JobReturn) e) s = (Throw e, s')
    /\ written s' = (written s ++ [(i, SetStatus failed)])%list
    /\ is_Some (job_queue s' !! i).
Proof.
  intros H.
  destruct (updateJobStatus_present i failed (error_text e) s
              ltac:(discriminate) H) as (s' & E & W & H').
  exists s'. rewrite (bind_ok _ _ _ _ _ E). repeat split; assumption.
Qed.

Lemma new_client_ok s :
  exists s', on_env (on_world new_YouTubeAPIClient) s = (Ok tt, s')
             /\ job_queue s' = job_queue s /\ written s' = written s.
Proof. eexists. split; [reflexivity|]. split; reflexivity. Qed.

(** One run of the processor of channel jobs, read off the row. *)
Lemma process_fetchChannel_run new_client job s :
  is_Some (job_queue s !! id job) ->
  exists r s' new,
    process_fetchChannel new_client job s = (r, s')
    /\ written s' = (written s ++ List.map (pair (id job)) new)%list
    /\ is_Some (job_queue s' !! id job)
    /\ (if returned r then completed_run new else failed_run new).
Proof.
  intros H0. unfold process_fetchChannel.
  destruct (updateJobStatus_present (id job) started None s
              ltac:(discriminate) H0) as (s1 & E1 & W1 & H1).
  rewrite (bind_ok _ _ _ _ _ E1).
  destruct (new_client_ok s1) as (s2 & E2 & Q2 & W2).
  assert (H2 : is_Some (job_queue s2 !! id job)) by (rewrite Q2; exact H1).
  unfold try_catch. rewrite (bind_ok _ _ _ _ _ E2).
  destruct (on_env_frame
              (YouTubeChannelService.fetchAndStoreChannel
                 (new_client (d_apiKey (data job))) (d_channelId (data job))) s2)
    as (r3 & s3 & E3 & Q3 & W3).
  assert (H3 : is_Some (job_queue s3 !! id job)) by (rewrite Q3; exact H2).
  destruct r3 as [channelData|e].
  - rewrite (bind_ok _ _ _ _ _ E3).
    destruct (updateJobProgress_present (id job) 50 s3 H3) as (s4 & E4 & W4 & H4).
    rewrite (bind_ok _ _ _ _ _ E4).
    destruct (on_env_frame
                (YouTubeChannelService.fetchChannelVideosPaginated
                   (new_client (d_apiKey (data job))) (d_channelId (data job)) 5) s4)
      as (r5 & s5 & E5 & Q5 & W5).
    assert (H5 : is_Some (job_queue s5 !! id job)) by (rewrite Q5; exact H4).
    destruct r5 as [videos|e].
    + rewrite (bind_ok _ _ _ _ _ E5).
      destruct (updateJobProgress_present (id job) 100 s5 H5) as (s6 & E6 & W6 & H6).
      rewrite (bind_ok _ _ _ _ _ E6).
      destruct (updateJobStatus_present (id job) completed None s6
                  ltac:(discriminate) H6) as (s7 & E7 & W7 & H7).
      rewrite (bind_ok _ _ _ _ _ E7). unfold ret.
      eexists. exists s7.
      exists [SetStatus started; SetProgress 50; SetProgress 100; SetStatus completed].
      split; [reflexivity|]. split; [|split; [exact H7 | left; reflexivity]].
      rewrite W7, W6, W5, W4, W3, W2, W1, <- !List.app_assoc. reflexivity.
    + rewrite (bind_throw _ _ _ _ _ E5).
      destruct (processor_catch (id job) e s5 H5) as (s6 & E6 & W6 & H6).
      rewrite E6. eexists. exists s6.
      exists [SetStatus started; SetProgress 50; SetStatus failed].
      split; [reflexivity|]. split; [|split; [exact H6 | right; reflexivity]].
      rewrite W6, W5, W4, W3, W2, W1, <- !List.app_assoc. reflexivity.
  - rewrite (bind_throw _ _ _ _ _ E3).
    destruct (processor_catch (id job) e s3 H3) as (s4 & E4 & W4 & H4).
    rewrite E4. eexists. exists s4. exists [SetStatus started; SetStatus failed].
    split; [reflexivity|]. split; [|split; [exact H4 | left; reflexivity]].
    rewrite W4, W3, W2, W1, <- !List.app_assoc. reflexivity.
Qed.

(** One run of the processor of video jobs: it fails, always. *)
Lemma process_fetchVideos_run method job s :
  is_Some (job_queue s !! id job) ->
  exists s',
    process_fetchVideos method job s
    = (Throw (JsTypeError
                "this.client.fetchChannelVideosPaginated is not a function"), s')
    /\ written s'
       = (written s ++ List.map (pair (id job))
                         [SetStatus started; SetStatus failed])%list
    /\ is_Some (job_queue s' !! id job).
Proof.
  intros H0. unfold process_fetchVideos.
  destruct (updateJobStatus_present (id job) started None s
              ltac:(discriminate) H0) as (s1 & E1 & W1 & H1).
  rewrite (bind_ok _ _ _ _ _ E1).
  destruct (new_client_ok s1) as (s2 & E2 & Q2 & W2).
  assert (H2 : is_Some (job_queue s2 !! id job)) by (rewrite Q2; exact H1).
  unfold try_catch. rewrite (bind_ok _ _ _ _ _ E2).
  assert (E3 : on_env (YouTubeVideoService.fetchAndStoreChannelVideos method
                         (d_channelId (data job))
                         (maxPages_or_5 (d_maxPages (data job)))) s2
               = (Throw (JsTypeError
                    "this.client.fetchChannelVideosPaginated is not a function"),
                  s2)).
  { unfold on_env. rewrite video_service_fetch. destruct s2; reflexivity. }
  rewrite (bind_throw _ _ _ _ _ E3).
  destruct (processor_catch (id job)
              (JsTypeError "this.client.fetchChannelVideosPaginated is not a function")
              s2 H2) as (s4 & E4 & W4 & H4).
  rewrite E4. exists s4. split; [reflexivity|]. split; [|exact H4].
  rewrite W4, W2, W1, <- !List.app_assoc. reflexivity.
Qed.

End ProcessorFacts.

Section BullFacts.

Variable process : Job -> M Sys JobReturn.

Lemma sleep_frame ms s :
  exists s', Bull.sleep ms s = (Ok tt, s')
             /\ job_queue s' = job_queue s /\ written s' = written s.
Proof. eexists. split; [reflexivity|]. split; reflexivity. Qed.

(** The runs of a job with three attempts: a run that throws is followed
    by the next one, whatever it threw, until the third. *)
Lemma work_three job s :
  attempts (opts job) = 3 -> attemptsMade job = 0 ->
  Bull.work process job s
  = try_catch (process job)
      (fun _ =>
         Bull.sleep (Bull.backoff (opts job) 1) ;;
         try_catch (process (Bull.with_attemptsMade 1 job))
           (fun _ =>
              Bull.sleep (Bull.backoff (opts job) 2) ;;
              process (Bull.with_attemptsMade 2 job))) s.
Proof.
  intros Ha Hm. unfold Bull.work. rewrite Ha.
  change (Z.to_nat 3) with 3%nat. cbn [Bull.run].
  destruct (process job s) as [[ret|e1] s1] eqn:E1.
  { now rewrite !(try_ok _ _ _ _ _ E1). }
  rewrite !(try_throw _ _ _ _ _ E1). rewrite Hm, Ha.
  change (0 + 1 <? 3) with true. cbv iota.
  change (0 + 1) with 1.
  destruct (Bull.sleep (Bull.backoff (opts job) 1) s1) as [[[]|e] s2] eqn:Es1.
  2: { now rewrite !(bind_throw _ _ _ _ _ Es1). }
  rewrite !(bind_ok _ _ _ _ _ Es1).
  destruct (process (Bull.with_attemptsMade 1 job) s2) as [[ret|e2] s3] eqn:E2.
  { now rewrite !(try_ok _ _ _ _ _ E2). }
  rewrite !(try_throw _ _ _ _ _ E2).
  cbn [attemptsMade opts Bull.with_attemptsMade]. rewrite Ha.
  change (1 + 1 <? 3) with true. cbv iota.
  change (1 + 1) with 2.
  destruct (Bull.sleep (Bull.backoff (opts job) 2) s3) as [[[]|e] s4] eqn:Es2.
  2: { now rewrite !(bind_throw _ _ _ _ _ Es2). }
  rewrite !(bind_ok _ _ _ _ _ Es2).
  destruct (process (Bull.with_attemptsMade 2 job) s4) as [[ret|e3] s5] eqn:E3.
  { now rewrite !(try_ok _ _ _ _ _ E3). }
  rewrite !(try_throw _ _ _ _ _ E3).
  cbn [attemptsMade opts Bull.with_attemptsMade]. rewrite ?Ha. reflexivity.
Qed.

Hypothesis process_run :
  forall job s,
    is_Some (job_queue s !! id job) ->
    exists r s' new,
      process job s = (r, s')
      /\ written s' = (written s ++ List.map (pair (id job)) new)%list
      /\ is_Some (job_queue s' !! id job)
      /\ (if returned r then completed_run new else failed_run new).

(** The writes of a job over its runs. *)
Lemma work_runs job s :
  attempts (opts job) = 3 -> attemptsMade job = 0 ->
  is_Some (job_queue s !! id job) ->
  exists r s' runs,
    Bull.work process job s = (r, s')
    /\ written s' = (written s ++ List.map (pair (id job)) (List.concat runs))%list
    /\ runs_of_job (returned r) runs
    /\ (List.length runs <= 3)%nat
    /\ (returned r = false -> List.length runs = 3%nat).
Proof.
  intros Ha Hm H0. rewrite (work_three job s Ha Hm).
  destruct (process_run job s H0) as (r1 & s1 & n1 & E1 & W1 & H1 & R1).
  unfold try_catch at 1. rewrite E1. destruct r1 as [ret|e1].
  { exists (Ok ret), s1, [n1]. simpl. rewrite List.app_nil_r.
    repeat split; try assumption; try lia; try discriminate. }
  destruct (sleep_frame (Bull.backoff (opts job) 1) s1) as (s1' & Es & Q1 & V1).
  rewrite (bind_ok _ _ _ _ _ Es).
  destruct (process_run (Bull.with_attemptsMade 1 job) s1'
              ltac:(rewrite Q1; exact H1))
    as (r2 & s2 & n2 & E2 & W2 & H2 & R2).
  cbn [id Bull.with_attemptsMade] in W2, H2.
  unfold try_catch at 1. rewrite E2. destruct r2 as [ret|e2].
  { exists (Ok ret), s2, [n1; n2]. simpl. rewrite List.app_nil_r.
    split; [reflexivity|]. split.
    { rewrite W2, V1, W1, List.map_app, List.app_assoc. reflexivity. }
    repeat split; try assumption; try lia; try discriminate. }
  destruct (sleep_frame (Bull.backoff (opts job) 2) s2) as (s2' & Es' & Q2 & V2).
  rewrite (bind_ok _ _ _ _ _ Es').
  destruct (process_run (Bull.with_attemptsMade 2 job) s2'
              ltac:(rewrite Q2; exact H2))
    as (r3 & s3 & n3 & E3 & W3 & H3 & R3).
  cbn [id Bull.with_attemptsMade] in W3, H3.
  rewrite E3. exists r3, s3, [n1; n2; n3]. simpl. rewrite List.app_nil_r.
  split; [reflexivity|]. split.
  { rewrite W3, V2, W2, V1, W1, !List.map_app, <- !List.app_assoc. reflexivity. }
  split; [|split; [lia | reflexivity]].
  simpl in R1, R2. split; [exact R1|]. split; [exact R2|]. exact R3.
Qed.

End BullFacts.

(** The statuses and the progress values a job's runs write. *)
Lemma runs_history b runs :
  runs_of_job b runs -> (List.length runs <= 3)%nat ->
  (b = false -> List.length runs = 3%nat) ->
  let ws := List.concat runs in
  (if b
   then statuses ws = [started; completed]
        \/ statuses ws = [started; failed; started; completed]
        \/ statuses ws = [started; failed; started; failed; started; completed]
   else statuses ws = [started; failed; started; failed; started; failed])
  /\ nondecreasing (progresses ws)
  /\ List.Forall (fun p => p = 50 \/ p = 100) (progresses ws).
Proof.
  intros R Hlen Hthree.
  destruct runs as [|n1 [|n2 [|n3 [|n4 rest]]]]; simpl in Hlen; try lia;
    simpl in R; destruct b; try (specialize (Hthree eq_refl); simpl in Hthree; lia);
    unfold completed_run, failed_run in R;
    repeat match goal with
           | H : _ /\ _ |- _ => destruct H
           | H : _ \/ _ |- _ => destruct H
           | H : False |- _ => destruct H
           end; subst; simpl;
    (split; [tauto|]); (split; [repeat split; lia|]);
    repeat (apply List.Forall_cons; [lia|]); apply List.Forall_nil.
Qed.

Lemma writes_of_own i ws : writes_of i (List.map (pair i) ws) = ws.
Proof.
  unfold writes_of. induction ws as [|x ws IH]; [reflexivity|].
  simpl. rewrite Z.eqb_refl. simpl. now rewrite IH.
Qed.

Lemma added_channel_job channelId priority apiKey s :
  exists job s',
    JobQueue.addChannelFetchJob channelId priority apiKey s = (Ok job, s')
    /\ opts job = JobQueue.job_opts priority /\ attemptsMade job = 0
    /\ (status <$> job_queue s' !! job_serial s) = Some pending.
Proof.
  eexists. eexists. split; [reflexivity|]. cbn. repeat split.
  now rewrite lookup_insert_eq.
Qed.

Lemma added_video_job channelId maxPages priority apiKey s :
  exists job s',
    JobQueue.addVideoFetchJob channelId maxPages priority apiKey s = (Ok job, s')
    /\ opts job = JobQueue.job_opts priority /\ attemptsMade job = 0
    /\ (status <$> job_queue s' !! job_serial s) = Some pending.
Proof.
  eexists. eexists. split; [reflexivity|]. cbn. repeat split.
  now rewrite lookup_insert_eq.
Qed.

(** ** A duration that cannot be decoded *)

Section UndecodedFacts.
Import JsString Decoders Token.

Lemma span_digits_digits s d r :
  span_digits s = (d, r) -> all_digits d = true.
Proof.
  revert d r. induction s as [|c s IH]; intros d r; simpl.
  - intros E. injection E as <- _. reflexivity.
  - destruct (is_digit c) eqn:Hc.
    + destruct (span_digits s) as [d' r'] eqn:Es. intros E. injection E as <- _.
      simpl. rewrite Hc. exact (IH _ _ eq_refl).
    + intros E. injection E as <- _. reflexivity.
Qed.

(** What a group captures is a number written in digits. *)
Lemma opt_group_number u s o r : opt_group u s = (o, r) -> number o.
Proof.
  unfold opt_group. destruct (span_digits s) as [d rest] eqn:Es.
  pose proof (span_digits_digits _ _ _ Es) as Hd.
  destruct d as [|c d]; [intros E; injection E as <- _; exact I|].
  destruct rest as [|x rest]; [intros E; injection E as <- _; exact I|].
  destruct (Ascii.eqb x u); intros E; injection E as <- _; [|exact I].
  split; [discriminate | exact Hd].
Qed.

Lemma groups_number r h m s :
  groups r = (h, m, s) -> number h /\ number m /\ number s.
Proof.
  unfold groups.
  destruct (opt_group "H" r) as [h' r1] eqn:E1.
  destruct (opt_group "M" r1) as [m' r2] eqn:E2.
  destruct (opt_group "S" r2) as [s' r3] eqn:E3.
  intros E. injection E as <- <- <-.
  split; [|split]; eapply opt_group_number; eassumption.
Qed.

Lemma regex_match_number str h m s :
  regex_match str = Some (h, m, s) -> number h /\ number m /\ number s.
Proof.
  induction str as [|c str IH]; cbn [regex_match].
  - simpl. discriminate.
  - destruct (strip_prefix "PT" (String c str)) as [r|].
    + intros E. injection E as E. exact (groups_number _ _ _ _ E).
    + exact IH.
Qed.

(** The decoder never gives a negative number of seconds. *)
Lemma parseDuration_nonneg str : 0 <= parseDuration str.
Proof.
  unfold parseDuration. destruct (regex_match str) as [[[h m] s]|] eqn:E; [|lia].
  destruct (regex_match_number _ _ _ _ E) as (Hh & Hm & Hs).
  rewrite !or_zero_parseInt by assumption.
  apply int_nonneg.
  pose proof (int_nonneg _ (value_nonneg h Hh)).
  pose proof (int_nonneg _ (value_nonneg m Hm)).
  pose proof (int_nonneg _ (value_nonneg s Hs)).
  assert (0 <= Double.times (Double.int (value h)) 3600)
    by (apply int_nonneg; lia).
  assert (0 <= Double.times (Double.int (value m)) 60)
    by (apply int_nonneg; lia).
  assert (0 <= Double.plus (Double.times (Double.int (value h)) 3600)
                           (Double.times (Double.int (value m)) 60))
    by (apply int_nonneg; lia).
  lia.
Qed.

End UndecodedFacts.

(** A duration in which [PT] does not occur is decoded to zero seconds,
    and the video is then classified as a Short whatever its category and
    its tags: so are a video of a day or more, whose duration has the form
    [P1DT2H], and a live stream, whose duration is [P0D]. *)
Theorem undecoded_duration_is_short
    (iso : string) (categoryId : option string) (tags : option (list string)) :
  JsString.includes iso "PT" = false ->
  Decoders.parseDuration iso = 0
  /\ Decoders.isShort categoryId (Decoders.parseDuration iso) tags = true.
Proof.
  intros H. rewrite (parseDuration_no_PT iso H). split; reflexivity.
Qed.

(** [undecoded_duration_is_short], at work: a video of twenty six hours
    in the category 10. *)
Lemma undecoded_duration_is_short_witness :
  Decoders.parseDuration "P1DT2H" = 0
  /\ Decoders.isShort (Some "10") (Decoders.parseDuration "P1DT2H") (Some []) = true.
Proof.
  apply (undecoded_duration_is_short "P1DT2H" (Some "10") (Some [])).
  reflexivity.
Defined.

(** ** The helpers of utils/analytics.js *)

Section HelperFacts.
Import AnalyticsHelpers.

Lemma helper_tag_test ts :
  existsb (fun tag => JsString.includes (JsString.toLowerCase tag) "short"
                      || JsString.includes (JsString.toLowerCase tag) "shorts") ts
  = Decoders.has_short_tag (Some ts).
Proof. unfold Decoders.has_short_tag. apply tag_test_eq. Qed.

End HelperFacts.

(** The helper [isShort] of utils/analytics.js against [isShort] of the
    client, on a row with no stored flag and a duration [d]: the two agree
    unless [d] is 0 or 61; whatever the helper takes for a Short the client
    does too; and a video of 0 or of 61 seconds with no tag that names a
    Short, outside the category 23, is a Short for the client and none for
    the helper.  A stored flag is returned as it is. *)
Theorem helper_isShort_and_client (v : AnalyticsHelpers.video) (d : Z) :
  AnalyticsHelpers.duration_seconds v = Some d ->
  AnalyticsHelpers.categoryId v = None ->
  let client := Decoders.isShort (AnalyticsHelpers.category_id v) d
                  (AnalyticsHelpers.tags v) in
  (forall flag, AnalyticsHelpers.is_short v = Some flag ->
                AnalyticsHelpers.isShort v = flag)
  /\ (AnalyticsHelpers.is_short v = None ->
      (d <> 0 -> d <> 61 -> AnalyticsHelpers.isShort v = client)
      /\ (AnalyticsHelpers.isShort v = true -> client = true)
      /\ (d = 0 \/ d = 61 ->
          Decoders.has_short_tag (AnalyticsHelpers.tags v) = false ->
          AnalyticsHelpers.category_id v <> Some "23" ->
          AnalyticsHelpers.isShort v = false /\ client = true)).
Proof.
  intros Hd Hc client. split.
  { intros flag Hf. unfold AnalyticsHelpers.isShort. now rewrite Hf. }
  intros Hf. subst client.
  unfold AnalyticsHelpers.isShort, Decoders.isShort. rewrite Hf, Hd, Hc.
  assert (Ht : match AnalyticsHelpers.tags v with
               | Some ts =>
                   existsb (fun tag =>
                              JsString.includes (JsString.toLowerCase tag) "short"
                              || JsString.includes (JsString.toLowerCase tag) "shorts") ts
               | None => false
               end = Decoders.has_short_tag (AnalyticsHelpers.tags v)).
  { destruct (AnalyticsHelpers.tags v) as [ts|]; [apply helper_tag_test | reflexivity]. }
  rewrite Ht. clear Ht. cbn [Decoders.strict_eq]. rewrite orb_false_r.
  assert (Hcat : Decoders.strict_eq (AnalyticsHelpers.category_id v) "23" = true
                 <-> AnalyticsHelpers.category_id v = Some "23").
  { destruct (AnalyticsHelpers.category_id v) as [c|]; cbn; [|split; discriminate].
    rewrite String.eqb_eq. split; congruence. }
  set (t := Decoders.has_short_tag (AnalyticsHelpers.tags v)) in *.
  set (c := Decoders.strict_eq (AnalyticsHelpers.category_id v) "23") in *.
  assert (Hc' : AnalyticsHelpers.category_id v <> Some "23" -> c = false).
  { intros Hne. destruct c; [|reflexivity]. exfalso. apply Hne, Hcat. reflexivity. }
  clearbody t c.
  destruct (Z.eqb_spec d 0) as [E0|N0]; cbn [negb andb].
  - subst d. cbn. split; [intros H; congruence|]. split.
    + destruct t, c; reflexivity.
    + intros _ Htag Hne. rewrite Htag, (Hc' Hne). split; reflexivity.
  - destruct (Z.leb_spec d 60) as [L|L].
    + split; [reflexivity|]. split; [reflexivity|]. intros [E|E]; lia.
    + destruct t.
      * split; [reflexivity|]. split; [reflexivity|]. intros _ H; discriminate.
      * destruct c.
        -- split; [reflexivity|]. split; [reflexivity|].
           intros _ _ Hne. specialize (Hc' Hne). discriminate.
        -- split.
           { intros _ N61. symmetry. apply Z.leb_gt. lia. }
           split; [discriminate|].
           intros [E|E] _ _; [lia|]. subst d. split; reflexivity.
Qed.

(** [helper_isShort_and_client], at work: a row of 61 seconds with no
    flag. *)
Lemma helper_isShort_and_client_witness :
  let v := {| AnalyticsHelpers.is_short := None;
              AnalyticsHelpers.duration_seconds := Some 61;
              AnalyticsHelpers.tags := Some ["music"];
              AnalyticsHelpers.category_id := Some "10";
              AnalyticsHelpers.categoryId := None |} in
  AnalyticsHelpers.isShort v = false
  /\ Decoders.isShort (Some "10") 61 (Some ["music"]) = true.
Proof.
  intros v.
  destruct (helper_isShort_and_client v 61 eq_refl eq_refl) as (_ & H).
  destruct (H eq_refl) as (_ & _ & H3).
  apply H3; [right; reflexivity | reflexivity | discriminate].
Defined.

(** A row with no stored flag that [categorizeVideoByLength] puts in the
    class [short] is a Short for the helper [isShort]; the class is
    [unknown] exactly when the duration is missing or zero, so that a video
    whose duration was decoded to zero is in no class of length while the
    client has stored it as a Short. *)
Theorem categorizeVideoByLength_and_isShort (v : AnalyticsHelpers.video) :
  (AnalyticsHelpers.categorizeVideoByLength v = "short" ->
   AnalyticsHelpers.is_short v = None ->
   AnalyticsHelpers.isShort v = true)
  /\ (AnalyticsHelpers.categorizeVideoByLength v = "unknown"
      <-> AnalyticsHelpers.duration_seconds v = None
          \/ AnalyticsHelpers.duration_seconds v = Some 0)
  /\ (forall d, AnalyticsHelpers.duration_seconds v = Some d -> d <> 0 ->
        (AnalyticsHelpers.categorizeVideoByLength v = "short" <-> d <= 60)
        /\ (AnalyticsHelpers.categorizeVideoByLength v = "medium" <-> 60 < d <= 300)
        /\ (AnalyticsHelpers.categorizeVideoByLength v = "long" <-> 300 < d <= 600)
        /\ (AnalyticsHelpers.categorizeVideoByLength v = "extended" <-> 600 < d)).
Proof.
  unfold AnalyticsHelpers.categorizeVideoByLength, AnalyticsHelpers.isShort.
  destruct (AnalyticsHelpers.duration_seconds v) as [d|].
  2: { split; [discriminate|]. split; [split; auto|]. intros d H; discriminate. }
  destruct (Z.eqb_spec d 0) as [E0|N0].
  { subst d. split; [discriminate|]. split; [split; auto|].
    intros d H. injection H as <-. congruence. }
  cbn [negb andb].
  destruct (Z.leb_spec d 60) as [L1|L1].
  { split; [intros _ ->; reflexivity|].
    split; [split; [discriminate | intros [H|H]; congruence]|].
    intros d' H Hn. injection H as <-.
    repeat split; try discriminate; try lia; intros; lia. }
  split.
  { destruct (d <=? 300); [discriminate|]. destruct (d <=? 600); discriminate. }
  split.
  { split; [|intros [H|H]; congruence].
    destruct (d <=? 300); [discriminate|]. destruct (d <=? 600); discriminate. }
  intros d' H Hn. injection H as <-.
  destruct (Z.leb_spec d 300) as [L2|L2].
  { repeat split; try discriminate; try lia; intros; lia. }
  destruct (Z.leb_spec d 600) as [L3|L3];
    repeat split; try discriminate; try lia; intros; lia.
Qed.

(** ** What a request leaves behind *)

Section RequestSteps.
Import YouTubeAPIClient.

Lemma rate_limiting_layers_clock cost w r w1 :
  rate_limiting_layers cost w = (r, w1) ->
  now w1 = now w \/ now w1 = now w + 5000.
Proof.
  unfold rate_limiting_layers, try_catch at 1. intros E.
  destruct (tryConsume cost w) as [[[]|e1] wa] eqn:E1;
    destruct (tryConsume_frame _ _ _ _ E1) as [_ [N1 _]].
  - injection E as _ <-. left. exact N1.
  - unfold bind, delay, modify, try_catch, throw in E.
    destruct (tryConsume cost (set_now (now wa + 5000) wa)) as [[[]|e2] wb] eqn:E2;
      destruct (tryConsume_frame _ _ _ _ E2) as [_ [N2 _]];
      injection E as _ <-; right; rewrite N2; simpl; lia.
Qed.

Lemma rate_limiting_layers_tza cost w r w1 :
  rate_limiting_layers cost w = (r, w1) -> localTZA w1 = localTZA w.
Proof.
  unfold rate_limiting_layers, try_catch at 1. intros E.
  destruct (tryConsume cost w) as [[[]|e1] wa] eqn:E1;
    destruct (tryConsume_frame _ _ _ _ E1) as [_ [_ T1]].
  - injection E as _ <-. exact T1.
  - unfold bind, delay, modify, try_catch, throw in E.
    destruct (tryConsume cost (set_now (now wa + 5000) wa)) as [[[]|e2] wb] eqn:E2;
      destruct (tryConsume_frame _ _ _ _ E2) as [_ [_ T2]];
      injection E as _ <-; rewrite T2; simpl; exact T1.
Qed.

Variable apiKey : string.
Variable net : Upstream.

Lemma on_error_throws error w :
  exists e, on_error error w = (Throw e, w).
Proof.
  unfold on_error, throw.
  destruct error as [m|m|[[status data]|] [] m|n]; eexists; reflexivity.
Qed.

(** [makeRequest], step by step. *)
Lemma makeRequest_steps endpoint params cost w :
  let sent := set_param "key" (PStr apiKey) params in
  let key := cacheKey endpoint sent in
  makeRequest apiKey net endpoint params cost w
  = match rate_limiting_layers cost w with
    | (Throw e, w1) => on_error e w1
    | (Ok _, w1) =>
        let w2 := snd (track_usage w1) in
        let got := NodeCache.get (now w2) key (apiCache w2) in
        let w3 := set_apiCache (snd got) w2 in
        match (if Js.truthy (fst got) then fst got else None) with
        | Some hit => (Ok hit, w3)
        | None =>
            match axios_get net endpoint sent w3 with
            | (Ok data, w4) =>
                (Ok data,
                 set_apiCache
                   (NodeCache.set (now w4) key data (cacheTTL endpoint) (apiCache w4))
                   w4)
            | (Throw e, w4) => on_error e w4
            end
        end
    end.
Proof.
  intros sent key. unfold makeRequest, try_catch at 1. fold sent. fold key.
  unfold bind at 1.
  destruct (rate_limiting_layers cost w) as [[[]|e] w1]; [|reflexivity].
  unfold bind at 1, track_usage at 1, modify at 1. cbn [snd].
  unfold track_usage, modify. cbn [snd].
  set (w2 := if Calendar.getDate _ (now w1) =? Calendar.getDate _ (lastReset (usage w1))
             then _ else _).
  unfold bind at 1, apiCache_get.
  destruct (NodeCache.get (now w2) key (apiCache w2)) as [cached c]. cbn [fst snd].
  assert (F : (let (r, s1) := fetch net key endpoint sent (set_apiCache c w2) in
               match r with
               | Ok a => (Ok a, s1)
               | Throw e => on_error e s1
               end)
              = match axios_get net endpoint sent (set_apiCache c w2) with
                | (Ok data, w4) =>
                    (Ok data,
                     set_apiCache
                       (NodeCache.set (now w4) key data (cacheTTL endpoint) (apiCache w4))
                       w4)
                | (Throw e, w4) => on_error e w4
                end).
  { unfold fetch, bind.
    destruct (axios_get net endpoint sent (set_apiCache c w2)) as [[data|e] w4];
      reflexivity. }
  destruct cached as [hit|]; [destruct (Js.truthy (Some hit))|]; cbn [Js.truthy];
    try reflexivity; exact F.
Qed.

Lemma track_usage_frame w :
  let w' := snd (track_usage w) in
  now w' = now w /\ requests w' = requests w /\ apiCache w' = apiCache w
  /\ rateLimiter w' = rateLimiter w /\ minuteRateLimiter w' = minuteRateLimiter w.
Proof.
  unfold track_usage, modify. cbn [snd].
  destruct (_ =? _); repeat split.
Qed.

End RequestSteps.

Section RequestEffects.
Import YouTubeAPIClient.

Variable apiKey : string.
Variable net : Upstream.

(** The outcomes of [makeRequest]: the quota refused; a reply found in
    the cache; a reply of the upstream service, cached; a failure of the
    request. *)
Lemma makeRequest_effects endpoint params cost w :
  let sent := set_param "key" (PStr apiKey) params in
  let key := cacheKey endpoint sent in
  let out := makeRequest apiKey net endpoint params cost w in
  let q := rate_limiting_layers cost w in
  match fst q with
  | Throw _ =>
      fst out = Throw (JsError "Request error: Rate limit exceeded. Please try again later.")
      /\ snd out = snd q
  | Ok _ =>
      let w2 := snd (track_usage (snd q)) in
      now (snd out) = now w2 /\ usage (snd out) = usage w2
      /\ rateLimiter (snd out) = rateLimiter w2
      /\ minuteRateLimiter (snd out) = minuteRateLimiter w2
      /\ ((exists entry,
              apiCache w2 !! key = Some entry
              /\ Js.truthy (Some (v entry)) = true
              /\ fst out = Ok (v entry)
              /\ requests (snd out) = requests w2
              /\ apiCache (snd out) = apiCache w2)
          \/ (exists data c,
                 fst out = Ok data
                 /\ requests (snd out) = (requests w2 ++ [(endpoint, sent)])%list
                 /\ (c = apiCache w2 \/ c = delete key (apiCache w2))
                 /\ apiCache (snd out)
                    = NodeCache.set (now w2) key data (cacheTTL endpoint) c)
          \/ (exists e,
                 fst out = Throw e
                 /\ (requests (snd out) = requests w2
                     \/ requests (snd out) = (requests w2 ++ [(endpoint, sent)])%list)
                 /\ (apiCache (snd out) = apiCache w2
                     \/ apiCache (snd out) = delete key (apiCache w2))))
  end.
Proof.
  intros sent key out q. subst out q. rewrite makeRequest_steps. fold sent key.
  destruct (rate_limiting_layers cost w) as [[[]|e] w1] eqn:Eq; cbn [fst snd].
  2: { destruct (rate_limiting_layers_cases _ _ _ _ Eq) as [_ [H|H]];
         [discriminate|]. injection H as ->. split; reflexivity. }
  set (w2 := snd (track_usage w1)).
  unfold NodeCache.get.
  assert (Hmiss : forall c,
            c = apiCache w2 \/ c = delete key (apiCache w2) ->
            let res :=
              match axios_get net endpoint sent (set_apiCache c w2) with
              | (Ok data, w4) =>
                  (Ok data,
                   set_apiCache
                     (NodeCache.set (now w4) key data (cacheTTL endpoint) (apiCache w4))
                     w4)
              | (Throw e, w4) => on_error e w4
              end in
            now (snd res) = now w2 /\ usage (snd res) = usage w2
            /\ rateLimiter (snd res) = rateLimiter w2
            /\ minuteRateLimiter (snd res) = minuteRateLimiter w2
            /\ ((exists data c0,
                    fst res = Ok data
                    /\ requests (snd res) = (requests w2 ++ [(endpoint, sent)])%list
                    /\ (c0 = apiCache w2 \/ c0 = delete key (apiCache w2))
                    /\ apiCache (snd res)
                       = NodeCache.set (now w2) key data (cacheTTL endpoint) c0)
                \/ (exists e,
                       fst res = Throw e
                       /\ (requests (snd res) = requests w2
                           \/ requests (snd res)
                              = (requests w2 ++ [(endpoint, sent)])%list)
                       /\ (apiCache (snd res) = apiCache w2
                           \/ apiCache (snd res) = delete key (apiCache w2))))).
  { intros c Hc res. subst res. unfold axios_get. cbn [requests set_apiCache].
    destruct (net (List.length (requests w2)) endpoint sent) as [status data|m|m].
    - destruct ((200 <=? status) && (status <? 300)).
      + cbn. repeat split. left. exists data, c. repeat split. exact Hc.
      + cbn. repeat split. right. eexists. split; [reflexivity|].
        split; [right; reflexivity | exact Hc].
    - cbn. repeat split. right. eexists. split; [reflexivity|].
      split; [right; reflexivity | exact Hc].
    - cbn. repeat split. right. eexists. split; [reflexivity|].
      split; [left; reflexivity | exact Hc]. }
  assert (Hlift : forall c,
            c = apiCache w2 \/ c = delete key (apiCache w2) ->
            forall res,
              res = match axios_get net endpoint sent (set_apiCache c w2) with
                    | (Ok data, w4) =>
                        (Ok data,
                         set_apiCache
                           (NodeCache.set (now w4) key data (cacheTTL endpoint)
                              (apiCache w4)) w4)
                    | (Throw e, w4) => on_error e w4
                    end ->
              now (snd res) = now w2 /\ usage (snd res) = usage w2
              /\ rateLimiter (snd res) = rateLimiter w2
              /\ minuteRateLimiter (snd res) = minuteRateLimiter w2
              /\ ((exists entry,
                      apiCache w2 !! key = Some entry
                      /\ Js.truthy (Some (v entry)) = true
                      /\ fst res = Ok (v entry)
                      /\ requests (snd res) = requests w2
                      /\ apiCache (snd res) = apiCache w2)
                  \/ (exists data c0,
                         fst res = Ok data
                         /\ requests (snd res) = (requests w2 ++ [(endpoint, sent)])%list
                         /\ (c0 = apiCache w2 \/ c0 = delete key (apiCache w2))
                         /\ apiCache (snd res)
                            = NodeCache.set (now w2) key data (cacheTTL endpoint) c0)
                  \/ (exists e,
                         fst res = Throw e
                         /\ (requests (snd res) = requests w2
                             \/ requests (snd res)
                                = (requests w2 ++ [(endpoint, sent)])%list)
                         /\ (apiCache (snd res) = apiCache w2
                             \/ apiCache (snd res) = delete key (apiCache w2))))).
  { intros c Hc res ->. destruct (Hmiss c Hc) as (H1 & H2 & H3 & H4 & H5).
    repeat (split; [assumption|]). right. exact H5. }
  destruct (apiCache w2 !! key) as [entry|] eqn:Hin.
  - destruct (negb (t entry =? 0) && (t entry <? now w2)); cbn [fst snd].
    + cbn [Js.truthy]. apply (Hlift (delete key (apiCache w2))); [right|]; reflexivity.
    + destruct (Js.truthy (Some (v entry))) eqn:Htr.
      * cbn [fst snd]. repeat (split; [reflexivity|]). left. exists entry.
        repeat split. exact Htr.
      * apply (Hlift (apiCache w2)); [left|]; reflexivity.
  - cbn [fst snd Js.truthy]. apply (Hlift (apiCache w2)); [left|]; reflexivity.
Qed.

End RequestEffects.

(** A call of [makeRequest] sends at most one request to the upstream
    service, for its endpoint and with the key added to its parameters; it
    sends none when the quota is refused, and then fails with its own
    error; and it waits at most once, for five seconds. *)
Theorem makeRequest_sends_at_most_one
    (apiKey : string) (net : Upstream) (endpoint : string) (params : Params)
    (cost : Z) (w : World) :
  let sent := set_param "key" (PStr apiKey) params in
  let out := YouTubeAPIClient.makeRequest apiKey net endpoint params cost w in
  (requests (snd out) = requests w
   \/ requests (snd out) = (requests w ++ [(endpoint, sent)])%list)
  /\ (now (snd out) = now w \/ now (snd out) = now w + 5000)
  /\ (forall e w1,
        YouTubeAPIClient.rate_limiting_layers cost w = (Throw e, w1) ->
        fst out = Throw (JsError "Request error: Rate limit exceeded. Please try again later.")
        /\ requests (snd out) = requests w
        /\ now (snd out) = now w + 5000).
Proof.
  intros sent out.
  pose proof (makeRequest_effects apiKey net endpoint params cost w) as H.
  cbv zeta in H. fold sent in H. fold out in H.
  destruct (YouTubeAPIClient.rate_limiting_layers cost w) as [rq wq] eqn:Eq.
  destruct (rate_limiting_layers_cases _ _ _ _ Eq) as [(Fr & Fc & Fu) Hr].
  pose proof (rate_limiting_layers_clock _ _ _ _ Eq) as Hclock.
  cbn [fst snd] in H.
  destruct rq as [[]|eq].
  - destruct (track_usage_frame wq) as (Tn & Tr & Tc & _).
    destruct H as (Hn & _ & _ & _ & Hcases).
    rewrite Tn in Hn. rewrite Tr, Fr in Hcases.
    split; [|split].
    + destruct Hcases as [(entry & _ & _ & _ & R & _)
                         | [(data & c & _ & R & _) | (e & _ & R & _)]];
        [left; exact R | right; exact R | exact R].
    + rewrite Hn. exact Hclock.
    + intros e w1 E. discriminate.
  - destruct H as [Hout Hst]. rewrite Hst.
    assert (Hfive : now wq = now w + 5000).
    { unfold YouTubeAPIClient.rate_limiting_layers, try_catch at 1 in Eq.
      destruct (YouTubeAPIClient.tryConsume cost w) as [[[]|e1] wa] eqn:E1;
        [discriminate|].
      destruct (tryConsume_frame _ _ _ _ E1) as [_ [N1 _]].
      unfold bind, YouTubeAPIClient.delay, modify, try_catch, throw in Eq.
      destruct (YouTubeAPIClient.tryConsume cost (set_now (now wa + 5000) wa))
        as [[[]|e2] wb] eqn:E2; [discriminate|].
      destruct (tryConsume_frame _ _ _ _ E2) as [_ [N2 _]].
      injection Eq as _ <-. rewrite N2. simpl. lia. }
    split; [left; exact Fr|]. split; [right; exact Hfive|].
    intros e w1 E. repeat split; assumption.
Qed.

(** A call of [makeRequest] touches no entry of the cache but that of its
    own key.  When it fails, it leaves no reply under that key that was not
    there: a failure is never cached.  When it returns, the value returned
    is the one the cache now holds under that key. *)
Theorem makeRequest_cache_frame
    (apiKey : string) (net : Upstream) (endpoint : string) (params : Params)
    (cost : Z) (w : World) :
  let key := YouTubeAPIClient.cacheKey endpoint
               (set_param "key" (PStr apiKey) params) in
  let out := YouTubeAPIClient.makeRequest apiKey net endpoint params cost w in
  (forall k, k <> key -> apiCache (snd out) !! k = apiCache w !! k)
  /\ (forall e, fst out = Throw e ->
        apiCache (snd out) !! key = apiCache w !! key
        \/ apiCache (snd out) !! key = None)
  /\ (forall data, fst out = Ok data ->
        exists entry, apiCache (snd out) !! key = Some entry /\ v entry = data).
Proof.
  intros key out.
  pose proof (makeRequest_effects apiKey net endpoint params cost w) as H.
  cbv zeta in H. fold key in H. fold out in H.
  destruct (YouTubeAPIClient.rate_limiting_layers cost w) as [rq wq] eqn:Eq.
  destruct (rate_limiting_layers_cases _ _ _ _ Eq) as [(Fr & Fc & Fu) Hr].
  cbn [fst snd] in H.
  destruct rq as [[]|eq].
  - destruct (track_usage_frame wq) as (Tn & Tr & Tc & _).
    destruct H as (_ & _ & _ & _ & Hcases).
    rewrite Tc, Fc in Hcases.
    destruct Hcases as [(entry & Hin & _ & Ho & _ & C)
                       | [(data & c & Ho & _ & Hc & C) | (e & Ho & _ & C)]].
    + rewrite C. split; [reflexivity|]. split.
      * intros e He. left. reflexivity.
      * intros data Hd. rewrite Ho in Hd. injection Hd as <-.
        exists entry. split; [exact Hin | reflexivity].
    + rewrite C. unfold NodeCache.set. split; [|split].
      * intros k Hk. rewrite lookup_insert_ne by congruence.
        destruct Hc as [-> | ->]; [reflexivity|].
        rewrite lookup_delete_ne by congruence. reflexivity.
      * intros e He. rewrite Ho in He. discriminate.
      * intros d Hd. rewrite Ho in Hd. injection Hd as <-.
        rewrite lookup_insert_eq. eexists. split; reflexivity.
    + split; [|split].
      * intros k Hk. destruct C as [-> | ->]; [reflexivity|].
        rewrite lookup_delete_ne by congruence. reflexivity.
      * intros e' _. destruct C as [-> | ->]; [left; reflexivity|].
        right. apply lookup_delete_eq.
      * intros d Hd. rewrite Ho in Hd. discriminate.
  - destruct H as [Hout Hst]. rewrite Hst, Hout, Fc.
    split; [reflexivity|]. split; [left; reflexivity | discriminate].
Qed.

(** The counters of a client count the calls of [makeRequest] that passed
    the quota, whether the reply came from the cache or from the upstream
    service or the request failed; a call the quota refused is not counted.
    The day is that of the local time of the process: a call on the day of
    the month of the last reset adds one to the counter of the day, and a
    call on another day of the month leaves it at zero, not at one, and
    becomes the last reset. *)
Theorem makeRequest_usage
    (apiKey : string) (net : Upstream) (endpoint : string) (params : Params)
    (cost : Z) (w : World) :
  let out := YouTubeAPIClient.makeRequest apiKey net endpoint params cost w in
  let before := usage w in
  let after := usage (snd out) in
  let day ms := Calendar.day_of_month ((ms + localTZA w ms) / 86400000) in
  match fst (YouTubeAPIClient.rate_limiting_layers cost w) with
  | Throw _ => after = before
  | Ok _ =>
      totalRequests after = totalRequests before + 1
      /\ (if day (now (snd out)) =? day (lastReset before)
          then requestsToday after = requestsToday before + 1
               /\ lastReset after = lastReset before
          else requestsToday after = 0 /\ lastReset after = now (snd out))
  end.
Proof.
  intros out before after day.
  pose proof (makeRequest_effects apiKey net endpoint params cost w) as H.
  cbv zeta in H. fold out in H.
  destruct (YouTubeAPIClient.rate_limiting_layers cost w) as [rq wq] eqn:Eq.
  destruct (rate_limiting_layers_cases _ _ _ _ Eq) as [(Fr & Fc & Fu) Hr].
  pose proof (rate_limiting_layers_tza _ _ _ _ Eq) as Ftz.
  cbn [fst snd] in H |- *.
  destruct rq as [[]|eq].
  - destruct H as (Hn & Hu & _). subst after before. rewrite Hu, Hn.
    unfold YouTubeAPIClient.track_usage, modify. cbn [snd]. rewrite Fu, Ftz.
    unfold Calendar.getDate. fold (day (now wq)). fold (day (lastReset (usage w))).
    destruct (day (now wq) =? day (lastReset (usage w)))
      eqn:Eday; cbn; rewrite ?Fu, ?Ftz; unfold Calendar.getDate;
      fold (day (now wq)); fold (day (lastReset (usage w)));
      rewrite Eday; repeat split.
  - destruct H as [_ Hst]. subst after before. rewrite Hst. exact Fu.
Qed.

(** [makeRequest_usage], at work: the same call at the same instant, half
    past eleven in the evening of 1 January, UTC, after a last reset at
    ten.  In a process on UTC it is counted as the sixth of the day; in a
    process one hour ahead, where it is half past midnight, it starts a new
    day. *)
Lemma makeRequest_usage_witness :
  let call w :=
    snd (YouTubeAPIClient.makeRequest Scenario.apiKey
           (Scenario.always (Http 200 Scenario.items_reply))
           "/channels" Scenario.channel_params 1 w) in
  (requestsToday (usage (call (Scenario.late_evening 0))) = 6
   /\ lastReset (usage (call (Scenario.late_evening 0))) = 79200000)
  /\ (requestsToday (usage (call (Scenario.late_evening 3600000))) = 0
      /\ lastReset (usage (call (Scenario.late_evening 3600000))) = 84600000).
Proof.
  intros call. split.
  - pose proof (makeRequest_usage Scenario.apiKey
                  (Scenario.always (Http 200 Scenario.items_reply))
                  "/channels" Scenario.channel_params 1
                  (Scenario.late_evening 0)) as H.
    cbv zeta in H.
    assert (E : fst (YouTubeAPIClient.rate_limiting_layers 1
                       (Scenario.late_evening 0)) = Ok tt)
      by (vm_compute; reflexivity).
    rewrite E in H. destruct H as [_ H].
    match type of H with
    | (if ?c then _ else _) =>
        assert (D : c = true) by (vm_compute; reflexivity); rewrite D in H
    end.
    exact H.
  - pose proof (makeRequest_usage Scenario.apiKey
                  (Scenario.always (Http 200 Scenario.items_reply))
                  "/channels" Scenario.channel_params 1
                  (Scenario.late_evening 3600000)) as H.
    cbv zeta in H.
    assert (E : fst (YouTubeAPIClient.rate_limiting_layers 1
                       (Scenario.late_evening 3600000)) = Ok tt)
      by (vm_compute; reflexivity).
    rewrite E in H. destruct H as [_ H].
    match type of H with
    | (if ?c then _ else _) =>
        assert (D : c = false) by (vm_compute; reflexivity); rewrite D in H
    end.
    exact H.
Defined.

(** A reply that is falsy for JavaScript ([null], [false], [0], the empty
    string) is stored in the cache like any other but never served from it:
    whenever [makeRequest] returns such a value, it has just fetched it
    from the upstream service. *)
Theorem falsy_reply_is_fetched_again
    (apiKey : string) (net : Upstream) (endpoint : string) (params : Params)
    (cost : Z) (w : World) (data : JSON) :
  let out := YouTubeAPIClient.makeRequest apiKey net endpoint params cost w in
  fst out = Ok data ->
  Js.truthy (Some data) = false ->
  requests (snd out)
  = (requests w ++ [(endpoint, set_param "key" (PStr apiKey) params)])%list.
Proof.
  intros out Hout Hfalsy.
  pose proof (makeRequest_effects apiKey net endpoint params cost w) as H.
  cbv zeta in H. fold out in H.
  destruct (YouTubeAPIClient.rate_limiting_layers cost w) as [rq wq] eqn:Eq.
  destruct (rate_limiting_layers_cases _ _ _ _ Eq) as [(Fr & Fc & Fu) Hr].
  cbn [fst snd] in H.
  destruct rq as [[]|eq].
  - destruct (track_usage_frame wq) as (Tn & Tr & Tc & _).
    destruct H as (_ & _ & _ & _ & Hcases). rewrite Tr, Fr in Hcases.
    destruct Hcases as [(entry & _ & Htr & Ho & _)
                       | [(d & c & _ & R & _) | (e & Ho & _)]].
    + rewrite Ho in Hout. injection Hout as <-. congruence.
    + exact R.
    + rewrite Ho in Hout. discriminate.
  - destruct H as [Ho _]. rewrite Ho in Hout. discriminate.
Qed.

(** [falsy_reply_is_fetched_again], at work: an upstream service that
    answers with an empty text, asked twice. *)
Lemma falsy_reply_is_fetched_again_witness :
  let request :=
    YouTubeAPIClient.makeRequest Scenario.apiKey
      (Scenario.always (Http 200 (JStr EmptyString)))
      "/channels" Scenario.channel_params 1 in
  let w1 := snd (request Scenario.start) in
  List.length (requests w1) = 1%nat
  /\ requests (snd (request w1))
     = (requests w1
        ++ [("/channels",
             set_param "key" (PStr Scenario.apiKey) Scenario.channel_params)])%list.
Proof.
  intros request w1. split; [reflexivity|].
  apply (falsy_reply_is_fetched_again Scenario.apiKey
           (Scenario.always (Http 200 (JStr EmptyString)))
           "/channels" Scenario.channel_params 1 w1 (JStr EmptyString)).
  - vm_compute. reflexivity.
  - reflexivity.
Defined.

(** ** The key of a cache entry *)

Section CacheKeyFacts.
Import Stringify.

Lemma append_cancel_l (a x y : string) : a ++ x = a ++ y -> x = y.
Proof.
  induction a as [|c a IH]; [trivial|].
  change (String c (a ++ x) = String c (a ++ y) -> x = y).
  intros E. injection E as E. exact (IH E).
Qed.

(** Reading undoes the writing of one character. *)
Lemma unescape_escape_char c x :
  Unescape.char (escape_char c ++ x) = Some (c, x).
Proof.
  destruct c as [[] [] [] [] [] [] [] []]; reflexivity.
Qed.

Lemma unescape_quote x : Unescape.char (quote ++ x) = None.
Proof. reflexivity. Qed.

(** An escaped string ends at the first quotation mark that follows it:
    two strings written one after the other by [JSON.stringify] are equal
    texts only when the strings are equal. *)
Lemma escape_inj a b x y :
  escape a ++ quote ++ x = escape b ++ quote ++ y -> a = b /\ x = y.
Proof.
  revert b. induction a as [|c a IH]; intros [|d b]; cbn [escape].
  - intros E. split; [reflexivity|].
    change (EmptyString ++ quote ++ x = EmptyString ++ quote ++ y) in E.
    cbn in E. injection E as E. exact E.
  - rewrite append_assoc. intros E.
    apply (f_equal Unescape.char) in E.
    change (EmptyString ++ quote ++ x) with (quote ++ x) in E.
    rewrite unescape_quote, unescape_escape_char in E. discriminate.
  - rewrite append_assoc. intros E.
    apply (f_equal Unescape.char) in E.
    change (EmptyString ++ quote ++ y) with (quote ++ y) in E.
    rewrite unescape_quote, unescape_escape_char in E. discriminate.
  - rewrite !append_assoc. intros E.
    apply (f_equal Unescape.char) in E.
    rewrite !unescape_escape_char in E. injection E as -> E.
    destruct (IH b E) as [-> ->]. split; reflexivity.
Qed.

(** The members of the parameters once the key is set: the member of
    the key, between members that do not depend on it. *)
Lemma members_set_key ps :
  exists pre post,
    forall k, members (set_param "key" (PStr k) ps)
              = (pre ++ (quoted "key" ++ ":" ++ quoted k)%string :: post)%list.
Proof.
  induction ps as [|[k' x'] ps (pre & post & IH)].
  - exists [], []. reflexivity.
  - cbn [set_param]. destruct (String.eqb "key" k') eqn:Ek.
    + exists [], (members ps). reflexivity.
    + destruct x' as [s|n|].
      * exists ((quoted k' ++ ":" ++ quoted s)%string :: pre), post.
        intros k. cbn [members]. now rewrite IH.
      * exists ((quoted k' ++ ":" ++ Js.of_Z n)%string :: pre), post.
        intros k. cbn [members]. now rewrite IH.
      * exists pre, post. intros k. cbn [members]. apply IH.
Qed.

Lemma concat_middle (pre post : list string) :
  exists P S, forall m,
    String.concat "," (pre ++ m :: post)%list = P ++ m ++ S.
Proof.
  induction pre as [|x pre (P & S & IH)].
  - destruct post as [|y post].
    + exists EmptyString, EmptyString. intros m. cbn. now rewrite append_nil_r.
    + exists EmptyString, ("," ++ String.concat "," (y :: post)). intros m.
      reflexivity.
  - exists (x ++ "," ++ P), S. intros m.
    change ((x :: pre) ++ m :: post)%list with (x :: (pre ++ m :: post))%list.
    assert (E : String.concat "," (x :: (pre ++ m :: post)%list)
                = x ++ "," ++ String.concat "," (pre ++ m :: post)%list).
    { destruct pre; reflexivity. }
    rewrite E, IH, !append_assoc. reflexivity.
Qed.

(** The text of the parameters is the key between two texts that do not
    depend on it. *)
Lemma stringify_set_key ps :
  exists P S, forall k,
    stringify (set_param "key" (PStr k) ps) = P ++ escape k ++ quote ++ S.
Proof.
  destruct (members_set_key ps) as (pre & post & Hm).
  destruct (concat_middle pre post) as (P & S & Hc).
  exists ("{" ++ P ++ quoted "key" ++ ":" ++ quote), (S ++ "}").
  intros k. unfold stringify. rewrite Hm, Hc. unfold quoted.
  rewrite !append_assoc. reflexivity.
Qed.

End CacheKeyFacts.

(** The key of a cache entry holds the API key of the client: the same
    request made with two API keys has two cache keys, so that a client
    never gets a reply that was cached for another key. *)
Theorem cacheKey_per_apiKey
    (endpoint : string) (params : Params) (k1 k2 : string) :
  k1 <> k2 ->
  YouTubeAPIClient.cacheKey endpoint (set_param "key" (PStr k1) params)
  <> YouTubeAPIClient.cacheKey endpoint (set_param "key" (PStr k2) params).
Proof.
  intros Hne E. apply Hne. unfold YouTubeAPIClient.cacheKey in E.
  destruct (stringify_set_key params) as (P & S & H).
  rewrite !H in E.
  rewrite <- !append_assoc in E.
  rewrite !append_assoc in E.
  do 3 apply append_cancel_l in E.
  exact (proj1 (escape_inj _ _ _ _ E)).
Qed.

(** [cacheKey_per_apiKey], at work: the request for a channel, with two
    keys. *)
Lemma cacheKey_per_apiKey_witness :
  YouTubeAPIClient.cacheKey "/channels"
    (set_param "key" (PStr "KEY-A") Scenario.channel_params)
  <> YouTubeAPIClient.cacheKey "/channels"
       (set_param "key" (PStr "KEY-B") Scenario.channel_params).
Proof.
  apply (cacheKey_per_apiKey "/channels" Scenario.channel_params "KEY-A" "KEY-B").
  discriminate.
Defined.

(** ** The records of the client *)

Section RecordFacts.

Lemma and_then_ok {A B} (r : Res A) (k : A -> Res B) b :
  and_then r k = Ok b -> exists a, r = Ok a /\ k a = Ok b.
Proof. destruct r as [a|e]; [eauto | discriminate]. Qed.

Lemma map_res_ok {A B} (f : A -> Res B) l l' :
  map_res f l = Ok l' -> List.Forall2 (fun x y => f x = Ok y) l l'.
Proof.
  revert l'. induction l as [|x l IH]; intros l' E; cbn in E.
  - injection E as <-. constructor.
  - apply and_then_ok in E as (y & Ey & E).
    apply and_then_ok in E as (ys & Eys & E). injection E as <-.
    constructor; [exact Ey | exact (IH _ Eys)].
Qed.

Lemma some_res_true {A} (f : A -> Res bool) l :
  some_res f l = Ok true -> exists x, List.In x l /\ f x = Ok true.
Proof.
  induction l as [|x l IH]; cbn; [discriminate|]. intros E.
  apply and_then_ok in E as ([] & Ex & E).
  - exists x. split; [left; reflexivity | exact Ex].
  - destruct (IH E) as (y & Hy & Ey). exists y. split; [right; exact Hy | exact Ey].
Qed.

Lemma some_res_false {A} (f : A -> Res bool) l :
  some_res f l = Ok false -> forall x, List.In x l -> f x = Ok false.
Proof.
  induction l as [|x l IH]; cbn; [intros _ y []|]. intros E.
  apply and_then_ok in E as ([] & Ex & E); [discriminate|].
  intros y [<-|Hy]; [exact Ex | exact (IH E y Hy)].
Qed.

Lemma includes_short_test s :
  JsString.includes (JsString.toLowerCase s) "short"
  || JsString.includes (JsString.toLowerCase s) "shorts"
  = JsString.includes (JsString.toLowerCase s) "short".
Proof.
  destruct (JsString.includes (JsString.toLowerCase s) "short") eqn:E;
    [reflexivity|].
  destruct (JsString.includes (JsString.toLowerCase s) "shorts") eqn:E';
    [|reflexivity].
  apply includes_shorts in E'. congruence.
Qed.

(** What the classifier answers, when it answers. *)
Lemma client_isShort_ok categoryId d tags b :
  Client.isShort categoryId d tags = Ok b ->
  (b = true
   <-> d <= 61 \/ Client.names_short tags \/ categoryId = Some (JStr "23")).
Proof.
  unfold Client.isShort.
  destruct (Z.leb_spec d 60) as [L|L].
  { intros E. injection E as <-. split; [left; lia | reflexivity]. }
  intros E. apply and_then_ok in E as (tagged & Et & E).
  assert (Htag : tagged = true <-> Client.names_short tags).
  { destruct (Js.truthy tags) eqn:Htr.
    - destruct tags as [[| | | |l|]|]; try discriminate.
      destruct tagged.
      + split; [intros _|reflexivity].
        destruct (some_res_true _ _ Et) as (x & Hx & Ex).
        destruct x as [| | |s| |]; try discriminate.
        cbn in Ex. injection Ex as Ex. rewrite includes_short_test in Ex.
        exists l, s. repeat split; assumption.
      + split; [discriminate|]. intros (l' & s & El & Hin & Hs).
        injection El as <-.
        pose proof (some_res_false _ _ Et _ Hin) as Ex. cbn in Ex.
        injection Ex as Ex. rewrite includes_short_test in Ex. congruence.
    - injection Et as <-. split; [discriminate|].
      intros (l & s & -> & _). discriminate. }
  assert (Hcat : Dyn.is_string categoryId "23" = true
                 <-> categoryId = Some (JStr "23")).
  { destruct categoryId as [[| | |s| |]|]; cbn; try (split; discriminate).
    rewrite String.eqb_eq. split; congruence. }
  destruct tagged.
  { injection E as <-. split; [intros _; right; left; now apply Htag | reflexivity]. }
  destruct (Dyn.is_string categoryId "23") eqn:Ec.
  { injection E as <-. split; [intros _; right; right; now apply Hcat | reflexivity]. }
  injection E as <-. rewrite Z.leb_le. split; [left; assumption|].
  intros [H|[H|H]]; [exact H | |].
  - apply Htag in H. discriminate.
  - apply Hcat in H. discriminate.
Qed.

Lemma client_parseDuration_ok iso d :
  Client.parseDuration iso = Ok d ->
  exists s, iso = Some (JStr s) /\ d = Decoders.parseDuration s.
Proof.
  destruct iso as [[| | |s| |]|]; try discriminate.
  intros E. injection E as <-. eauto.
Qed.

Lemma or_else_array tags : Js.truthy (Dyn.or_else tags (Some (JArr []))) = true.
Proof. unfold Dyn.or_else. destruct (Js.truthy tags) eqn:E; [exact E | reflexivity]. Qed.

Lemma names_short_or_else tags :
  Client.names_short (Dyn.or_else tags (Some (JArr []))) <-> Client.names_short tags.
Proof.
  unfold Dyn.or_else. destruct (Js.truthy tags) eqn:E; [reflexivity|].
  split; intros (l & s & El & Hin & _).
  - injection El as <-. destruct Hin.
  - subst tags. discriminate.
Qed.

(** One record, as the callback makes it. *)
Lemma videoDetails_ok video v :
  Client.videoDetails video = Ok v ->
  0 <= VideoDetails.durationSeconds v
  /\ (VideoDetails.isShort v = true
      <-> VideoDetails.durationSeconds v <= 61
          \/ Client.names_short (VideoDetails.tags v)
          \/ VideoDetails.categoryId v = Some (JStr "23"))
  /\ Js.truthy (VideoDetails.tags v) = true
  /\ VideoDetails.videoId v = Js.opt_prop (Some video) "id".
Proof.
  unfold Client.videoDetails. intros E.
  repeat match type of E with
         | and_then _ _ = Ok _ =>
             let x := fresh "x" in
             let Ex := fresh "Ex" in
             apply and_then_ok in E as (x & Ex & E)
         end.
  injection E as <-. cbn [VideoDetails.durationSeconds VideoDetails.isShort
    VideoDetails.tags VideoDetails.categoryId VideoDetails.videoId].
  match goal with H : Client.parseDuration _ = Ok _ |- _ =>
    apply client_parseDuration_ok in H as (s & _ & ->) end.
  match goal with H : Client.isShort _ _ _ = Ok _ |- _ =>
    apply client_isShort_ok in H; rename H into Hs end.
  split; [apply parseDuration_nonneg|].
  split; [rewrite names_short_or_else; exact Hs|].
  split; [apply or_else_array|].
  match goal with H : Dyn.prop (Some video) "id" = Ok _ |- _ =>
    destruct video; cbn in H |- *; try discriminate; injection H as <-; reflexivity
  end.
Qed.

End RecordFacts.

(** The records [getVideoDetails] returns are classified by their own
    fields: a record is marked as a Short exactly when its duration is at
    most 61 seconds, or one of its tags is a string that contains [short],
    or its category is the string [23].  Its duration is never negative and
    its list of tags is never missing.  There is one record for each entry
    of the reply, in the order of the reply. *)
Theorem getVideoDetails_records
    (apiKey : string) (net : Upstream) (videoIds : string) (w : World)
    (records : list VideoDetails.t) :
  fst (Client.getVideoDetails apiKey net videoIds w) = Ok records ->
  List.Forall
    (fun v =>
       0 <= VideoDetails.durationSeconds v
       /\ (VideoDetails.isShort v = true
           <-> VideoDetails.durationSeconds v <= 61
               \/ Client.names_short (VideoDetails.tags v)
               \/ VideoDetails.categoryId v = Some (JStr "23"))
       /\ Js.truthy (VideoDetails.tags v) = true)
    records
  /\ exists response,
       fst (YouTubeAPIClient.makeRequest apiKey net "/videos"
              [("id", PStr videoIds);
               ("part", PStr "snippet,contentDetails,statistics")] 1 w)
       = Ok response
       /\ match Js.opt_prop (Some response) "items" with
          | Some (JArr entries) =>
              List.map VideoDetails.videoId records
              = List.map (fun entry => Js.opt_prop (Some entry) "id") entries
          | _ => records = []
          end.
Proof.
  unfold Client.getVideoDetails, bind, of_res. intros E.
  destruct (YouTubeAPIClient.makeRequest apiKey net "/videos" _ 1 w)
    as [[response|e] w1]; [|discriminate].
  cbn [fst] in E. unfold Client.videoDetailsList in E.
  apply and_then_ok in E as (items & Ei & E).
  assert (Hitems : items = Js.opt_prop (Some response) "items").
  { destruct response; cbn in Ei |- *; try discriminate; injection Ei as <-;
      reflexivity. }
  destruct (Js.truthy items) eqn:Htr; cbn [negb] in E.
  - destruct items as [[| | | |l|]|]; try discriminate.
    pose proof (map_res_ok _ _ _ E) as F. split.
    + clear -F. induction F as [|x y l l' Hxy F IH]; constructor; [|exact IH].
      destruct (videoDetails_ok _ _ Hxy) as (H1 & H2 & H3 & _). auto.
    + exists response. split; [reflexivity|]. rewrite <- Hitems.
      clear -F. induction F as [|x y l l' Hxy F IH]; [reflexivity|].
      cbn. rewrite IH. f_equal.
      exact (proj2 (proj2 (proj2 (videoDetails_ok _ _ Hxy)))).
  - injection E as <-. split; [constructor|].
    exists response. split; [reflexivity|]. rewrite <- Hitems.
    destruct items as [[| | | |l|]|]; try reflexivity. discriminate.
Qed.

(** [getVideoDetails_records], at work: the details of two videos. *)
Lemma getVideoDetails_records_witness :
  exists records,
    fst (Client.getVideoDetails Scenario.apiKey Replies.net "v1,v2" Scenario.start)
    = Ok records
    /\ List.Forall
         (fun v => VideoDetails.isShort v = true
                   <-> VideoDetails.durationSeconds v <= 61
                       \/ Client.names_short (VideoDetails.tags v)
                       \/ VideoDetails.categoryId v = Some (JStr "23"))
         records
    /\ List.map VideoDetails.durationSeconds records = [600; 45].
Proof.
  eexists. split; [vm_compute; reflexivity|]. split; [|reflexivity].
  refine (List.Forall_impl _ _
            (proj1 (getVideoDetails_records Scenario.apiKey Replies.net "v1,v2"
                      Scenario.start _ _))).
  - intros v (_ & H & _). exact H.
  - vm_compute. reflexivity.
Defined.

Section ClientFacts.
Import YouTubeAPIClient.

Variable apiKey : string.
Variable net : Upstream.

(** The requests a call of [makeRequest] adds. *)
Lemma makeRequest_requests endpoint params cost w :
  let out := makeRequest apiKey net endpoint params cost w in
  requests (snd out) = requests w
  \/ requests (snd out)
     = (requests w ++ [(endpoint, set_param "key" (PStr apiKey) params)])%list.
Proof.
  intros out.
  pose proof (makeRequest_effects apiKey net endpoint params cost w) as H.
  cbv zeta in H. fold out in H.
  destruct (rate_limiting_layers cost w) as [rq wq] eqn:Eq.
  destruct (rate_limiting_layers_cases _ _ _ _ Eq) as [(Fr & Fc & Fu) Hr].
  cbn [fst snd] in H.
  destruct rq as [[]|eq].
  - destruct (track_usage_frame wq) as (Tn & Tr & Tc & _).
    destruct H as (_ & _ & _ & _ & Hcases). rewrite Tr, Fr in Hcases.
    destruct Hcases as [(entry & _ & _ & _ & R & _)
                       | [(data & c & _ & R & _) | (e & _ & R & _)]];
      [left; exact R | right; exact R | exact R].
  - destruct H as [_ Hst]. rewrite Hst. left. exact Fr.
Qed.

Lemma prop_opt v p x : Dyn.prop v p = Ok x -> x = Js.opt_prop v p.
Proof.
  destruct v as [[| | | | |fs]|]; cbn; try discriminate;
    intros E; injection E as <-; reflexivity.
Qed.

(** What [getChannelInfo] makes of a reply. *)
Lemma channelInfo_cases id response :
  match Client.channelInfo id response with
  | Ok info =>
      let items := Js.opt_prop (Some response) "items" in
      Js.truthy items = true
      /\ exists channel,
           Dyn.first items = Some channel
           /\ ChannelInfo.channelId info = Js.opt_prop (Some channel) "id"
  | Throw e =>
      (e = JsError ("Channel not found: " ++ id)
       /\ response <> JNull
       /\ let items := Js.opt_prop (Some response) "items" in
          Js.truthy items = false \/ Dyn.length_is_0 items = true)
      \/ exists m, e = JsTypeError m
  end.
Proof.
  unfold Client.channelInfo.
  destruct (Dyn.prop (Some response) "items") as [items|e] eqn:Ei.
  2: { cbn. right. destruct response; cbn in Ei; try discriminate.
       injection Ei as <-. eexists. reflexivity. }
  pose proof (prop_opt _ _ _ Ei) as Hitems. cbn [and_then].
  destruct (negb (Js.truthy items) || Dyn.length_is_0 items) eqn:Hno.
  { left. split; [reflexivity|]. split.
    - intros ->. discriminate.
    - rewrite <- Hitems. apply orb_true_iff in Hno as [H|H]; [left|right; exact H].
      now apply negb_true_iff in H. }
  apply orb_false_iff in Hno as [Htr _]. apply negb_false_iff in Htr.
  assert (Hthrow : forall (r : Res JsVal) (k : JsVal -> Res ChannelInfo.t),
             (forall e, r = Throw e -> exists m, e = JsTypeError m) ->
             (forall x, r = Ok x ->
                match k x with
                | Ok info => ChannelInfo.channelId info
                             = Js.opt_prop (Dyn.first items) "id"
                             /\ Dyn.first items <> None
                | Throw e => exists m, e = JsTypeError m
                end) ->
             match and_then r k with
             | Ok info => ChannelInfo.channelId info
                          = Js.opt_prop (Dyn.first items) "id"
                          /\ Dyn.first items <> None
             | Throw e => exists m, e = JsTypeError m
             end).
  { intros r k Hr Hk. destruct r as [x|e]; cbn; [apply Hk | apply Hr]; reflexivity. }
  assert (Hprop : forall v p e, Dyn.prop v p = Throw e -> exists m, e = JsTypeError m).
  { intros [[| | | | |fs]|] p e; cbn; try discriminate;
      intros E; injection E as <-; eexists; reflexivity. }
  assert (Hall :
            match
              (let channel := Dyn.first items in
               let! channelId := Dyn.prop channel "id" in
               let! snippet := Dyn.prop channel "snippet" in
               let! title := Dyn.prop snippet "title" in
               let! description := Dyn.prop snippet "description" in
               let! customUrl := Dyn.prop snippet "customUrl" in
               let! thumbnails := Dyn.prop snippet "thumbnails" in
               let! brandingSettings := Dyn.prop snippet "brandingSettings" in
               let! statistics := Dyn.prop channel "statistics" in
               let! subscriberCount := Dyn.prop statistics "subscriberCount" in
               let! videoCount := Dyn.prop statistics "videoCount" in
               let! viewCount := Dyn.prop statistics "viewCount" in
               Ok {| ChannelInfo.channelId := channelId;
                     ChannelInfo.title := title;
                     ChannelInfo.description := description;
                     ChannelInfo.customUrl := customUrl;
                     ChannelInfo.thumbnailUrl := Client.thumbnail thumbnails;
                     ChannelInfo.bannerUrl :=
                       Js.opt_prop (Js.opt_prop brandingSettings "image")
                         "bannerImageUrl";
                     ChannelInfo.subscriberCount :=
                       or_zero (Dyn.parseInt subscriberCount);
                     ChannelInfo.videoCount := or_zero (Dyn.parseInt videoCount);
                     ChannelInfo.viewCount := or_zero (Dyn.parseInt viewCount) |})
            with
            | Ok info => ChannelInfo.channelId info
                         = Js.opt_prop (Dyn.first items) "id"
                         /\ Dyn.first items <> None
            | Throw e => exists m, e = JsTypeError m
            end).
  { cbv zeta. apply Hthrow; [apply Hprop|]. intros channelId Hid.
    repeat (apply Hthrow; [apply Hprop|]; intros ? ?).
    cbn. split; [exact (prop_opt _ _ _ Hid)|].
    destruct (Dyn.first items); [discriminate | discriminate]. }
  cbv zeta in Hall |- *.
  match goal with
  | H : match ?x with Ok _ => _ | Throw _ => _ end
    |- match ?y with Ok _ => _ | Throw _ => _ end =>
      change y with x; destruct x as [info|e]
  end.
  - destruct Hall as [Hid Hsome]. rewrite <- Hitems. split; [exact Htr|].
    destruct (Dyn.first items) as [channel|]; [|congruence].
    exists channel. split; [reflexivity | exact Hid].
  - right. exact Hall.
Qed.

End ClientFacts.

(** [getChannelInfo] returns a record only for a reply whose list of
    entries has a first entry, and the record carries the id found in that
    entry, which need not be the id asked for.  When it throws, what is
    thrown is an [Error] of [makeRequest], or the [Error] [Channel not
    found: <id>] for a reply that lists no entry, or a [TypeError] for a
    reply whose first entry lacks a part the code reads.  A reply, not
    [null] itself, with no list of entries or an empty one gives [Channel
    not found].  The state is as [makeRequest] left it: a reply that lists
    no channel has been paid for and cached like any other. *)
Theorem getChannelInfo_outcomes
    (apiKey : string) (net : Upstream) (id type : string) (w : World) :
  let request :=
    YouTubeAPIClient.makeRequest apiKey net "/channels"
      (set_param "part" (PStr "snippet,statistics") [(type, PStr id)]) 1 w in
  let out := Client.getChannelInfo apiKey net id type w in
  snd out = snd request
  /\ match fst out with
     | Ok info =>
         exists response channel,
           fst request = Ok response
           /\ Dyn.first (Js.opt_prop (Some response) "items") = Some channel
           /\ ChannelInfo.channelId info = Js.opt_prop (Some channel) "id"
     | Throw e =>
         (exists m,
             e = JsError m
             /\ (m = "Channel not found: " ++ id
                 \/ JsString.startsWith m "YouTube API Error: " = true
                 \/ JsString.startsWith m "Network error: " = true
                 \/ JsString.startsWith m "Request error: " = true))
         \/ exists m, e = JsTypeError m
     end
  /\ (forall response,
        fst request = Ok response -> response <> JNull ->
        let items := Js.opt_prop (Some response) "items" in
        Js.truthy items = false \/ Dyn.length_is_0 items = true ->
        fst out = Throw (JsError ("Channel not found: " ++ id))).
Proof.
  intros request out. subst out. unfold Client.getChannelInfo, bind, of_res.
  fold request. destruct request as [[response|e] w1] eqn:Er; cbn [fst snd].
  2: { split; [reflexivity|]. split; [|intros r Hr; discriminate Hr]. left.
       pose proof (makeRequest_throws _ _ _ _ _ _ _ _ Er) as H. cbv zeta in H.
       destruct H as [-> | [(st & d & _ & _ & ->) | [(m & _ & ->) | (m & _ & ->)]]];
         eexists; (split; [reflexivity|]).
       - right; right; right. reflexivity.
       - right; left. apply startsWith_app.
       - right; right; left. apply startsWith_app.
       - right; right; right. apply startsWith_app. }
  split; [reflexivity|]. split.
  - pose proof (channelInfo_cases id response) as H.
    destruct (Client.channelInfo id response) as [info|e].
    + destruct H as (_ & channel & H1 & H2). exists response, channel.
      repeat split; assumption.
    + destruct H as [(-> & _) | H]; [|right; exact H].
      left. eexists. split; [reflexivity|]. left. reflexivity.
  - intros r Hr Hnull. cbv zeta. intros Hno. injection Hr as <-.
    unfold Client.channelInfo.
    destruct (Dyn.prop (Some response) "items") as [items|e] eqn:Ei.
    + rewrite <- (prop_opt _ _ _ Ei) in Hno. cbn [and_then].
      destruct Hno as [H|H]; rewrite H; [reflexivity | now rewrite orb_true_r].
    + exfalso. destruct response; cbn in Ei; try discriminate Ei. now apply Hnull.
Qed.

Section PageFacts.
Import YouTubeAPIClient.

Variable apiKey : string.
Variable net : Upstream.

Lemma getVideoDetails_requests videoIds w :
  let out := Client.getVideoDetails apiKey net videoIds w in
  let sent := [("id", PStr videoIds);
               ("part", PStr "snippet,contentDetails,statistics");
               ("key", PStr apiKey)] in
  requests (snd out) = requests w
  \/ requests (snd out) = (requests w ++ [("/videos", sent)])%list.
Proof.
  intros out sent. subst out. unfold Client.getVideoDetails, bind, of_res.
  pose proof (makeRequest_requests apiKey net "/videos"
                [("id", PStr videoIds);
                 ("part", PStr "snippet,contentDetails,statistics")] 1 w) as H.
  cbv zeta in H.
  destruct (makeRequest apiKey net "/videos" _ 1 w) as [[response|e] w1];
    cbn [fst snd] in *; exact H.
Qed.

End PageFacts.

Section PageSteps.
Import YouTubeAPIClient.

Variable apiKey : string.
Variable net : Upstream.

(** Where [getChannelVideos] leaves the state: where the search left it,
    or where the request for the details left it. *)
Lemma getChannelVideos_steps channelId maxResults pageToken w :
  let params := [("channelId", PStr channelId);
                 ("part", PStr "snippet,contentDetails,statistics");
                 ("order", PStr "date");
                 ("maxResults", PNum maxResults);
                 ("pageToken", Client.token_param pageToken)] in
  let search := makeRequest apiKey net "/search" params 1 w in
  let out := Client.getChannelVideos apiKey net channelId maxResults pageToken w in
  (snd out = snd search
   /\ (forall page, fst out = Ok page -> Client.videos page = [])
   /\ (forall response,
         fst search = Ok response -> response <> JNull ->
         Js.truthy (Js.opt_prop (Some response) "items") = false
         \/ Client.videoIds (Js.opt_prop (Some response) "items") = Ok EmptyString ->
         exists page, fst out = Ok page))
  \/ (exists response ids,
         fst search = Ok response
         /\ Js.truthy (Js.opt_prop (Some response) "items") = true
         /\ Client.videoIds (Js.opt_prop (Some response) "items") = Ok ids
         /\ ids <> EmptyString
         /\ snd out = snd (Client.getVideoDetails apiKey net ids (snd search))).
Proof.
  intros params search out. subst out.
  unfold Client.getChannelVideos, bind, of_res, ret. fold params. fold search.
  destruct search as [[response|e] w1] eqn:Es; cbn [fst snd].
  2: { left. split; [reflexivity|].
       split; [intros page H; discriminate H | intros r H; discriminate H]. }
  destruct (Dyn.prop (Some response) "items") as [items|e] eqn:Ei; cbn [fst snd].
  2: { left. split; [reflexivity|]. split; [intros page H; discriminate H|].
       intros r Hr Hnull. injection Hr as <-. exfalso.
       destruct response; cbn in Ei; try discriminate Ei. now apply Hnull. }
  pose proof (prop_opt _ _ _ Ei) as Hitems.
  destruct (Js.truthy items) eqn:Htr; cbn [negb fst snd].
  2: { left. split; [reflexivity|]. split.
       - intros page E. injection E as <-. reflexivity.
       - intros r Hr _ _. eexists. reflexivity. }
  destruct (Client.videoIds items) as [ids|e] eqn:Eids; cbn [fst snd].
  2: { left. split; [reflexivity|]. split; [intros page H; discriminate H|].
       intros r Hr _ [H|H]; injection Hr as <-; rewrite <- Hitems in H;
         [rewrite Htr in H | rewrite Eids in H]; discriminate H. }
  destruct (String.eqb_spec ids EmptyString) as [->|Hne].
  { left.
    assert (Hn : exists token, Client.next_token response = Ok token).
    { unfold Client.next_token. destruct response; cbn in Ei |- *;
        try discriminate; eexists; reflexivity. }
    destruct Hn as (token & ->). cbn [fst snd].
    split; [reflexivity|]. split.
    - intros page E. injection E as <-. reflexivity.
    - intros r Hr _ _. eexists. reflexivity. }
  right. exists response, ids. rewrite <- Hitems. split; [reflexivity|].
  split; [exact Htr|]. split; [exact Eids|]. split; [exact Hne|].
  destruct (Client.getVideoDetails apiKey net ids w1) as [[details|e] w2];
    cbn [fst snd]; [|reflexivity].
  destruct (Client.combine items details); cbn [fst snd]; [|reflexivity].
  destruct (Client.next_token response); reflexivity.
Qed.

End PageSteps.

(** One call of [getChannelVideos] adds two requests at most. *)
Lemma getChannelVideos_at_most_two apiKey net channelId maxResults pageToken w :
  (List.length
     (requests (snd (Client.getChannelVideos apiKey net channelId maxResults
                       pageToken w)))
   <= List.length (requests w) + 2)%nat.
Proof.
  pose proof (getChannelVideos_steps apiKey net channelId maxResults pageToken w)
    as H. cbv zeta in H.
  set (params := [("channelId", PStr channelId);
                  ("part", PStr "snippet,contentDetails,statistics");
                  ("order", PStr "date"); ("maxResults", PNum maxResults);
                  ("pageToken", Client.token_param pageToken)]) in *.
  pose proof (makeRequest_requests apiKey net "/search" params 1 w) as Hs.
  cbv zeta in Hs.
  destruct H as [(Hst & _) | (response & ids & _ & _ & _ & _ & Hst)]; rewrite Hst.
  - destruct Hs as [Hs|Hs]; rewrite Hs, ?List.length_app; cbn; lia.
  - pose proof (getVideoDetails_requests apiKey net ids
                  (snd (YouTubeAPIClient.makeRequest apiKey net "/search"
                          params 1 w))) as Hd.
    cbv zeta in Hd.
    destruct Hs as [Hs|Hs], Hd as [Hd|Hd]; rewrite Hd, Hs, ?List.length_app;
      cbn; lia.
Qed.

(** One call of [getChannelVideos] sends at most two requests: a search,
    unless its reply was cached or the quota refused, and then a request
    for the details of the videos found, each with the key added to its
    parameters.  When the search reply, not [null] itself, lists no
    entry, or no video with an id, the details are not asked for and the
    page is empty. *)
Theorem getChannelVideos_requests
    (apiKey : string) (net : Upstream) (channelId : string) (maxResults : Z)
    (pageToken : option string) (w : World) :
  let params := [("channelId", PStr channelId);
                 ("part", PStr "snippet,contentDetails,statistics");
                 ("order", PStr "date");
                 ("maxResults", PNum maxResults);
                 ("pageToken", Client.token_param pageToken)] in
  let search := ("/search", (params ++ [("key", PStr apiKey)])%list) in
  let details ids :=
    ("/videos", [("id", PStr ids);
                 ("part", PStr "snippet,contentDetails,statistics");
                 ("key", PStr apiKey)]) in
  let out := Client.getChannelVideos apiKey net channelId maxResults pageToken w in
  (exists new,
      requests (snd out) = (requests w ++ new)%list
      /\ (new = [] \/ new = [search]
          \/ exists ids,
               ids <> EmptyString
               /\ (new = [details ids] \/ new = [search; details ids])))
  /\ (forall response w1,
        YouTubeAPIClient.makeRequest apiKey net "/search" params 1 w
        = (Ok response, w1) ->
        response <> JNull ->
        Js.truthy (Js.opt_prop (Some response) "items") = false
        \/ Client.videoIds (Js.opt_prop (Some response) "items") = Ok EmptyString ->
        snd out = w1
        /\ exists page, fst out = Ok page /\ Client.videos page = []).
Proof.
  intros params search details out.
  pose proof (getChannelVideos_steps apiKey net channelId maxResults pageToken w)
    as H. cbv zeta in H. fold params in H. fold out in H.
  pose proof (makeRequest_requests apiKey net "/search" params 1 w) as Hs.
  cbv zeta in Hs.
  change (set_param "key" (PStr apiKey) params)
    with (params ++ [("key", PStr apiKey)])%list in Hs.
  fold search in Hs.
  set (first := YouTubeAPIClient.makeRequest apiKey net "/search" params 1 w) in *.
  destruct H as [(Hst & Hempty & Hok) | (response & ids & Hr & Htr & Hids & Hne & Hst)].
  - split.
    + rewrite Hst. destruct Hs as [Hs|Hs]; rewrite Hs.
      * exists []. rewrite List.app_nil_r. split; [reflexivity | left; reflexivity].
      * exists [search]. split; [reflexivity | right; left; reflexivity].
    + intros response w1 E Hnull Hno. rewrite Hst, E. split; [reflexivity|].
      destruct (Hok response ltac:(rewrite E; reflexivity) Hnull Hno) as (page & Hp).
      exists page. split; [exact Hp | exact (Hempty page Hp)].
  - split.
    + pose proof (getVideoDetails_requests apiKey net ids (snd first)) as Hd.
      cbv zeta in Hd. fold (details ids) in Hd. rewrite <- Hst in Hd.
      destruct Hs as [Hs|Hs], Hd as [Hd|Hd]; rewrite Hs in Hd; rewrite Hd.
      * exists []. rewrite List.app_nil_r. split; [reflexivity | left; reflexivity].
      * exists [details ids]. split; [reflexivity|]. right; right.
        exists ids. split; [exact Hne | left; reflexivity].
      * exists [search]. split; [reflexivity | right; left; reflexivity].
      * exists [search; details ids]. rewrite <- List.app_assoc.
        split; [reflexivity|]. right; right.
        exists ids. split; [exact Hne | right; reflexivity].
    + intros r w1 E _ Hno. exfalso. rewrite E in Hr. injection Hr as ->.
      destruct Hno as [H|H]; [congruence|]. rewrite Hids in H.
      injection H as ->. contradiction.
Qed.

Section CombineFacts.

Lemma filter_res_ok {A} (f : A -> Res bool) l l' :
  filter_res f l = Ok l' ->
  List.Forall (fun x => f x = Ok true) l' /\ sublist l' l.
Proof.
  revert l'. induction l as [|x l IH]; intros l' E; cbn in E.
  - injection E as <-. split; constructor.
  - apply and_then_ok in E as (keep & Ek & E).
    apply and_then_ok in E as (xs & Exs & E). injection E as <-.
    destruct (IH _ Exs) as [Hall Hsub]. destruct keep.
    + split; [constructor; assumption | now apply sublist_skip].
    + split; [assumption | now apply sublist_cons].
Qed.

Lemma find_res_some {A} (f : A -> Res bool) l d :
  find_res f l = Ok (Some d) -> List.In d l /\ f d = Ok true.
Proof.
  induction l as [|x l IH]; cbn; [discriminate|]. intros E.
  apply and_then_ok in E as ([] & Ex & E).
  - injection E as <-. split; [left; reflexivity | exact Ex].
  - destruct (IH E) as [Hin Hd]. split; [right; exact Hin | exact Hd].
Qed.

Lemma strict_equal_eq a b : Dyn.strict_equal a b = true -> a = b.
Proof.
  destruct a as [[|x|x|x|x|x]|], b as [[|y|y|y|y|y]|]; cbn; try discriminate;
    try reflexivity; intros E.
  - apply Bool.eqb_prop in E. now subst.
  - apply Z.eqb_eq in E. now subst.
  - apply String.eqb_eq in E. now subst.
Qed.

(** A search entry that passed the filter has an id to read. *)
Lemma is_video_videoId item :
  Client.is_video item = Ok true -> exists vid, Client.videoId_of item = Ok vid.
Proof.
  unfold Client.is_video, Client.videoId_of. intros E.
  apply and_then_ok in E as (id & Eid & E). rewrite Eid. cbn [and_then].
  apply and_then_ok in E as (kind & Ek & _).
  destruct id as [[| | | | |fs]|]; cbn in Ek |- *; try discriminate;
    eexists; reflexivity.
Qed.

(** The entries that pass the filter are those whose kind is
    [youtube#video]. *)
Lemma filter_res_is_video l selected :
  filter_res Client.is_video l = Ok selected ->
  selected = List.filter Client.entry_is_video l.
Proof.
  revert selected. induction l as [|x l IH]; intros selected E; cbn in E.
  - injection E as <-. reflexivity.
  - apply and_then_ok in E as (keep & Ek & E).
    apply and_then_ok in E as (xs & Exs & E). injection E as <-.
    rewrite (IH _ Exs). cbn [List.filter].
    assert (Hk : Client.entry_is_video x = keep).
    { unfold Client.is_video in Ek. unfold Client.entry_is_video.
      apply and_then_ok in Ek as (id & Eid & Ek).
      apply and_then_ok in Ek as (kind & Ekind & Ek). injection Ek as <-.
      now rewrite <- (prop_opt _ _ _ Eid), <- (prop_opt _ _ _ Ekind). }
    rewrite Hk. reflexivity.
Qed.

(** [find] with a callback that reads the id of the entry anew for each
    record. *)
Lemma find_res_find item vid details x :
  Client.videoId_of item = Ok vid ->
  find_res (fun v => let! videoId := Client.videoId_of item in
                     Ok (Dyn.strict_equal (VideoDetails.videoId v) videoId))
    details = Ok x ->
  x = List.find (fun v => Dyn.strict_equal (VideoDetails.videoId v) vid) details.
Proof.
  intros Hvid.
  set (f := fun v => let! videoId := Client.videoId_of item in
                     Ok (Dyn.strict_equal (VideoDetails.videoId v) videoId)).
  assert (Hf : forall v, f v = Ok (Dyn.strict_equal (VideoDetails.videoId v) vid)).
  { intros v. unfold f. now rewrite Hvid. }
  clearbody f. revert x.
  induction details as [|d details IH]; intros x E; cbn [find_res] in E.
  - injection E as <-. reflexivity.
  - rewrite Hf in E. cbn [and_then] in E. cbn [List.find].
    destruct (Dyn.strict_equal (VideoDetails.videoId d) vid).
    + injection E as <-. reflexivity.
    + exact (IH _ E).
Qed.

(** What the callback of the second [map] gives for an entry. *)
Lemma detailed_joined details item y :
  Client.is_video item = Ok true ->
  Client.detailed details item = Ok y ->
  let hit := List.find (fun v => Dyn.strict_equal (VideoDetails.videoId v)
                                   (Client.entry_videoId item)) details in
  (exists d, hit = Some d
             /\ y = Some (VideoDetails.with_publishedAt
                            (Client.entry_publishedAt item) d))
  \/ (hit = None /\ y = None).
Proof.
  intros Hitem E hit. destruct (is_video_videoId _ Hitem) as (vid & Hvid).
  assert (Evid : vid = Client.entry_videoId item).
  { unfold Client.videoId_of in Hvid. unfold Client.entry_videoId.
    apply and_then_ok in Hvid as (id & Eid & Hvid).
    now rewrite <- (prop_opt _ _ _ Eid), <- (prop_opt _ _ _ Hvid). }
  unfold Client.detailed in E.
  apply and_then_ok in E as (x & Ef & E).
  apply (find_res_find _ _ _ _ Hvid) in Ef. rewrite Evid in Ef. fold hit in Ef.
  subst x. destruct hit as [d|].
  - left. exists d. split; [reflexivity|].
    apply and_then_ok in E as (snippet & Es & E).
    apply and_then_ok in E as (p & Ep & E). injection E as <-.
    unfold Client.entry_publishedAt.
    now rewrite <- (prop_opt _ _ _ Es), <- (prop_opt _ _ _ Ep).
  - right. injection E as <-. split; reflexivity.
Qed.

End CombineFacts.

(** The page [getChannelVideos] puts together.  The entries of the search
    reply that are videos are taken in their order; each of them for which
    the details have a record with its id gives one video, which is the
    first such record with the date of the search entry in place of its
    own; an entry the details have no record for is left out, and nothing
    else is.  So the videos follow the order of the search reply, not that
    of the reply with the details, and the page never has more videos than
    the search reply has video entries. *)
Theorem combine_follows_search
    (items : JsVal) (details found : list VideoDetails.t) :
  Client.combine items details = Ok found ->
  exists entries selected ids,
    items = Some (JArr entries)
    /\ selected = List.filter Client.entry_is_video entries
    /\ Client.joined details selected found
    /\ ids = List.map Client.entry_videoId selected
    /\ sublist (List.map VideoDetails.videoId found) ids
    /\ List.Forall
         (fun v => exists d p, List.In d details
                               /\ v = VideoDetails.with_publishedAt p d)
         found
    /\ (List.length found <= List.length selected)%nat.
Proof.
  unfold Client.combine. intros E.
  apply and_then_ok in E as (selected & Es & E).
  apply and_then_ok in E as (fo & Ef & E). injection E as <-.
  unfold Client.video_items in Es.
  destruct items as [[| | | |entries|]|]; try discriminate.
  exists entries, selected, (List.map Client.entry_videoId selected).
  split; [reflexivity|].
  split; [exact (filter_res_is_video _ _ Es)|].
  assert (Hsel : List.Forall (fun x => Client.is_video x = Ok true) selected)
    by exact (proj1 (filter_res_ok _ _ _ Es)).
  apply map_res_ok in Ef. clear Es.
  assert (G : Client.joined details selected (Client.compact fo)
              /\ sublist (List.map VideoDetails.videoId (Client.compact fo))
                   (List.map Client.entry_videoId selected)
              /\ List.Forall
                   (fun v => exists d p, List.In d details
                                         /\ v = VideoDetails.with_publishedAt p d)
                   (Client.compact fo)
              /\ (List.length (Client.compact fo) <= List.length selected)%nat).
  { induction Ef as [|item y selected fo Hy Ef IH].
    - repeat split; constructor.
    - apply List.Forall_cons_iff in Hsel as [Hitem Hsel].
      destruct (IH Hsel) as (Hj & Hsub & Hall & Hlen).
      destruct (detailed_joined _ _ _ Hitem Hy) as [(d & Hfind & ->) | [Hfind ->]];
        unfold Client.compact in *; cbn [List.flat_map List.map List.app].
      + split; [now apply Client.joined_found|].
        assert (Hid : VideoDetails.videoId d = Client.entry_videoId item).
        { apply List.find_some in Hfind as [_ Hd].
          now apply strict_equal_eq in Hd. }
        cbn. rewrite Hid.
        split; [now apply sublist_skip|].
        split; [|cbn; lia].
        constructor; [|exact Hall].
        exists d, (Client.entry_publishedAt item).
        split; [|reflexivity]. now apply List.find_some in Hfind as [Hin _].
      + split; [now apply Client.joined_missing|].
        split; [now apply sublist_cons|]. split; [exact Hall|]. cbn. lia. }
  destruct G as (Hj & Hsub & Hall & Hlen).
  split; [exact Hj|]. split; [reflexivity|].
  split; [exact Hsub|]. split; [exact Hall | exact Hlen].
Qed.

(** [combine_follows_search], at work: the details came in the other
    order, and the page follows the search reply, with its dates. *)
Lemma combine_follows_search_witness :
  exists found,
    Client.combine (Js.opt_prop (Some Replies.search_reply) "items")
      Replies.details = Ok found
    /\ List.map VideoDetails.videoId Replies.details
       = [Some (JStr "v2"); Some (JStr "v1")]
    /\ List.map VideoDetails.videoId found
       = [Some (JStr "v1"); Some (JStr "v2")]
    /\ List.map VideoDetails.publishedAt found
       = [Some (JStr "2024-05-01"); Some (JStr "2024-04-01")]
    /\ exists selected, Client.joined Replies.details selected found.
Proof.
  eexists. split; [vm_compute; reflexivity|]. split; [reflexivity|].
  split; [reflexivity|]. split; [reflexivity|].
  match goal with
  | |- exists selected, Client.joined _ selected ?f =>
      destruct (combine_follows_search
                  (Js.opt_prop (Some Replies.search_reply) "items")
                  Replies.details f)
        as (entries & selected & ids & _ & _ & Hj & _)
  end.
  - vm_compute. reflexivity.
  - exists selected. exact Hj.
Defined.

(** ** The classifier on the values the upstream service documents *)

Section TypedFacts.

Lemma some_res_strings ts :
  some_res Client.tag_test (List.map JStr ts)
  = Ok (existsb (fun tag =>
                   JsString.includes (JsString.toLowerCase tag) "short"
                   || JsString.includes (JsString.toLowerCase tag) "shorts") ts).
Proof.
  induction ts as [|x ts IH]; [reflexivity|]. cbn [List.map some_res existsb].
  cbn [Client.tag_test and_then]. rewrite IH.
  destruct (JsString.includes (JsString.toLowerCase x) "short"
            || JsString.includes (JsString.toLowerCase x) "shorts"); reflexivity.
Qed.

Lemma some_res_throws l e :
  some_res Client.tag_test l = Throw e -> exists m, e = JsTypeError m.
Proof.
  induction l as [|x l IH]; cbn; [discriminate|].
  destruct x as [| | |s| |]; cbn; try (intros E; injection E as <-; eexists; reflexivity).
  destruct (_ || _); [discriminate | exact IH].
Qed.

End TypedFacts.

(** [isShort] on values of the reply.  On a category that is a string or
    missing and tags that are a list of strings or missing, it never throws
    and answers what the classifier on typed values answers.  On any
    category and any tags, a duration of at most 60 seconds is a Short
    without a look at the tags; and what it throws is a [TypeError], for a
    duration above 60 seconds and tags that are there. *)
Theorem client_isShort_typed :
  (forall (categoryId : option string) (d : Z) (tags : option (list string)),
      Client.isShort (option_map JStr categoryId) d
        (option_map (fun ts => JArr (List.map JStr ts)) tags)
      = Ok (Decoders.isShort categoryId d tags))
  /\ (forall (categoryId tags : JsVal) (d : Z),
        d <= 60 -> Client.isShort categoryId d tags = Ok true)
  /\ (forall (categoryId tags : JsVal) (d : Z) (e : Exn),
        Client.isShort categoryId d tags = Throw e ->
        60 < d /\ Js.truthy tags = true /\ exists m, e = JsTypeError m).
Proof.
  split; [|split].
  - intros categoryId d tags. unfold Client.isShort, Decoders.isShort.
    destruct (d <=? 60); [reflexivity|].
    assert (Hc : Dyn.is_string (option_map JStr categoryId) "23"
                 = Decoders.strict_eq categoryId "23").
    { destruct categoryId; reflexivity. }
    rewrite Hc. destruct tags as [ts|]; cbn [option_map Js.truthy].
    + rewrite some_res_strings. cbn [and_then].
      destruct (existsb _ ts); [reflexivity|].
      destruct (Decoders.strict_eq categoryId "23"); reflexivity.
    + cbn [and_then].
      destruct (Decoders.strict_eq categoryId "23"); reflexivity.
  - intros categoryId tags d Hd. unfold Client.isShort.
    destruct (Z.leb_spec d 60); [reflexivity | lia].
  - intros categoryId tags d e. unfold Client.isShort.
    destruct (Z.leb_spec d 60) as [L|L]; [discriminate|].
    destruct (Js.truthy tags) eqn:Htr.
    + intros E. split; [lia|]. split; [reflexivity|].
      destruct tags as [[| | | |l|]|];
        try (cbn in E; injection E as <-; eexists; reflexivity).
      destruct (some_res Client.tag_test l) as [tagged|e0] eqn:Es.
      * cbn in E. destruct tagged; [discriminate|].
        destruct (Dyn.is_string categoryId "23"); discriminate.
      * cbn in E. injection E as <-. exact (some_res_throws _ _ Es).
    + cbn [and_then]. destruct (Dyn.is_string categoryId "23"); discriminate.
Qed.

(** ** The cost of a walk *)

Section WalkCost.
Import Walker.

Context {W : Type}.
Variable g : string -> Z -> option string -> M W Page.
Variable channelId : string.
Variable maxPages : Z.

(** What a call costs, in any measure of the state. *)
Variable cost : W -> nat.
Variable k : nat.
Hypothesis call_cost :
  forall c n tok w, (cost (snd (g c n tok w)) <= cost w + k)%nat.

Lemma do_while_cost fuel :
  forall acc tok done w,
    maxPages - done - 1 <= Z.of_nat fuel ->
    Z.of_nat (cost (snd (do_while g channelId maxPages fuel acc tok done w)))
    <= Z.of_nat (cost w) + Z.of_nat k * Z.max 1 (maxPages - done).
Proof.
  induction fuel as [|fuel IH]; intros acc tok done w Hfuel;
    rewrite do_while_step;
    pose proof (call_cost channelId 50 tok w) as Hc;
    destruct (g channelId 50 tok w) as [[p|e] w1]; cbn [snd] in Hc |- *;
    try (destruct (token_truthy (nextPageToken p) && (done + 1 <? maxPages)) eqn:Et;
         cbn [snd]); try nia.
  - apply andb_true_iff in Et as [_ Hlt]. apply Z.ltb_lt in Hlt.
    specialize (IH (acc ++ videos p)%list (nextPageToken p) (done + 1) w1
                  ltac:(lia)). nia.
Qed.

End WalkCost.

(** A walk over the pages of a channel sends at most [k] requests for
    each page it may fetch, when one call of [getChannelVideos] sends at
    most [k]: no more than [k] times [maxPages] in all, and no more than
    [k] when [maxPages] is below one, whether the walk returns or a page
    fails. *)
Theorem walk_requests_bound
    (client : ClientOps) (k : nat) (channelId : string) (maxPages : Z)
    (e : Env) :
  (forall c n tok w,
      (List.length (requests (snd (getChannelVideos client c n tok w)))
       <= List.length (requests w) + k)%nat) ->
  let out :=
    YouTubeChannelService.fetchChannelVideosPaginated client channelId maxPages e in
  Z.of_nat (List.length (requests (world (snd out))))
  <= Z.of_nat (List.length (requests (world e)))
     + Z.of_nat k * Z.max 1 maxPages.
Proof.
  intros Hk out. subst out.
  unfold YouTubeChannelService.fetchChannelVideosPaginated.
  rewrite fetch_is_loop.
  pose proof (do_while_cost
                (fun c n tok => on_world (getChannelVideos client c n tok))
                channelId maxPages
                (fun e => List.length (requests (world e))) k) as H.
  replace (Z.max 1 maxPages) with (Z.max 1 (maxPages - 0)) by (f_equal; lia).
  apply H; [|lia].
  intros c n tok w. unfold on_world.
  pose proof (Hk c n tok (world w)) as Hw.
  destruct (getChannelVideos client c n tok (world w)) as [r w1]. exact Hw.
Qed.

(** [walk_requests_bound], at work: the client of the code sends two
    requests at most for a page, a search and the details of its videos. *)
Lemma walk_requests_bound_witness :
  let client := Typed.ops Replies.net Scenario.apiKey in
  let out :=
    YouTubeChannelService.fetchChannelVideosPaginated client "UC1" 3
      {| world := Scenario.start; store := Storage.empty |} in
  Z.of_nat (List.length (requests (world (snd out)))) <= 0 + 2 * Z.max 1 3.
Proof.
  intros client.
  apply (walk_requests_bound client 2 "UC1" 3
           {| world := Scenario.start; store := Storage.empty |}).
  intros c n tok w. unfold client, Typed.ops. cbn [getChannelVideos].
  pose proof (getChannelVideos_at_most_two Scenario.apiKey Replies.net c n tok w)
    as H.
  unfold bind, ret.
  destruct (Client.getChannelVideos Scenario.apiKey Replies.net c n tok w)
    as [[found|e] w1]; exact H.
Defined.

(** The walk is a [do ... while]: it fetches the first page before it
    looks at [maxPages].  For [maxPages] at most one, zero and the negative
    numbers included, it makes exactly one call, with no token, and returns
    the videos of that page, or throws what the call threw. *)
Theorem walk_fetches_one_page
    (W : Type) (g : string -> Z -> option string -> M W Page)
    (channelId : string) (maxPages : Z) (w : W) :
  maxPages <= 1 ->
  Walker.fetchChannelVideosPaginated g channelId maxPages w
  = match g channelId 50 None w with
    | (Ok page, w1) => (Ok (videos page), w1)
    | (Throw e, w1) => (Throw e, w1)
    end.
Proof.
  intros Hmax. rewrite fetch_is_loop, do_while_step.
  destruct (g channelId 50 None w) as [[page|e] w1]; [|reflexivity].
  assert (E : (0 + 1 <? maxPages) = false) by (apply Z.ltb_ge; lia).
  rewrite E, andb_false_r. reflexivity.
Qed.

(** [walk_fetches_one_page], at work: no page asked of the channel of
    five pages. *)
Lemma walk_fetches_one_page_witness :
  fst (Walker.fetchChannelVideosPaginated (Scenario.paged Scenario.five_pages)
         "UC1" 0 (YouTubeAPIClient.fresh 0))
  = Ok [Scenario.mk_video "a" true; Scenario.mk_video "b" false].
Proof.
  rewrite (walk_fetches_one_page World (Scenario.paged Scenario.five_pages)
             "UC1" 0 (YouTubeAPIClient.fresh 0)) by lia.
  reflexivity.
Defined.

(** ** The rows a job writes to *)

Section RowFrame.
Import JobQueue.

Lemma touches_only_refl i s : touches_only i s s.
Proof. repeat split. Qed.

Lemma touches_only_trans i s1 s2 s3 :
  touches_only i s1 s2 -> touches_only i s2 s3 -> touches_only i s1 s3.
Proof.
  intros (A1 & A2 & A3) (B1 & B2 & B3). split; [congruence|]. split.
  - intros j Hj. rewrite (B2 j Hj). exact (A2 j Hj).
  - intros Hn. destruct (A3 Hn) as [Q1 W1].
    assert (Hn2 : job_queue s2 !! i = None) by (rewrite Q1; exact Hn).
    destruct (B3 Hn2) as [Q2 W2]. split; congruence.
Qed.

Lemma row_frame_ret {A} i (a : A) : row_frame i (ret a).
Proof. intros s. apply touches_only_refl. Qed.

Lemma row_frame_throw {A} i e : row_frame (A := A) i (throw e).
Proof. intros s. apply touches_only_refl. Qed.

Lemma row_frame_bind {A B} i (m : M Sys A) (k : A -> M Sys B) :
  row_frame i m -> (forall a, row_frame i (k a)) -> row_frame i (bind m k).
Proof.
  intros Hm Hk s. unfold bind. specialize (Hm s).
  destruct (m s) as [[a|e] s1]; cbn [snd] in *; [|exact Hm].
  exact (touches_only_trans _ _ _ _ Hm (Hk a s1)).
Qed.

Lemma row_frame_try {A} i (m : M Sys A) (h : Exn -> M Sys A) :
  row_frame i m -> (forall e, row_frame i (h e)) -> row_frame i (try_catch m h).
Proof.
  intros Hm Hh s. unfold try_catch. specialize (Hm s).
  destruct (m s) as [[a|e] s1]; cbn [snd] in *; [exact Hm|].
  exact (touches_only_trans _ _ _ _ Hm (Hh e s1)).
Qed.

Lemma row_frame_on_env {A} i (m : M Env A) : row_frame i (on_env m).
Proof.
  intros s. unfold on_env. destruct (m (env s)) as [r e]. repeat split.
Qed.

Lemma update_row_touches i f wr s : touches_only i s (update_row i f wr s).
Proof.
  unfold update_row. destruct (job_queue s !! i) as [row|] eqn:Hrow.
  - split; [reflexivity|]. split.
    + intros j Hj. cbn. now rewrite lookup_insert_ne by congruence.
    + intros Hn. congruence.
  - apply touches_only_refl.
Qed.

Lemma row_frame_status i st msg : row_frame i (updateJobStatus i st msg).
Proof.
  intros s. unfold updateJobStatus, modify. cbn [snd].
  destruct st; [apply touches_only_refl | | |]; apply update_row_touches.
Qed.

Lemma row_frame_progress i p : row_frame i (updateJobProgress i p).
Proof. intros s. unfold updateJobProgress, modify. apply update_row_touches. Qed.

Lemma row_frame_fetchChannel new_client job :
  row_frame (id job) (process_fetchChannel new_client job).
Proof.
  unfold process_fetchChannel.
  apply row_frame_bind; [apply row_frame_status|]. intros _.
  apply row_frame_try.
  - repeat first
      [ apply row_frame_ret
      | apply row_frame_on_env
      | apply row_frame_status
      | apply row_frame_progress
      | apply row_frame_bind; [|intros ?] ].
  - intros e. apply row_frame_bind; [apply row_frame_status|].
    intros _. apply row_frame_throw.
Qed.

Lemma row_frame_fetchVideos method job :
  row_frame (id job) (process_fetchVideos method job).
Proof.
  unfold process_fetchVideos.
  apply row_frame_bind; [apply row_frame_status|]. intros _.
  apply row_frame_try.
  - repeat first
      [ apply row_frame_ret
      | apply row_frame_on_env
      | apply row_frame_status
      | apply row_frame_progress
      | apply row_frame_bind; [|intros ?] ].
  - intros e. apply row_frame_bind; [apply row_frame_status|].
    intros _. apply row_frame_throw.
Qed.

(** The runs of a job touch what one run may touch. *)
Lemma row_frame_run (process : Job -> M Sys JobReturn) fuel :
  (forall job, row_frame (id job) (process job)) ->
  forall job, row_frame (id job) (Bull.run fuel process job).
Proof.
  intros Hp. induction fuel as [|fuel IH]; intros job; cbn [Bull.run];
    apply row_frame_try; try apply Hp; intros e;
    destruct (attemptsMade job + 1 <? attempts (opts job));
    try apply row_frame_throw.
  apply row_frame_bind; [apply row_frame_on_env|]. intros _.
  exact (IH (Bull.with_attemptsMade (attemptsMade job + 1) job)).
Qed.

End RowFrame.

Section OutcomeFacts.
Import JobQueue.

Lemma updateJobStatus_returns i st msg s :
  updateJobStatus i st msg s = (Ok tt, snd (updateJobStatus i st msg s)).
Proof. reflexivity. Qed.

Lemma updateJobProgress_returns i p s :
  updateJobProgress i p s = (Ok tt, snd (updateJobProgress i p s)).
Proof. reflexivity. Qed.

Lemma new_client_returns s :
  on_env (on_world new_YouTubeAPIClient) s
  = (Ok tt, snd (on_env (on_world new_YouTubeAPIClient) s)).
Proof. reflexivity. Qed.

(** The outcome of one run of the processor of channel jobs is the
    outcome of its two calls of the service: what the first that throws
    threw, as it was thrown, and the summary when both returned. *)
Lemma process_fetchChannel_outcome new_client job s :
  let s1 := snd (on_env (on_world new_YouTubeAPIClient)
                   (snd (updateJobStatus (id job) started None s))) in
  let service := new_client (d_apiKey (data job)) in
  match on_env (YouTubeChannelService.fetchAndStoreChannel service
                  (d_channelId (data job))) s1 with
  | (Throw e, _) => fst (process_fetchChannel new_client job s) = Throw e
  | (Ok channelData, s2) =>
      match on_env (YouTubeChannelService.fetchChannelVideosPaginated service
                      (d_channelId (data job)) 5)
              (snd (updateJobProgress (id job) 50 s2)) with
      | (Throw e, _) => fst (process_fetchChannel new_client job s) = Throw e
      | (Ok videos, _) =>
          fst (process_fetchChannel new_client job s)
          = Ok {| success := true; r_channelData := Some channelData;
                  r_videoCount := Z.of_nat (List.length videos) |}
      end
  end.
Proof.
  intros s1 service. unfold process_fetchChannel.
  rewrite (bind_ok _ _ _ _ _ (updateJobStatus_returns (id job) started None s)).
  unfold try_catch.
  rewrite (bind_ok _ _ _ _ _ (new_client_returns _)). fold s1. fold service.
  destruct (on_env (YouTubeChannelService.fetchAndStoreChannel service
                      (d_channelId (data job))) s1) as [[channelData|e] s2] eqn:E3.
  - rewrite (bind_ok _ _ _ _ _ E3).
    rewrite (bind_ok _ _ _ _ _ (updateJobProgress_returns (id job) 50 s2)).
    destruct (on_env (YouTubeChannelService.fetchChannelVideosPaginated service
                        (d_channelId (data job)) 5)
                (snd (updateJobProgress (id job) 50 s2)))
      as [[videos|e] s4] eqn:E5.
    + rewrite (bind_ok _ _ _ _ _ E5).
      rewrite (bind_ok _ _ _ _ _ (updateJobProgress_returns (id job) 100 s4)).
      rewrite (bind_ok _ _ _ _ _ (updateJobStatus_returns (id job) completed None _)).
      reflexivity.
    + rewrite (bind_throw _ _ _ _ _ E5).
      rewrite (bind_ok _ _ _ _ _ (updateJobStatus_returns (id job) failed _ s4)).
      reflexivity.
  - rewrite (bind_throw _ _ _ _ _ E3).
    rewrite (bind_ok _ _ _ _ _ (updateJobStatus_returns (id job) failed _ s2)).
    reflexivity.
Qed.

(** The three runs of a video job, read off the row. *)
Lemma work_fetchVideos method job s :
  attempts (opts job) = 3 -> attemptsMade job = 0 ->
  is_Some (job_queue s !! id job) ->
  exists s',
    Bull.work (process_fetchVideos method) job s
    = (Throw (JsTypeError
                "this.client.fetchChannelVideosPaginated is not a function"), s')
    /\ written s'
       = (written s
          ++ List.map (pair (id job))
               [SetStatus started; SetStatus failed; SetStatus started;
                SetStatus failed; SetStatus started; SetStatus failed])%list.
Proof.
  intros Ha Hm H0. rewrite (work_three _ job s Ha Hm).
  destruct (process_fetchVideos_run method job s H0) as (s1 & E1 & W1 & H1).
  rewrite (try_throw _ _ _ _ _ E1).
  destruct (sleep_frame (Bull.backoff (opts job) 1) s1) as (s1' & Es & Q1 & V1).
  rewrite (bind_ok _ _ _ _ _ Es).
  destruct (process_fetchVideos_run method (Bull.with_attemptsMade 1 job) s1'
              ltac:(rewrite Q1; exact H1)) as (s2 & E2 & W2 & H2).
  rewrite (try_throw _ _ _ _ _ E2).
  destruct (sleep_frame (Bull.backoff (opts job) 2) s2) as (s2' & Es' & Q2 & V2).
  rewrite (bind_ok _ _ _ _ _ Es').
  destruct (process_fetchVideos_run method (Bull.with_attemptsMade 2 job) s2'
              ltac:(rewrite Q2; exact H2)) as (s3 & E3 & W3 & H3).
  rewrite E3. exists s3. split; [reflexivity|].
  cbn [id Bull.with_attemptsMade] in W2, W3.
  rewrite W3, V2, W2, V1, W1, <- !List.app_assoc. reflexivity.
Qed.

(** With no row under the id of the job, the runs write nothing. *)
Lemma no_row_no_write (process : Job -> M Sys JobReturn) job s :
  (forall j, row_frame (id j) (process j)) ->
  job_queue s !! id job = None ->
  written (snd (Bull.work process job s)) = written s
  /\ job_queue (snd (Bull.work process job s)) = job_queue s.
Proof.
  intros Hp Hn.
  destruct (row_frame_run process (Z.to_nat (attempts (opts job))) Hp job s)
    as (_ & _ & H).
  destruct (H Hn) as [Q W]. split; assumption.
Qed.

End OutcomeFacts.

(** C4, the claim as it stands, fails: a channel job whose channel the
    upstream service does not know (status 404, the taxonomy's NotFound).
    [getChannelInfo] throws the error of the 404; the job is not failed
    for good by its first run: it is run three times, each run sends the
    request again and marks the row failed, and the job ends failed eight
    seconds of waiting after its start (two seconds, then six). *)
Lemma C4_counterexample :
  let net := Scenario.always Scenario.not_found in
  let r := Runs.channel_job net Scenario.system in
  Taxonomy.classify Scenario.not_found = Some Taxonomy.NotFound
  /\ fst (Client.getChannelInfo Scenario.apiKey net "UC1" "id" Scenario.start)
     = Throw (JsError "YouTube API Error: 404 - Not Found")
  /\ fst r = Throw (JsError "YouTube API Error: 404 - Not Found")
  /\ requests (world (env (snd r)))
     = List.repeat ("/channels", [("id", PStr "UC1");
                                  ("part", PStr "snippet,statistics");
                                  ("key", PStr Scenario.apiKey)]) 3
  /\ writes_of 1 (written (snd r))
     = [SetStatus started; SetStatus failed; SetStatus started; SetStatus failed;
        SetStatus started; SetStatus failed]
  /\ now (world (env (snd r))) = now (world (env Scenario.system)) + 2000 + 6000.
Proof. vm_compute. repeat split; reflexivity. Qed.

(** C4, amended: a job is queued with three attempts and an exponential
    backoff of two seconds, and the scheduler runs it again after a run
    that failed, whatever the failure was, transient or not: two seconds
    after the first failed run and six seconds after the second; the
    outcome of the third run is the outcome of the job.  A run of the
    processor of channel jobs fails exactly when one of its two calls of
    the service throws, and it throws that error as it came, so that a
    job that fails with NotFound or Upstream4xx is retried like any other.
    The processor updates the row of [job_queue] whose id is the id of the
    job: when the table has such a row, each run marks it started, each
    failed run marks it failed at its end, and the row stays failed only
    after the third failed run; when it has none, the runs write
    nothing. *)
Theorem C4_retries_any_failure
    (new_client : string -> ClientOps)
    (method : string -> Z -> M Env (list Video))
    (job : Job) (priority : Z) (s : Sys) :
  opts job = JobQueue.job_opts priority ->
  attemptsMade job = 0 ->
  let channel := JobQueue.process_fetchChannel new_client in
  let video := JobQueue.process_fetchVideos method in
  let three_runs (process : Job -> M Sys JobReturn) : M Sys JobReturn :=
    try_catch (process job)
      (fun _ =>
         Bull.sleep 2000 ;;
         try_catch (process (Bull.with_attemptsMade 1 job))
           (fun _ =>
              Bull.sleep 6000 ;;
              process (Bull.with_attemptsMade 2 job))) in
  Bull.work channel job s = three_runs channel s
  /\ Bull.work video job s = three_runs video s
  /\ (forall j s0,
        let s1 := snd (on_env (on_world new_YouTubeAPIClient)
                         (snd (JobQueue.updateJobStatus (id j) started None s0))) in
        let service := new_client (d_apiKey (data j)) in
        match on_env (YouTubeChannelService.fetchAndStoreChannel service
                        (d_channelId (data j))) s1 with
        | (Throw e, _) => fst (channel j s0) = Throw e
        | (Ok channelData, s2) =>
            match on_env (YouTubeChannelService.fetchChannelVideosPaginated
                            service (d_channelId (data j)) 5)
                    (snd (JobQueue.updateJobProgress (id j) 50 s2)) with
            | (Throw e, _) => fst (channel j s0) = Throw e
            | (Ok videos, _) =>
                fst (channel j s0)
                = Ok {| success := true; r_channelData := Some channelData;
                        r_videoCount := Z.of_nat (List.length videos) |}
            end
        end)
  /\ (is_Some (job_queue s !! id job) ->
      (exists r s' runs,
          Bull.work channel job s = (r, s')
          /\ written s'
             = (written s ++ List.map (pair (id job)) (List.concat runs))%list
          /\ runs_of_job (returned r) runs
          /\ (List.length runs <= 3)%nat
          /\ (returned r = false -> List.length runs = 3%nat))
      /\ (exists s',
             Bull.work video job s
             = (Throw (JsTypeError
                  "this.client.fetchChannelVideosPaginated is not a function"), s')
             /\ written s'
                = (written s
                   ++ List.map (pair (id job))
                        [SetStatus started; SetStatus failed; SetStatus started;
                         SetStatus failed; SetStatus started;
                         SetStatus failed])%list))
  /\ (job_queue s !! id job = None ->
      written (snd (Bull.work channel job s)) = written s
      /\ job_queue (snd (Bull.work channel job s)) = job_queue s
      /\ written (snd (Bull.work video job s)) = written s
      /\ job_queue (snd (Bull.work video job s)) = job_queue s).
Proof.
  intros Ho Hm channel video three_runs.
  assert (Ha : attempts (opts job) = 3) by (rewrite Ho; reflexivity).
  split; [|split; [|split; [|split]]].
  - unfold three_runs. rewrite (work_three channel job s Ha Hm).
    rewrite Ho. reflexivity.
  - unfold three_runs. rewrite (work_three video job s Ha Hm).
    rewrite Ho. reflexivity.
  - intros j s0. exact (process_fetchChannel_outcome new_client j s0).
  - intros H0. split.
    + exact (work_runs channel (process_fetchChannel_run new_client)
               job s Ha Hm H0).
    + exact (work_fetchVideos method job s Ha Hm H0).
  - intros Hn.
    destruct (no_row_no_write channel job s
                (row_frame_fetchChannel new_client) Hn) as [W Q].
    destruct (no_row_no_write video job s
                (row_frame_fetchVideos method) Hn) as [W' Q'].
    repeat split; assumption.
Qed.

(** C4, at work: the first channel job of the example, over an upstream
    service that answers 404: three runs, each of them failed. *)
Lemma C4_retries_any_failure_witness :
  let channel :=
    JobQueue.process_fetchChannel
      (Typed.ops (Scenario.always Scenario.not_found)) in
  Bull.work channel Scenario.job1 Scenario.queued
  = try_catch (channel Scenario.job1)
      (fun _ =>
         Bull.sleep 2000 ;;
         try_catch (channel (Bull.with_attemptsMade 1 Scenario.job1))
           (fun _ =>
              Bull.sleep 6000 ;;
              channel (Bull.with_attemptsMade 2 Scenario.job1))) Scenario.queued
  /\ exists r s' runs,
       Bull.work channel Scenario.job1 Scenario.queued = (r, s')
       /\ written s'
          = (written Scenario.queued ++ List.map (pair 1) (List.concat runs))%list
       /\ runs_of_job (returned r) runs
       /\ (List.length runs <= 3)%nat.
Proof.
  intros channel.
  destruct (C4_retries_any_failure
              (Typed.ops (Scenario.always Scenario.not_found))
              (fun _ _ => throw (JsError "no such method"))
              Scenario.job1 1 Scenario.queued eq_refl eq_refl)
    as (Hs & _ & _ & Hrow & _).
  split; [exact Hs|].
  destruct Hrow as [(r & s' & runs & E & W & R & Hlen & _) _].
  - vm_compute. eauto.
  - exists r, s', runs. repeat split; assumption.
Defined.

(** C6, the claim as it stands, fails: the upstream service fails once and
    answers from then on, with replies that have every field the code
    reads, each of its type.  The row of the job is marked failed at the
    end of the first run, started again by the second, and completed at its
    end: a terminal state was left, twice.  The second run sends the
    request for the channel again, one search and one request for details,
    and a second search with the token of the first page; the pages after
    that come from the cache. *)
Lemma C6_counterexample :
  let r := Runs.channel_job Runs.flaky Scenario.system in
  statuses (writes_of 1 (written (snd r)))
  = [started; failed; started; completed]
  /\ progresses (writes_of 1 (written (snd r))) = [50; 100]
  /\ fst r
     = Ok {| success := true;
             r_channelData :=
               Some {| channel_id := "UC1";
                       ch_data :=
                         {| c_channelId := "UC1"; c_title := "A channel";
                            c_description := "About the channel";
                            c_customUrl := Some "@achannel";
                            c_thumbnailUrl := Some "https://i/c.jpg";
                            c_bannerUrl := None;
                            subscriberCount := 1500; videoCount := 2;
                            c_viewCount := 2400 |};
                       ch_created_at := 3000; ch_updated_at := 3000 |};
             r_videoCount := 10 |}
  /\ (status <$> job_queue (snd r) !! 1) = Some completed
  /\ List.map fst (requests (world (env (snd r))))
     = ["/channels"; "/channels"; "/search"; "/videos"; "/search"].
Proof. vm_compute. repeat split; reflexivity. Qed.

(** C6, amended.  A processor updates the row of [job_queue] whose id is
    the id of its job, and no other.  When the table has such a row, one
    run moves it forward: [started], then either the progress (50 and 100
    for a channel job) and [completed], or [failed] (after the progress 50
    at most).  Over the runs of a job the status does not only move
    forward: every run after a failed one marks the row [started] again, so
    that the statuses written are [started, failed] for each failed run,
    with [completed] in place of the last [failed] when the last run
    returned, in at most three runs; a job that ends failed has been
    marked failed three times.  The progress written over the whole life
    of the job never decreases.  A video job fails in each of its three
    runs.  When the table has no row under the id of the job, neither one
    run nor the runs together write anything. *)
Theorem C6_job_lifetime
    (new_client : string -> ClientOps)
    (method : string -> Z -> M Env (list Video)) (job : Job) (s : Sys) :
  attempts (opts job) = 3 ->
  attemptsMade job = 0 ->
  let channel := JobQueue.process_fetchChannel new_client in
  let video := JobQueue.process_fetchVideos method in
  (is_Some (job_queue s !! id job) ->
   (exists r s' ws,
       channel job s = (r, s')
       /\ written s' = (written s ++ List.map (pair (id job)) ws)%list
       /\ (if returned r then completed_run ws else failed_run ws))
   /\ (exists r s' ws,
          Bull.work channel job s = (r, s')
          /\ written s' = (written s ++ List.map (pair (id job)) ws)%list
          /\ (if returned r
              then statuses ws = [started; completed]
                   \/ statuses ws = [started; failed; started; completed]
                   \/ statuses ws
                      = [started; failed; started; failed; started; completed]
              else statuses ws
                   = [started; failed; started; failed; started; failed])
          /\ nondecreasing (progresses ws)
          /\ List.Forall (fun p => p = 50 \/ p = 100) (progresses ws))
   /\ (exists r s' ws,
          Bull.work video job s = (r, s')
          /\ written s' = (written s ++ List.map (pair (id job)) ws)%list
          /\ returned r = false
          /\ statuses ws = [started; failed; started; failed; started; failed]
          /\ progresses ws = []))
  /\ (job_queue s !! id job = None ->
      (written (snd (channel job s)) = written s
       /\ job_queue (snd (channel job s)) = job_queue s)
      /\ (written (snd (Bull.work channel job s)) = written s
          /\ job_queue (snd (Bull.work channel job s)) = job_queue s)
      /\ (written (snd (Bull.work video job s)) = written s
          /\ job_queue (snd (Bull.work video job s)) = job_queue s)).
Proof.
  intros Ha Hm channel video. split.
  - intros H0. split; [|split].
    + destruct (process_fetchChannel_run new_client job s H0)
        as (r & s' & ws & E & W & _ & R).
      exists r, s', ws. repeat split; assumption.
    + destruct (work_runs channel (process_fetchChannel_run new_client)
                  job s Ha Hm H0)
        as (r & s' & runs & E & W & R & Hlen & Hthree).
      exists r, s', (List.concat runs).
      split; [exact E|]. split; [exact W|].
      exact (runs_history (returned r) runs R Hlen Hthree).
    + destruct (work_fetchVideos method job s Ha Hm H0) as (s' & E & W).
      eexists. exists s'.
      exists [SetStatus started; SetStatus failed; SetStatus started;
              SetStatus failed; SetStatus started; SetStatus failed].
      split; [exact E|]. split; [exact W|]. repeat split.
  - intros Hn. split; [|split].
    + destruct (row_frame_fetchChannel new_client job s) as (_ & _ & H).
      destruct (H Hn) as [Q W]. split; assumption.
    + exact (no_row_no_write channel job s
               (row_frame_fetchChannel new_client) Hn).
    + exact (no_row_no_write video job s
               (row_frame_fetchVideos method) Hn).
Qed.

(** C6, at work: the first channel job of the example, over the upstream
    service that fails once. *)
Lemma C6_job_lifetime_witness :
  exists r s' ws,
    Bull.work (JobQueue.process_fetchChannel (Typed.ops Runs.flaky))
      Scenario.job1 Scenario.queued = (r, s')
    /\ written s' = (written Scenario.queued ++ List.map (pair 1) ws)%list
    /\ nondecreasing (progresses ws).
Proof.
  destruct (C6_job_lifetime (Typed.ops Runs.flaky)
              (fun _ _ => throw (JsError "no such method"))
              Scenario.job1 Scenario.queued eq_refl eq_refl)
    as [Hrow _].
  destruct Hrow as (_ & (r & s' & ws & E & W & _ & Hp & _) & _).
  - vm_compute. eauto.
  - exists r, s', ws. repeat split; assumption.
Defined.

(** A processor writes to one row of [job_queue] at most, the one whose
    key is the id of its job, and inserts none; when the table has no row
    under that key, the updates of the processor change nothing and leave
    no trace, and the job runs on all the same.  So do all the runs of a
    job together. *)
Theorem processors_touch_one_row
    (new_client : string -> ClientOps)
    (method : string -> Z -> M Env (list Video)) (job : Job) (s : Sys) :
  touches_only (id job) s (snd (JobQueue.process_fetchChannel new_client job s))
  /\ touches_only (id job) s (snd (JobQueue.process_fetchVideos method job s))
  /\ touches_only (id job) s
       (snd (Bull.work (JobQueue.process_fetchChannel new_client) job s))
  /\ touches_only (id job) s
       (snd (Bull.work (JobQueue.process_fetchVideos method) job s)).
Proof.
  split; [apply row_frame_fetchChannel|].
  split; [apply row_frame_fetchVideos|].
  split; unfold Bull.work; apply row_frame_run; intros j;
    [apply row_frame_fetchChannel | apply row_frame_fetchVideos].
Qed.

(** The row of a job and the id of the job.  [addChannelFetchJob] stores
    the row under the next value of the table's serial key and leaves the
    id Bull gave the job out of it; the processor updates the row whose key
    is that id.  Whenever the two differ, the row of the job stays as it
    was inserted, [pending] with no progress, through all the runs of the
    job and whatever their outcome. *)
Theorem job_row_left_pending
    (new_client : string -> ClientOps) (channelId apiKey : string)
    (priority : Z) (s : Sys) :
  let added := JobQueue.addChannelFetchJob channelId priority apiKey s in
  forall job, fst added = Ok job ->
  id job <> job_serial s ->
  let out := Bull.work (JobQueue.process_fetchChannel new_client) job (snd added) in
  job_queue (snd out) !! job_serial s
  = Some {| job_type := "channel_fetch"; j_channel_id := channelId;
            status := pending; priority := 1;
            created_at := JobQueue.clock s;
            started_at := None; completed_at := None;
            error_message := None; progress := 0 |}.
Proof.
  intros added job Hjob Hne out.
  assert (Hrow : job_queue (snd added) !! job_serial s
                 = Some {| job_type := "channel_fetch"; j_channel_id := channelId;
                           status := pending; priority := 1;
                           created_at := JobQueue.clock s;
                           started_at := None; completed_at := None;
                           error_message := None; progress := 0 |}).
  { subst added. cbn. now rewrite lookup_insert_eq. }
  assert (H : touches_only (id job) (snd added) (snd out)).
  { subst out. unfold Bull.work. apply row_frame_run. intros j.
    apply row_frame_fetchChannel. }
  destruct H as (_ & H & _). rewrite (H (job_serial s)) by congruence.
  exact Hrow.
Qed.

(** [job_row_left_pending], at work: a channel job queued after a video
    job.  Its id is 1 and its row has the key 2; the runs of the job write
    to the row 1, which is the row of the video job. *)
Lemma job_row_left_pending_witness :
  let s := snd (JobQueue.addVideoFetchJob "UC0" None 1 Scenario.apiKey
                  Scenario.system) in
  let added := JobQueue.addChannelFetchJob "UC1" 1 Scenario.apiKey s in
  let out :=
    Bull.work (JobQueue.process_fetchChannel (Typed.ops Runs.flaky))
      Scenario.job1 (snd added) in
  (status <$> job_queue (snd out) !! 2) = Some pending
  /\ (job_type <$> job_queue (snd out) !! 1) = Some "video_fetch"
  /\ (status <$> job_queue (snd out) !! 1) = Some completed.
Proof.
  intros s added out. split; [|split; vm_compute; reflexivity].
  pose proof (job_row_left_pending (Typed.ops Runs.flaky)
                "UC1" Scenario.apiKey 1 s Scenario.job1) as H.
  cbv zeta in H. fold added in H. fold out in H.
  change (job_serial s) with 2 in H.
  rewrite H; [reflexivity | reflexivity | discriminate].
Defined.

(** ** What [fetchAndStoreChannel] stores *)

(** [fetchAndStoreChannel] stores nothing when the client throws.  When
    it returns, it has written one row of [channels], under the id found in
    the record of the client, which need not be the id asked for; the row
    keeps the time the channel was first stored; [getChannelById] of that
    id then returns the row; every other row, and the tables of videos and
    of analytics, are as before. *)
Theorem fetchAndStoreChannel_stores
    (client : ClientOps) (channelId : string) (e : Env) :
  let asked := getChannelInfo client channelId "id" (world e) in
  let out := YouTubeChannelService.fetchAndStoreChannel client channelId e in
  world (snd out) = snd asked
  /\ videos_table (store (snd out)) = videos_table (store e)
  /\ channel_analytics (store (snd out)) = channel_analytics (store e)
  /\ match fst asked with
     | Throw err => fst out = Throw err /\ store (snd out) = store e
     | Ok channelData =>
         let key := c_channelId channelData in
         exists row,
           fst out = Ok row
           /\ ch_data row = channelData /\ channel_id row = key
           /\ ch_updated_at row = now (snd asked)
           /\ ch_created_at row
              = match channels (store e) !! key with
                | Some old => ch_created_at old
                | None => now (snd asked)
                end
           /\ fst (StorageReads.getChannelById key (store (snd out)))
              = Ok (Some row)
           /\ forall other, other <> key ->
                channels (store (snd out)) !! other
                = channels (store e) !! other
     end.
Proof.
  intros asked out. subst out.
  unfold YouTubeChannelService.fetchAndStoreChannel, try_catch, bind, on_world,
    on_store, ret, throw.
  fold asked. destruct asked as [[channelData|err] w1]; cbn [fst snd world store].
  - unfold Storage.storeChannel. cbn [fst snd world store videos_table
      channel_analytics channels now].
    repeat split.
    eexists. split; [reflexivity|]. cbn [ch_data channel_id ch_updated_at
      ch_created_at].
    repeat split.
    + unfold StorageReads.getChannelById, try_catch, gets. cbn.
      now rewrite lookup_insert_eq.
    + intros other Hne. now rewrite lookup_insert_ne by congruence.
  - destruct e as [w0 st]. repeat split.
Qed.

(** ** A reply with an entry the code cannot read *)

Section MalformedFacts.

Lemma prop_throws v p e :
  Dyn.prop v p = Throw e -> exists m, e = JsTypeError m.
Proof.
  destruct v as [[| | | | |fs]|]; cbn; try discriminate;
    intros E; injection E as <-; eexists; reflexivity.
Qed.

Lemma client_parseDuration_throws iso e :
  Client.parseDuration iso = Throw e -> exists m, e = JsTypeError m.
Proof.
  destruct iso as [[| | |s| |]|]; cbn; try discriminate;
    intros E; injection E as <-; eexists; reflexivity.
Qed.

Lemma client_isShort_throws categoryId d tags e :
  Client.isShort categoryId d tags = Throw e -> exists m, e = JsTypeError m.
Proof.
  unfold Client.isShort. destruct (d <=? 60); [discriminate|].
  destruct (Js.truthy tags).
  - destruct tags as [[| | | |l|]|];
      try (cbn; intros E; injection E as <-; eexists; reflexivity).
    destruct (some_res Client.tag_test l) as [tagged|e0] eqn:Es; cbn.
    + destruct tagged; [discriminate|].
      destruct (Dyn.is_string categoryId "23"); discriminate.
    + intros E. injection E as <-. exact (some_res_throws _ _ Es).
  - cbn. destruct (Dyn.is_string categoryId "23"); discriminate.
Qed.

Lemma and_then_throws {A B} (r : Res A) (k : A -> Res B) (P : Exn -> Prop) :
  (forall e, r = Throw e -> P e) ->
  (forall a e, k a = Throw e -> P e) ->
  forall e, and_then r k = Throw e -> P e.
Proof.
  intros Hr Hk e. destruct r as [a|e0]; cbn; [apply Hk|].
  intros E. injection E as <-. now apply Hr.
Qed.

(** The callback of [getVideoDetails] throws nothing but a [TypeError]. *)
Lemma videoDetails_throws video e :
  Client.videoDetails video = Throw e -> exists m, e = JsTypeError m.
Proof.
  unfold Client.videoDetails. revert e.
  repeat first
    [ apply and_then_throws;
      [ first [ apply prop_throws
              | apply client_parseDuration_throws
              | apply client_isShort_throws ]
      | intros ? ]
    | intros e E; discriminate E ].
Qed.

Lemma map_res_throws {A B} (f : A -> Res B) l x e :
  List.In x l -> f x = Throw e ->
  exists y e', List.In y l /\ f y = Throw e' /\ map_res f l = Throw e'.
Proof.
  induction l as [|a l IH]; intros Hin Hx; [destruct Hin|].
  cbn [map_res]. destruct (f a) as [b|ea] eqn:Ea.
  - destruct Hin as [->|Hin]; [congruence|].
    destruct (IH Hin Hx) as (y & e' & Hy & Ey & Em).
    exists y, e'. split; [right; exact Hy|]. split; [exact Ey|].
    cbn. rewrite Em. reflexivity.
  - exists a, ea. split; [left; reflexivity|]. split; [exact Ea | reflexivity].
Qed.

End MalformedFacts.

(** [getVideoDetails] gives all the records or none: when one entry of
    the reply cannot be read (no [contentDetails], a duration that is not a
    string, no [snippet], no [statistics], tags that are not a list of
    strings), the call throws a [TypeError] and the records of the other
    entries are lost with it, although the reply has been paid for and
    cached. *)
Theorem getVideoDetails_all_or_nothing
    (apiKey : string) (net : Upstream) (videoIds : string) (w : World)
    (response : JSON) (entries : list JSON) (entry : JSON) (e : Exn) :
  let request :=
    YouTubeAPIClient.makeRequest apiKey net "/videos"
      [("id", PStr videoIds);
       ("part", PStr "snippet,contentDetails,statistics")] 1 w in
  fst request = Ok response ->
  Js.opt_prop (Some response) "items" = Some (JArr entries) ->
  List.In entry entries ->
  Client.videoDetails entry = Throw e ->
  exists m,
    Client.getVideoDetails apiKey net videoIds w
    = (Throw (JsTypeError m), snd request).
Proof.
  intros request Hr Hitems Hin He. unfold Client.getVideoDetails, bind, of_res.
  fold request. destruct request as [[r|e0] w1]; cbn [fst snd] in *;
    [|discriminate]. injection Hr as ->.
  unfold Client.videoDetailsList.
  assert (Hp : Dyn.prop (Some response) "items" = Ok (Some (JArr entries))).
  { destruct response; cbn in Hitems |- *; try discriminate. now rewrite Hitems. }
  rewrite Hp. cbn [and_then Js.truthy negb].
  destruct (map_res_throws _ _ _ _ Hin He) as (y & e' & _ & Ey & ->).
  destruct (videoDetails_throws _ _ Ey) as (m & ->). exists m. reflexivity.
Qed.

(** [getVideoDetails_all_or_nothing], at work: the second of two entries
    has no statistics. *)
Lemma getVideoDetails_all_or_nothing_witness :
  let broken :=
    JObj [("id", JStr "v9");
          ("snippet", JObj [("title", JStr "v9")]);
          ("contentDetails", JObj [("duration", JStr "PT3M")])] in
  let reply := JObj [("items", JArr [Replies.video_entry "v1" "PT45S"; broken])] in
  exists m,
    fst (Client.getVideoDetails Scenario.apiKey
           (Scenario.always (Http 200 reply)) "v1,v9" Scenario.start)
    = Throw (JsTypeError m).
Proof.
  intros broken reply.
  destruct (getVideoDetails_all_or_nothing Scenario.apiKey
              (Scenario.always (Http 200 reply)) "v1,v9" Scenario.start
              reply [Replies.video_entry "v1" "PT45S"; broken] broken
              (Dyn.reading "undefined" "viewCount"))
    as (m & E).
  - vm_compute. reflexivity.
  - reflexivity.
  - right. left. reflexivity.
  - vm_compute. reflexivity.
  - exists m. rewrite E. reflexivity.
Defined.
